(** * Send & Archive for Gmail popup compose: a model of [content.js]

    The content script is a set of callbacks run by the browser's event
    loop over a document it does not own.  The development follows the
    script section by section:

    - strings and the DOM ([Element], selectors, the element finders);
    - the host: virtual clock, timer queue, mutation observers, listeners
      and the trace of host API calls ([World]);
    - the script's functions as state transformers on [World];
    - the event loop ([step], [run]);
    - the properties.

    Node identity is the [nodeId] of an element; JavaScript numbers that
    count retries are [Z]; a closure handed to [setTimeout] or to an
    observer is a constructor of [Callback] holding its captured
    variables. *)

From Stdlib Require Import ZArith Lia Ascii.
From stdpp Require Import base strings gmap list.

#[local] Set Warnings "-register-all".
#[local] Open Scope string_scope.
#[local] Open Scope list_scope.

(** ** Strings *)

Module Str.

(** [s.startsWith(p)] *)
Definition startsWith (s p : string) : bool := String.prefix p s.

Definition lowerAscii (c : ascii) : ascii :=
  let n := nat_of_ascii c in
  if (65 <=? n)%nat && (n <=? 90)%nat then ascii_of_nat (n + 32) else c.

(** [s.toLowerCase()], on the ASCII range. *)
Fixpoint toLowerCase (s : string) : string :=
  match s with
  | EmptyString => EmptyString
  | String c s' => String (lowerAscii c) (toLowerCase s')
  end.

(** White space as [trim] sees it (ASCII range): space, tab, line feed,
    vertical tab, form feed, carriage return. *)
Definition isSpace (c : ascii) : bool :=
  let n := nat_of_ascii c in
  (n =? 32)%nat || ((9 <=? n)%nat && (n <=? 13)%nat).

(** The separators of a class list: the same without vertical tab. *)
Definition isClassSeparator (c : ascii) : bool :=
  let n := nat_of_ascii c in
  (n =? 32)%nat || (n =? 9)%nat || (n =? 10)%nat || (n =? 12)%nat || (n =? 13)%nat.

(** A word character of a regular expression: [[A-Za-z0-9_]]. *)
Definition isWordChar (c : ascii) : bool :=
  let n := nat_of_ascii c in
  ((48 <=? n)%nat && (n <=? 57)%nat)
  || ((65 <=? n)%nat && (n <=? 90)%nat)
  || ((97 <=? n)%nat && (n <=? 122)%nat)
  || (n =? 95)%nat.

Fixpoint trimStart (s : string) : string :=
  match s with
  | EmptyString => EmptyString
  | String c s' => if isSpace c then trimStart s' else s
  end.

Fixpoint trimEnd (s : string) : string :=
  match s with
  | EmptyString => EmptyString
  | String c s' =>
      match trimEnd s' with
      | EmptyString => if isSpace c then EmptyString else String c EmptyString
      | t => String c t
      end
  end.

(** [s.trim()] *)
Definition trim (s : string) : string := trimEnd (trimStart s).

Fixpoint drop (n : nat) (s : string) : string :=
  match n, s with
  | O, _ => s
  | S n', String _ s' => drop n' s'
  | S _, EmptyString => EmptyString
  end.

(** Is the first character of [s] a word character? *)
Definition startsWithWordChar (s : string) : bool :=
  match s with
  | EmptyString => false
  | String c _ => isWordChar c
  end.

(** [s.replace(/\bw\b/, "")] for a literal [w] made of word characters:
    the first occurrence of [w] that has no word character on either
    side is removed.  [prevWord] tells whether the character before
    the current position is a word character. *)
Fixpoint removeFirstWord (w : string) (prevWord : bool) (s : string) : string :=
  match s with
  | EmptyString => EmptyString
  | String c s' =>
      if negb prevWord && startsWith s w
         && negb (startsWithWordChar (drop (String.length w) s))
      then drop (String.length w) s
      else String c (removeFirstWord w (isWordChar c) s')
  end.

(** The tokens of a class list ([classList]). *)
Fixpoint tokensFrom (cur : string) (s : string) : list string :=
  match s with
  | EmptyString => if String.eqb cur "" then [] else [cur]
  | String c s' =>
      if isClassSeparator c
      then (if String.eqb cur "" then tokensFrom "" s'
            else cur :: tokensFrom "" s')
      else tokensFrom (cur +:+ String c "") s'
  end.

Definition tokens (s : string) : list string := tokensFrom "" s.

End Str.

(** ** The DOM *)

(** Attribute set on compose containers that have already been processed. *)
Definition PROCESSED_ATTR : string := "data-sab-processed".

(** Attribute set on the injected button. *)
Definition BTN_ATTR : string := "data-sab-btn".

Definition NodeId := nat.

(** An element with the subtree below it.  Text nodes carry nothing the
    script reads and are left out.  [className] is the content of the class
    attribute, which the selectors read.  The [className] property, which
    [buildButton] reads, is that string for an HTML element; for an element
    of the SVG namespace, [svgElement], it is an [SVGAnimatedString]
    object. *)
Inductive Element : Type :=
  mkNode {
    nodeId : NodeId;
    tagName : string;
    className : string;
    attributes : gmap string string;
    children : list Element;
    svgElement : bool
  }.

(** An HTML element. *)
Abbreviation mkElement i t c a cs := (mkNode i t c a cs false).

Module Dom.

(** Strict descendants in document order. *)
Fixpoint descendants (e : Element) : list Element :=
  flat_map (fun c => c :: descendants c) (children e).

(** The subtree in document order, root first. *)
Definition subtree (e : Element) : list Element := e :: descendants e.

Definition getAttribute (el : Element) (name : string) : option string :=
  attributes el !! name.

Definition hasAttribute (el : Element) (name : string) : bool :=
  bool_decide (is_Some (attributes el !! name)).

(** [el.getAttribute(name) || ""] *)
Definition getAttributeOrEmpty (el : Element) (name : string) : string :=
  match getAttribute el name with
  | Some v => v
  | None => ""
  end.

Definition hasClass (cls : string) (el : Element) : bool :=
  bool_decide (cls ∈ Str.tokens (className el)).

(** [[name="v"]] *)
Definition attrIs (name v : string) (el : Element) : bool :=
  match getAttribute el name with
  | Some x => String.eqb x v
  | None => false
  end.

(** [[name^="p"]] *)
Definition attrStarts (name p : string) (el : Element) : bool :=
  match getAttribute el name with
  | Some x => Str.startsWith x p
  | None => false
  end.

Definition tagIs (t : string) (el : Element) : bool := String.eqb (tagName el) t.

(** [el.querySelectorAll(sel)]: the matching strict descendants. *)
Definition querySelectorAll (el : Element) (sel : Element -> bool) : list Element :=
  filter (fun x => sel x = true) (descendants el).

(** [document.querySelectorAll(sel)] and [document.querySelector(sel)],
    where [doc] is the document's root element. *)
Definition documentQuerySelectorAll (doc : Element) (sel : Element -> bool) : list Element :=
  filter (fun x => sel x = true) (subtree doc).

Definition documentQuerySelector (doc : Element) (sel : Element -> bool) : option Element :=
  head (documentQuerySelectorAll doc sel).

(** The node with identity [i], searched from the root in document order. *)
Fixpoint getNode (e : Element) (i : NodeId) : option Element :=
  if decide (nodeId e = i) then Some e
  else (fix first (cs : list Element) : option Element :=
          match cs with
          | [] => None
          | c :: cs' => match getNode c i with
                        | Some x => Some x
                        | None => first cs'
                        end
          end) (children e).

(** [a.contains(b)], [document.contains(b)]: is the node with identity
    [b] the root of [a] or below it? *)
Definition containsId (a : Element) (b : NodeId) : bool :=
  bool_decide (is_Some (getNode a b)).

(** A node together with its ancestor chain, nearest first. *)
Record Located := mkLocated { here : Element; ancestors : list Element }.

Fixpoint locatedDescendants (anc : list Element) (e : Element) : list Located :=
  flat_map (fun c => mkLocated c (e :: anc) :: locatedDescendants (e :: anc) c)
           (children e).

Definition locatedSubtree (anc : list Element) (e : Element) : list Located :=
  mkLocated e anc :: locatedDescendants anc e.

(** [el.closest(sel)]: the element itself or its nearest matching ancestor. *)
Definition closest (sel : Element -> bool) (l : Located) : option Element :=
  head (filter (fun x => sel x = true) (here l :: ancestors l)).

Definition querySelectorAllLocated (l : Located) (sel : Element -> bool) : list Located :=
  filter (fun x => sel (here x) = true) (locatedDescendants (ancestors l) (here l)).

(** [a || b] on possibly-null element handles. *)
Definition orElse {A} (a b : option A) : option A :=
  match a with
  | Some _ => a
  | None => b
  end.

End Dom.

Import Dom.

(** ** Element finders *)

(** The test applied to a lower-cased tooltip or label in [findSendButton]. *)
Definition acceptsSendText (t : string) : bool :=
  String.eqb t "send"
  || (Str.startsWith t "send " && negb (Str.startsWith t "send &")).

(** One [for ... of] loop of [findSendButton]; [attr] is the attribute the
    loop reads. *)
Fixpoint firstSendIn (attr : string) (els : list Element) : option Element :=
  match els with
  | [] => None
  | el :: rest =>
      if hasAttribute el BTN_ATTR then firstSendIn attr rest
      else if acceptsSendText (Str.toLowerCase (getAttributeOrEmpty el attr))
           then Some el
           else firstSendIn attr rest
  end.

Definition selSendClass : Element -> bool := hasClass "aoO".

(** [[aria-label="Send"], [aria-label^="Send "]] *)
Definition selSendLabel (el : Element) : bool :=
  attrIs "aria-label" "Send" el || attrStarts "aria-label" "Send " el.

Definition findSendButton (composeEl : Element) : option Element :=
  let byClass := querySelectorAll composeEl selSendClass in
  match firstSendIn "data-tooltip" byClass with
  | Some el => Some el
  | None =>
      let byAriaLabel := querySelectorAll composeEl selSendLabel in
      firstSendIn "aria-label" byAriaLabel
  end.

(** The loop of [findComposeWindows]: [seen] is the [Set] of roots,
    [results] the array being filled. *)
Fixpoint composeRootsLoop (dwEl : Element) (cands : list Located)
         (seen : gset NodeId) (results : list Element) : list Element :=
  match cands with
  | [] => results
  | el :: rest =>
      if hasAttribute (here el) BTN_ATTR then composeRootsLoop dwEl rest seen results
      else
        let root :=
          match closest (hasClass "nH") el with
          | Some c => if containsId dwEl (nodeId c) then c else dwEl
          | None => dwEl
          end in
        if bool_decide (nodeId root ∈ seen)
        then composeRootsLoop dwEl rest seen results
        else composeRootsLoop dwEl rest ({[nodeId root]} ∪ seen) (results ++ [root])
  end.

Definition sendCandidates (dwEl : Located) : list Located :=
  querySelectorAllLocated dwEl selSendClass
  ++ querySelectorAllLocated dwEl selSendLabel.

Definition findComposeWindows (dwEl : Located) : list Element :=
  composeRootsLoop (here dwEl) (sendCandidates dwEl) ∅ [].

(** The selector list of [findNativeSendAndArchiveButton]. *)
Definition selNativeSendAndArchive (el : Element) : bool :=
  attrStarts "data-tooltip" "Send & Archive" el
  || attrStarts "data-tooltip" "Send and archive" el
  || attrStarts "aria-label" "Send & Archive" el
  || attrStarts "aria-label" "Send and archive" el.

Fixpoint firstNotInjected (els : list Element) : option Element :=
  match els with
  | [] => None
  | el :: rest => if hasAttribute el BTN_ATTR then firstNotInjected rest else Some el
  end.

Definition findNativeSendAndArchiveButton (composeEl : Element) : option Element :=
  firstNotInjected (querySelectorAll composeEl selNativeSendAndArchive).

(** The lookup chain at the head of [archiveCurrentConversation]. *)
Definition findArchiveButton (doc : Element) : option Element :=
  orElse (documentQuerySelector doc (attrIs "data-tooltip" "Archive"))
  (orElse (documentQuerySelector doc (attrStarts "data-tooltip" "Archive ("))
  (orElse (documentQuerySelector doc (attrIs "aria-label" "Archive"))
  (orElse (documentQuerySelector doc (attrStarts "aria-label" "Archive"))
  (orElse (documentQuerySelector doc
             (fun el => tagIs "button" el && attrIs "title" "Archive" el))
          (head (filter
                  (fun el =>
                     Str.startsWith (getAttributeOrEmpty el "data-tooltip") "Archive"
                     || Str.startsWith (getAttributeOrEmpty el "aria-label") "Archive"
                     = true)
                  (documentQuerySelectorAll doc (attrIs "role" "button")))))))).

(** [getPopupComposeRoot(el)] *)
Definition getPopupComposeRoot (el : Located) : option Element :=
  closest (hasClass "dw") el.

(** ** The host: timers, observers, listeners, trace *)

(** Closures the script hands to [setTimeout], [requestIdleCallback] or a
    removal observer, with the variables they capture. *)
Inductive Callback : Type :=
| CbScanAll                                   (* [scanAll] *)
| CbArchive                                   (* [archiveCurrentConversation], called without argument *)
| CbArchiveRetry (retriesLeft : Z)            (* [() => archiveCurrentConversation(retriesLeft - 1)] *)
| CbSendClick (sendBtn : NodeId)              (* [() => sendBtn.click()] *)
| CbTryInjectRetry (composeEl : NodeId) (retriesLeft : Z)
                                              (* [() => tryInjectWithRetry(composeEl, retriesLeft - 1)] *)
| CbComposeClosed                             (* the [onRemoved] closure of [triggerSendAndArchive] *)
| CbToastFade (toast : nat)                   (* the 5 s closure of [showToast] *)
| CbToastRemove (toast : nat)                 (* [() => toast.remove()] *)
| CbStartObserver                             (* first [runWhenIdle] closure *)
| CbInitialScan.                              (* second [runWhenIdle] closure *)

(** Listener closures of [injectButton]. *)
Inductive Handler : Type :=
| OnComposeKeydown (composeEl sendBtn : NodeId)
| OnButtonKeydown (btn : NodeId)
| OnButtonClick (composeEl sendBtn : NodeId).

(** The [LOG] lines, by call site. *)
Inductive LogMsg : Type :=
| LogLoaded
| LogArchiveAttempt (attempt : Z)             (* [attempt ${9 - retriesLeft} of 8] *)
| LogArchiveFound (btn : NodeId)
| LogArchiveNotFound (retriesLeft : Z)
| LogArchiveGivingUp
| LogWatching (composeEl : NodeId)
| LogComposeRemoved
| LogTriggerInvoked
| LogUsingNative (btn : NodeId)
| LogNoNative
| LogComposeClosed
| LogClickingSend (sendBtn : NodeId)
| LogInjecting (composeEl : NodeId)
| LogChordIntercepted
| LogButtonClicked
| LogScanAll (found : nat)
| LogStartingObserver
| LogInitialScan.

(** The two call sites of [findSendButton] outside the finders. *)
Inductive Caller : Type := ByTryInjectWithRetry | ByInjectButton.

(** Calls into the host that the script makes.  [FindSendButton] is not a
    host call: it marks one evaluation of [findSendButton(composeEl)], so
    that lookups can be counted. *)
Inductive Effect : Type :=
| Log (m : LogMsg)
| FindSendButton (caller : Caller) (composeEl : NodeId)
| DispatchEvent (target : NodeId) (type : string)   (* [el.dispatchEvent(new MouseEvent(type, ..))] *)
| Click (target : NodeId)                           (* [el.click()] *)
| SetTimeout (id : nat) (cb : Callback) (delay : Z)
| ClearTimeout (id : nat)
| RequestIdleCallback (cb : Callback) (timeout : Z)
| Observe (observer : nat)
| Disconnect (observer : nat)
| SetAttribute (el : NodeId) (name value : string)
| AddEventListener (el : NodeId) (type : string) (capture : bool) (h : Handler)
| InsertAfter (ref new : NodeId)                    (* [ref.insertAdjacentElement("afterend", new)] *)
| AppendToast (toast : nat) (message : string)
| RemoveToast (toast : nat).

#[global] Instance Callback_eq_dec : EqDecision Callback.
Proof. solve_decision. Defined.

#[global] Instance Handler_eq_dec : EqDecision Handler.
Proof. solve_decision. Defined.

#[global] Instance LogMsg_eq_dec : EqDecision LogMsg.
Proof. solve_decision. Defined.

#[global] Instance Caller_eq_dec : EqDecision Caller.
Proof. solve_decision. Defined.

#[global] Instance Effect_eq_dec : EqDecision Effect.
Proof. solve_decision. Defined.

Record Timer := mkTimer { timerId : nat; due : Z; callback : Callback }.

(** A connected removal observer of [watchComposeForRemoval]. *)
Record Observer := mkObserver { observerId : nat; watched : NodeId; onRemoved : Callback }.

Record Listener := mkListener {
  listensOn : NodeId; eventType : string; useCapture : bool; handler : Handler }.

Record Toast := mkToast { toastId : nat; message : string; isError : bool; faded : bool }.

(** A DOM event as the listeners see it. *)
Record DomEvent := mkEvent {
  type : string;
  key : string;
  ctrlKey : bool;
  shiftKey : bool;
  altKey : bool;
  metaKey : bool;
  defaultPrevented : bool;
  propagationStopped : bool
}.

Record World := mkWorld {
  now : Z;                        (* virtual clock, ms *)
  dom : Element;                  (* the document's root element *)
  nextId : nat;                   (* supply of handles: timers, observers, created nodes *)
  timers : list Timer;            (* pending timers, in the order they were set *)
  idleQueue : list Callback;      (* pending idle callbacks *)
  hasIdleCallback : bool;         (* ["requestIdleCallback" in window] *)
  observers : list Observer;      (* connected removal observers *)
  mainObserving : bool;           (* [mainObserver] connected *)
  listeners : list Listener;
  scanTimer : option nat;         (* the script's [scanTimer] variable *)
  toast : option Toast;           (* the [#sab-toast] element, if in the document *)
  trace : list (Z * Effect)       (* host calls so far, newest first *)
}.

Module Host.

Definition setNow (t : Z) (w : World) : World :=
  mkWorld t (dom w) (nextId w) (timers w) (idleQueue w) (hasIdleCallback w)
          (observers w) (mainObserving w) (listeners w) (scanTimer w) (toast w) (trace w).
Definition setDom (d : Element) (w : World) : World :=
  mkWorld (now w) d (nextId w) (timers w) (idleQueue w) (hasIdleCallback w)
          (observers w) (mainObserving w) (listeners w) (scanTimer w) (toast w) (trace w).
Definition setNextId (n : nat) (w : World) : World :=
  mkWorld (now w) (dom w) n (timers w) (idleQueue w) (hasIdleCallback w)
          (observers w) (mainObserving w) (listeners w) (scanTimer w) (toast w) (trace w).
Definition setTimers (ts : list Timer) (w : World) : World :=
  mkWorld (now w) (dom w) (nextId w) ts (idleQueue w) (hasIdleCallback w)
          (observers w) (mainObserving w) (listeners w) (scanTimer w) (toast w) (trace w).
Definition setIdleQueue (q : list Callback) (w : World) : World :=
  mkWorld (now w) (dom w) (nextId w) (timers w) q (hasIdleCallback w)
          (observers w) (mainObserving w) (listeners w) (scanTimer w) (toast w) (trace w).
Definition setObservers (os : list Observer) (w : World) : World :=
  mkWorld (now w) (dom w) (nextId w) (timers w) (idleQueue w) (hasIdleCallback w)
          os (mainObserving w) (listeners w) (scanTimer w) (toast w) (trace w).
Definition setMainObserving (b : bool) (w : World) : World :=
  mkWorld (now w) (dom w) (nextId w) (timers w) (idleQueue w) (hasIdleCallback w)
          (observers w) b (listeners w) (scanTimer w) (toast w) (trace w).
Definition setListeners (ls : list Listener) (w : World) : World :=
  mkWorld (now w) (dom w) (nextId w) (timers w) (idleQueue w) (hasIdleCallback w)
          (observers w) (mainObserving w) ls (scanTimer w) (toast w) (trace w).
Definition setScanTimer (s : option nat) (w : World) : World :=
  mkWorld (now w) (dom w) (nextId w) (timers w) (idleQueue w) (hasIdleCallback w)
          (observers w) (mainObserving w) (listeners w) s (toast w) (trace w).
Definition setToast (t : option Toast) (w : World) : World :=
  mkWorld (now w) (dom w) (nextId w) (timers w) (idleQueue w) (hasIdleCallback w)
          (observers w) (mainObserving w) (listeners w) (scanTimer w) t (trace w).
Definition setTrace (tr : list (Z * Effect)) (w : World) : World :=
  mkWorld (now w) (dom w) (nextId w) (timers w) (idleQueue w) (hasIdleCallback w)
          (observers w) (mainObserving w) (listeners w) (scanTimer w) (toast w) tr.

(** Record a host call at the current virtual time. *)
Definition emit (e : Effect) (w : World) : World :=
  setTrace ((now w, e) :: trace w) w.

(** [LOG(...)] *)
Definition LOG (m : LogMsg) : World -> World := emit (Log m).

(** [setTimeout(cb, delay)]; the timer's handle is [nextId w]. *)
Definition setTimeout (cb : Callback) (delay : Z) (w : World) : World :=
  let id := nextId w in
  emit (SetTimeout id cb delay)
    (setNextId (S id)
       (setTimers (timers w ++ [mkTimer id (now w + Z.max 0 delay) cb]) w)).

(** [clearTimeout(id)] *)
Definition clearTimeout (id : nat) (w : World) : World :=
  emit (ClearTimeout id)
    (setTimers (filter (fun t => timerId t <> id) (timers w)) w).

(** [requestIdleCallback(cb, { timeout })] *)
Definition requestIdleCallback (cb : Callback) (timeout : Z) (w : World) : World :=
  emit (RequestIdleCallback cb timeout) (setIdleQueue (idleQueue w ++ [cb]) w).

(** [observer.disconnect()] *)
Definition disconnect (o : nat) (w : World) : World :=
  emit (Disconnect o)
    (setObservers (filter (fun x => observerId x <> o) (observers w)) w).

(** [el.addEventListener(type, h, capture)] *)
Definition addEventListener (el : NodeId) (ty : string) (capture : bool)
           (h : Handler) (w : World) : World :=
  emit (AddEventListener el ty capture h)
    (setListeners (listeners w ++ [mkListener el ty capture h]) w).

(** The node with identity [i] together with its ancestors. *)
Definition getLocated (doc : Element) (i : NodeId) : option Located :=
  head (filter (fun l => nodeId (here l) = i) (locatedSubtree [] doc)).

(** Apply [f] to the node with identity [i]. *)
Fixpoint updateNode (i : NodeId) (f : Element -> Element) (e : Element) : Element :=
  if decide (nodeId e = i) then f e
  else mkNode (nodeId e) (tagName e) (className e) (attributes e)
              (map (updateNode i f) (children e)) (svgElement e).

Definition withAttribute (name value : string) (e : Element) : Element :=
  mkNode (nodeId e) (tagName e) (className e)
         (<[name := value]> (attributes e)) (children e) (svgElement e).

(** Put [new] right after the node with identity [ref], among the
    children of that node's parent. *)
Fixpoint insertAfterNode (ref : NodeId) (new : Element) (e : Element) : Element :=
  mkNode (nodeId e) (tagName e) (className e) (attributes e)
    ((fix among (cs : list Element) : list Element :=
        match cs with
        | [] => []
        | c :: cs' =>
            insertAfterNode ref new c
            :: (if decide (nodeId c = ref) then new :: among cs' else among cs')
        end) (children e))
    (svgElement e).

(** [el.setAttribute(name, value)] on a node of the document. *)
Definition setAttribute (el : NodeId) (name value : string) (w : World) : World :=
  emit (SetAttribute el name value)
    (setDom (updateNode el (withAttribute name value) (dom w)) w).

(** [ref.insertAdjacentElement("afterend", new)].  The mutation records of
    the insertion reach the observers as inputs of their own, [MainRecords]
    and [RemovalRecords]; the browser delivers them when the running task
    has ended. *)
Definition insertAdjacentElement (ref : NodeId) (new : Element) (w : World) : World :=
  emit (InsertAfter ref (nodeId new))
    (setDom (insertAfterNode ref new (dom w)) w).

End Host.

Import Host.

(** ** The script *)

Definition TOAST_MESSAGE : string :=
  "Send & Archive: email sent, but the Archive button wasn't found. Please archive manually.".

(** [runWhenIdle(fn, timeoutMs)] *)
Definition runWhenIdle (fn : Callback) (timeoutMs : Z) (w : World) : World :=
  if hasIdleCallback w then requestIdleCallback fn timeoutMs w
  else setTimeout fn timeoutMs w.

(** [showToast(message, type = "error")]: the element is created with
    handle [nextId w]; its styling is kept as [isError] and [faded].  The
    notification is kept in [toast], beside [dom]: [toast w] is the element
    that [document.getElementById("sab-toast")] finds, provided that no
    element of the host's document has that [id]. *)
Definition showToast (msg : string) (w : World) : World :=
  let w1 := match toast w with
            | Some existing => emit (RemoveToast (toastId existing)) (setToast None w)
            | None => w
            end in
  let id := nextId w1 in
  let w2 := emit (AppendToast id msg)
              (setToast (Some (mkToast id msg true false)) (setNextId (S id) w1)) in
  setTimeout (CbToastFade id) 5000 w2.

(** [simulateClick(el)] *)
Definition simulateClick (el : NodeId) (w : World) : World :=
  fold_left (fun w ty => emit (DispatchEvent el ty) w)
            ["mousedown"; "mouseup"; "click"] w.

(** [archiveCurrentConversation(retriesLeft = 8)] *)
Definition archiveCurrentConversation (retriesLeft : Z) (w : World) : World :=
  let w := LOG (LogArchiveAttempt (9 - retriesLeft)) w in
  match findArchiveButton (dom w) with
  | Some archiveBtn =>
      let w := LOG (LogArchiveFound (nodeId archiveBtn)) w in
      simulateClick (nodeId archiveBtn) w
  | None =>
      let w := LOG (LogArchiveNotFound retriesLeft) w in
      if (0 <? retriesLeft)%Z
      then setTimeout (CbArchiveRetry retriesLeft) 300 w
      else
        let w := LOG LogArchiveGivingUp w in
        showToast TOAST_MESSAGE w
  end.

(** [watchComposeForRemoval(composeEl, onRemoved)]; the observer's handle
    is [nextId w]. *)
Definition watchComposeForRemoval (composeEl : NodeId) (onRemoved : Callback)
           (w : World) : World :=
  let w := LOG (LogWatching composeEl) w in
  let id := nextId w in
  emit (Observe id)
    (setNextId (S id)
       (setObservers (observers w ++ [mkObserver id composeEl onRemoved]) w)).

(** [buildButton(sendBtn)] reads [sendBtn.className] and calls [.replace]
    on it.  On an SVG element the property is an object without that
    method, and the call throws a [TypeError], after the [div] was created
    and before anything else was done. *)
Definition buildButtonThrows (sendBtn : Element) : bool := svgElement sendBtn.

(** The element [buildButton(sendBtn)] returns when it does not throw; [id]
    is the identity of the created [div]. *)
Definition buildButton (id : NodeId) (sendBtn : Element) : Element :=
  mkElement id "div"
    (Str.trim (Str.removeFirstWord "aoO" false (className sendBtn)) +:+ " aoO sab-btn")
    (<["data-tooltip" :=
         "Send this message and archive the conversation (Ctrl+Shift+Enter)"]>
       (<["aria-label" := "Send & Archive"]>
          (<[BTN_ATTR := "true"]>
             (<["tabindex" := "1"]>
                (<["role" := "button"]> ∅)))))
    [].

(** [triggerSendAndArchive(composeEl, sendBtn)]; [composeEl] is the region
    as it is when the function runs. *)
Definition triggerSendAndArchive (composeEl : Element) (sendBtn : NodeId)
           (w : World) : World :=
  let w := LOG LogTriggerInvoked w in
  match findNativeSendAndArchiveButton composeEl with
  | Some nativeBtn =>
      let w := LOG (LogUsingNative (nodeId nativeBtn)) w in
      simulateClick (nodeId nativeBtn) w
  | None =>
      let w := LOG LogNoNative w in
      let w := watchComposeForRemoval (nodeId composeEl) CbComposeClosed w in
      let w := LOG (LogClickingSend sendBtn) w in
      setTimeout (CbSendClick sendBtn) 0 w
  end.

(** [injectButton(composeEl)].  The script calls it only from
    [tryInjectWithRetry], after [document.contains(composeEl)]; a handle
    that is not in the document leaves the world as it is. *)
Definition injectButton (composeEl : NodeId) (w : World) : World :=
  match getNode (dom w) composeEl with
  | None => w
  | Some el =>
      if hasAttribute el PROCESSED_ATTR then w
      else
        let w := emit (FindSendButton ByInjectButton composeEl) w in
        match findSendButton el with
        | None => w
        | Some sendBtn =>
            let w := LOG (LogInjecting composeEl) w in
            let w := setAttribute composeEl PROCESSED_ATTR "true" w in
            if buildButtonThrows sendBtn
            then setNextId (S (nextId w)) w       (* [buildButton] throws *)
            else
            let btn := buildButton (nextId w) sendBtn in
            let w := setNextId (S (nextId w)) w in
            let w := addEventListener composeEl "keydown" true
                       (OnComposeKeydown composeEl (nodeId sendBtn)) w in
            let w := addEventListener (nodeId btn) "keydown" false
                       (OnButtonKeydown (nodeId btn)) w in
            let w := addEventListener (nodeId btn) "click" false
                       (OnButtonClick composeEl (nodeId sendBtn)) w in
            insertAdjacentElement (nodeId sendBtn) btn w
        end
  end.

(** Does [injectButton(composeEl)] end by throwing?  It does when it gets
    as far as [buildButton] and that call throws; the world it leaves
    behind is [injectButton composeEl w] in either case. *)
Definition injectButtonThrows (composeEl : NodeId) (w : World) : bool :=
  match getNode (dom w) composeEl with
  | None => false
  | Some el =>
      if hasAttribute el PROCESSED_ATTR then false
      else match findSendButton el with
           | None => false
           | Some sendBtn => buildButtonThrows sendBtn
           end
  end.

(** [tryInjectWithRetry(composeEl, retriesLeft = 6)] *)
Definition tryInjectWithRetry (composeEl : NodeId) (retriesLeft : Z)
           (w : World) : World :=
  match getNode (dom w) composeEl with
  | None => w                                   (* [!document.contains(composeEl)] *)
  | Some el =>
      if hasAttribute el PROCESSED_ATTR then w
      else
        let w := emit (FindSendButton ByTryInjectWithRetry composeEl) w in
        if bool_decide (is_Some (findSendButton el)) then injectButton composeEl w
        else if (0 <? retriesLeft)%Z
             then setTimeout (CbTryInjectRetry composeEl retriesLeft) 300 w
             else w
  end.

(** Does [tryInjectWithRetry(composeEl)] end by throwing?  Only its call
    of [injectButton] can. *)
Definition tryInjectWithRetryThrows (composeEl : NodeId) (w : World) : bool :=
  match getNode (dom w) composeEl with
  | None => false
  | Some el =>
      if hasAttribute el PROCESSED_ATTR then false
      else if bool_decide (is_Some (findSendButton el))
           then injectButtonThrows composeEl
                  (emit (FindSendButton ByTryInjectWithRetry composeEl) w)
           else false
  end.

(** [regions.forEach((composeEl) => tryInjectWithRetry(composeEl))].  A call
    that throws ends the loop; the second component tells whether one
    did. *)
Fixpoint forEachRegion (regions : list NodeId) (w : World) : World * bool :=
  match regions with
  | [] => (w, false)
  | composeEl :: rest =>
      if tryInjectWithRetryThrows composeEl w
      then (tryInjectWithRetry composeEl 6 w, true)
      else forEachRegion rest (tryInjectWithRetry composeEl 6 w)
  end.

(** [dwEls.forEach((dw) => findComposeWindows(dw).forEach(...))].  Each
    container is read again from the document when its turn comes, so that
    it shows what earlier injections of the same scan did; an exception
    from the inner loop ends the outer one as well. *)
Fixpoint forEachContainer (dwEls : list NodeId) (w : World) : World :=
  match dwEls with
  | [] => w
  | dw :: rest =>
      match getLocated (dom w) dw with
      | None => forEachContainer rest w
      | Some dwEl =>
          let (w', threw) := forEachRegion (map nodeId (findComposeWindows dwEl)) w in
          if threw then w' else forEachContainer rest w'
      end
  end.

(** [scanAll()].  [querySelectorAll(".dw")] fixes the containers.  An
    exception thrown by an injection is not caught anywhere: it ends the
    scan, and the timer task with it. *)
Definition scanAll (w : World) : World :=
  let w := setScanTimer None w in
  let dwEls := map nodeId (documentQuerySelectorAll (dom w) (hasClass "dw")) in
  let w := LOG (LogScanAll (length dwEls)) w in
  forEachContainer dwEls w.

(** [scheduleScan(delay = 300)] *)
Definition scheduleScan (delay : Z) (w : World) : World :=
  let w := match scanTimer w with
           | Some t => clearTimeout t w
           | None => w
           end in
  setScanTimer (Some (nextId w)) (setTimeout CbScanAll delay w).

(** What [mainObserver] receives: the added nodes of each record. *)
Inductive AddedNode : Type :=
| TextNode
| ElementNode (node : Located).

Definition nodeNeedsScan (n : AddedNode) : bool :=
  match n with
  | TextNode => false
  | ElementNode node =>
      bool_decide (is_Some (getPopupComposeRoot node))
      || bool_decide (is_Some (head (querySelectorAll (here node) (hasClass "dw"))))
  end.

(** The callback of [mainObserver]. *)
Definition mainObserverCallback (mutations : list (list AddedNode)) (w : World) : World :=
  let needsScan := existsb (existsb nodeNeedsScan) mutations in
  if needsScan then scheduleScan 300 w else w.

(** The closures run by timers and idle periods. *)
Definition runCallback (cb : Callback) (w : World) : World :=
  match cb with
  | CbScanAll => scanAll w
  | CbArchive => archiveCurrentConversation 8 w
  | CbArchiveRetry retriesLeft => archiveCurrentConversation (retriesLeft - 1) w
  | CbSendClick sendBtn => emit (Click sendBtn) w
  | CbTryInjectRetry composeEl retriesLeft =>
      tryInjectWithRetry composeEl (retriesLeft - 1) w
  | CbComposeClosed =>
      let w := LOG LogComposeClosed w in
      setTimeout CbArchive 2000 w
  | CbToastFade t =>
      let w := match toast w with
               | Some x => if decide (toastId x = t)
                           then setToast (Some (mkToast t (message x) (isError x) true)) w
                           else w
               | None => w
               end in
      setTimeout (CbToastRemove t) 400 w
  | CbToastRemove t =>
      match toast w with
      | Some x => if decide (toastId x = t)
                  then emit (RemoveToast t) (setToast None w)
                  else w
      | None => w
      end
  | CbStartObserver =>
      let w := LOG LogStartingObserver w in
      setMainObserving true w
  | CbInitialScan =>
      let w := LOG LogInitialScan w in
      scheduleScan 0 w
  end.

(** The callback of the observer made by [watchComposeForRemoval]. *)
Definition removalObserverCallback (o : Observer) (w : World) : World :=
  if negb (containsId (dom w) (watched o)) then
    let w := LOG LogComposeRemoved w in
    let w := disconnect (observerId o) w in
    runCallback (onRemoved o) w
  else w.

Definition preventDefault (e : DomEvent) : DomEvent :=
  mkEvent (type e) (key e) (ctrlKey e) (shiftKey e) (altKey e) (metaKey e)
          true (propagationStopped e).

Definition stopImmediatePropagation (e : DomEvent) : DomEvent :=
  mkEvent (type e) (key e) (ctrlKey e) (shiftKey e) (altKey e) (metaKey e)
          (defaultPrevented e) true.

(** The capture-phase [keydown] listener on the compose window. *)
Definition onComposeKeydown (composeEl : Element) (sendBtn : NodeId)
           (e : DomEvent) (w : World) : DomEvent * World :=
  if String.eqb (key e) "Enter" && ctrlKey e && shiftKey e then
    let e := preventDefault e in
    let e := stopImmediatePropagation e in
    let w := LOG LogChordIntercepted w in
    (e, triggerSendAndArchive composeEl sendBtn w)
  else (e, w).

(** The [click] listener on the injected button. *)
Definition onButtonClick (composeEl : Element) (sendBtn : NodeId)
           (e : DomEvent) (w : World) : DomEvent * World :=
  let e := preventDefault e in
  let e := stopImmediatePropagation e in
  let w := LOG LogButtonClicked w in
  (e, triggerSendAndArchive composeEl sendBtn w).

(** The script's top level: both [runWhenIdle] calls. *)
Definition startScript (w : World) : World :=
  let w := LOG LogLoaded w in
  let w := runWhenIdle CbStartObserver 6000 w in
  runWhenIdle CbInitialScan 6000 w.

(** The [keydown] listener on the injected button: [btn.click()] runs the
    button's own [click] listeners before it returns. *)
Definition runClickListener (h : Handler) (e : DomEvent) (w : World) : DomEvent * World :=
  match h with
  | OnButtonClick composeEl sendBtn =>
      match getNode (dom w) composeEl with
      | Some el => onButtonClick el sendBtn e w
      | None => (e, w)
      end
  | _ => (e, w)
  end.

Definition runListeners (run : Handler -> DomEvent -> World -> DomEvent * World)
           (hs : list Handler) (e : DomEvent) (w : World) : DomEvent * World :=
  fold_left (fun ew h => if propagationStopped (fst ew) then ew
                         else run h (fst ew) (snd ew))
            hs (e, w).

Definition listenersOn (w : World) (el : NodeId) (ty : string) (capture : bool)
  : list Handler :=
  map handler
      (filter (fun l => listensOn l = el /\ eventType l = ty /\ useCapture l = capture)
              (listeners w)).

Definition clickEvent : DomEvent := mkEvent "click" "" false false false false false false.

Definition onButtonKeydown (btn : NodeId) (e : DomEvent) (w : World) : DomEvent * World :=
  if String.eqb (key e) "Enter" || String.eqb (key e) " " then
    let e := preventDefault e in
    let w := emit (Click btn) w in
    (e, snd (runListeners runClickListener (listenersOn w btn "click" false) clickEvent w))
  else (e, w).

(** ** The event loop *)

Definition runListener (h : Handler) (e : DomEvent) (w : World) : DomEvent * World :=
  match h with
  | OnComposeKeydown composeEl sendBtn =>
      match getNode (dom w) composeEl with
      | Some el => onComposeKeydown el sendBtn e w
      | None => (e, w)
      end
  | OnButtonKeydown btn => onButtonKeydown btn e w
  | OnButtonClick _ _ => runClickListener h e w
  end.

(** An event dispatched at [target]: capture listeners from the root
    down, then the others from the target up. *)
Definition dispatchEvent (target : NodeId) (e : DomEvent) (w : World) : DomEvent * World :=
  match getLocated (dom w) target with
  | None => (e, w)
  | Some l =>
      let path := nodeId (here l) :: map nodeId (ancestors l) in
      let hs := (flat_map (fun n => listenersOn w n (type e) true) (rev path)
                 ++ flat_map (fun n => listenersOn w n (type e) false) path)%list in
      runListeners runListener hs e w
  end.

(** The pending timer that fires next: the earliest due one, the one set
    first among equals. *)
Fixpoint earliest (ts : list Timer) : option Timer :=
  match ts with
  | [] => None
  | t :: rest =>
      match earliest rest with
      | Some t' => if (due t' <? due t)%Z then Some t' else Some t
      | None => Some t
      end
  end.

(** What the browser and the host application do between two runs of
    script code. *)
Inductive Input : Type :=
| HostMutation (doc : Element)          (* the host rewrites the document *)
| RemovalRecords (observer : nat)       (* records delivered to a removal observer *)
| MainRecords (mutations : list (list AddedNode))
                                        (* records delivered to [mainObserver] *)
| TimerFires                            (* the next pending timer fires *)
| IdlePeriod                            (* the first idle callback runs *)
| UserEvent (target : NodeId) (e : DomEvent).

Definition step (i : Input) (w : World) : World :=
  match i with
  | HostMutation doc => setDom doc w
  | RemovalRecords o =>
      match head (filter (fun x => observerId x = o) (observers w)) with
      | Some ob => removalObserverCallback ob w
      | None => w
      end
  | MainRecords mutations =>
      if mainObserving w then mainObserverCallback mutations w else w
  | TimerFires =>
      match earliest (timers w) with
      | Some t =>
          runCallback (callback t)
            (setNow (Z.max (now w) (due t))
               (setTimers (filter (fun x => timerId x <> timerId t) (timers w)) w))
      | None => w
      end
  | IdlePeriod =>
      match idleQueue w with
      | cb :: q => runCallback cb (setIdleQueue q w)
      | [] => w
      end
  | UserEvent target e => snd (dispatchEvent target e w)
  end.

Definition run (inputs : list Input) (w : World) : World :=
  fold_left (fun w i => step i w) inputs w.

(** The world before the script runs, and right after its top level. *)
Definition initialWorld (doc : Element) (idleApi : bool) : World :=
  mkWorld 0 doc 0 [] [] idleApi [] false [] None None [].

Definition boot (doc : Element) (idleApi : bool) : World :=
  startScript (initialWorld doc idleApi).

(** ** Definitions used to state the properties *)

(** *** Sample documents *)

Module Sample.
Definition control (i : NodeId) (cls tooltip : string) : Element :=
  mkElement i "div" cls (<["data-tooltip" := tooltip]> (<["role" := "button"]> ∅)) [].

(** A popup compose window with Gmail's Send button only. *)
Definition plainCompose : Element :=
  mkElement 11 "div" "nH" ∅ [control 12 "T-I J-J5-Ji aoO" "Send"].

(** A compose window that also holds Gmail's own combined button. *)
Definition nativeCompose : Element :=
  mkElement 21 "div" "nH" ∅
    [control 22 "T-I J-J5-Ji aoO" "Send"; control 23 "T-I" "Send and archive"].

(** A compose window whose Send button is not rendered yet. *)
Definition emptyCompose : Element := mkElement 11 "div" "nH" ∅ [].

(** A compose window after injection, with a combined control of the host
    in front. *)
Definition injectedCompose : Element :=
  mkElement 41 "div" "nH" (<[PROCESSED_ATTR := "true"]> ∅)
    [control 42 "T-I aoO" "Send & Archive";
     control 44 "T-I J-J5-Ji aoO" "Send (Ctrl-Enter)";
     buildButton 43 (control 44 "T-I J-J5-Ji aoO" "Send (Ctrl-Enter)")].

Definition page (body : list Element) : Element :=
  mkElement 1 "html" "" ∅ [mkElement 2 "div" "dw" ∅ body].

Definition toolbar : Element :=
  mkElement 3 "div" "G-tF" ∅ [control 31 "T-I" "Archive"].

Definition keydown (k : string) (ctrl shift alt : bool) : DomEvent :=
  mkEvent "keydown" k ctrl shift alt false false false.
End Sample.

(** *** The finder and the chord in the specification's words *)

(** The finder as the specification words it: one scan over the
    candidates, marker-class matches (judged by their tooltip) before
    accessible-label matches (judged by their label); the first one that
    is not synthetic and whose lower-cased text is accepted wins. *)
Definition sendControlCandidates (region : Element) : list (Element * string) :=
  (map (fun el => (el, getAttributeOrEmpty el "data-tooltip"))
       (querySelectorAll region selSendClass)
   ++ map (fun el => (el, getAttributeOrEmpty el "aria-label"))
          (querySelectorAll region selSendLabel))%list.

Definition qualifiesAsSend (c : Element * string) : bool :=
  negb (hasAttribute (fst c) BTN_ATTR)
  && (let t := Str.toLowerCase (snd c) in
      String.eqb t "send"
      || (Str.startsWith t "send " && negb (Str.startsWith t "send &"))).

Definition findSendControl_spec (region : Element) : option Element :=
  fst <$> List.find qualifiesAsSend (sendControlCandidates region).

(** The three-key chord of the specification, with no other modifier held. *)
Definition isCtrlShiftEnter (e : DomEvent) : bool :=
  String.eqb (key e) "Enter" && ctrlKey e && shiftKey e
  && negb (altKey e) && negb (metaKey e).

(** *** What a trace shows, oldest call first *)

(** The events dispatched on one element. *)
Definition dispatchedOn (el : NodeId) (tr : list (Z * Effect)) : list string :=
  omap (fun x => match snd x with
                 | DispatchEvent target ty => if decide (target = el) then Some ty else None
                 | _ => None
                 end) (rev tr).

(** The number of [el.click()] calls on one element. *)
Definition clickCalls (el : NodeId) (tr : list (Z * Effect)) : nat :=
  length (omap (fun x => match snd x with
                         | Click target => if decide (target = el) then Some target else None
                         | _ => None
                         end) tr).

(** The archive attempts a trace logs: the time and the number of each. *)
Definition archiveAttempts (tr : list (Z * Effect)) : list (Z * Z) :=
  omap (fun x => match snd x with
                 | Log (LogArchiveAttempt n) => Some (fst x, n)
                 | _ => None
                 end) (rev tr).

(** Every dispatched event: target and type. *)
Definition dispatched (tr : list (Z * Effect)) : list (NodeId * string) :=
  omap (fun x => match snd x with
                 | DispatchEvent target ty => Some (target, ty)
                 | _ => None
                 end) (rev tr).

(** The notifications shown: time and message. *)
Definition toastsShown (tr : list (Z * Effect)) : list (Z * string) :=
  omap (fun x => match snd x with
                 | AppendToast _ msg => Some (fst x, msg)
                 | _ => None
                 end) (rev tr).

(** The delays with which retries of the archive sequence were scheduled. *)
Definition archiveRetryDelays (tr : list (Z * Effect)) : list Z :=
  omap (fun x => match snd x with
                 | SetTimeout _ (CbArchiveRetry _) delay => Some delay
                 | _ => None
                 end) (rev tr).

(** A stretch of trace that shows nothing of an archive sequence. *)
Definition quiet (tr : list (Z * Effect)) : Prop :=
  archiveAttempts tr = [] /\ dispatched tr = [] /\ toastsShown tr = []
  /\ archiveRetryDelays tr = [].

(** The evaluations of [findSendButton] on a region: time and call site. *)
Definition sendLookups (composeEl : NodeId) (tr : list (Z * Effect)) : list (Z * Caller) :=
  omap (fun x => match snd x with
                 | FindSendButton caller c =>
                     if decide (c = composeEl) then Some (fst x, caller) else None
                 | _ => None
                 end) (rev tr).

(** The insertions made: reference node and inserted node. *)
Definition insertions (tr : list (Z * Effect)) : list (NodeId * NodeId) :=
  omap (fun x => match snd x with
                 | InsertAfter ref new => Some (ref, new)
                 | _ => None
                 end) (rev tr).

(** The delays with which injection retries were scheduled. *)
Definition injectRetryDelays (tr : list (Z * Effect)) : list Z :=
  omap (fun x => match snd x with
                 | SetTimeout _ (CbTryInjectRetry _ _) delay => Some delay
                 | _ => None
                 end) (rev tr).

(** *** Pending timers by kind *)

(** The pending timers that belong to an archive sequence. *)
Definition pendingArchive (w : World) : list Timer :=
  omap (fun t => match callback t with
                 | CbArchive | CbArchiveRetry _ => Some t
                 | _ => None
                 end) (timers w).

(** The pending timers that belong to an injection retry chain. *)
Definition pendingInject (w : World) : list Timer :=
  omap (fun t => match callback t with
                 | CbTryInjectRetry _ _ => Some t
                 | _ => None
                 end) (timers w).

(** The pending timers that will run [scanAll]. *)
Definition isScan (t : Timer) : option Timer :=
  match callback t with
  | CbScanAll => Some t
  | _ => None
  end.

Definition pendingScans (w : World) : list Timer := omap isScan (timers w).

(** What the debounce relies on: timer handles are distinct and below the
    handle supply, the pending scan timers are exactly the one [scanTimer]
    names, and [scanAll] runs from nowhere but a timer. *)
Definition scanInvariant (w : World) : Prop :=
  NoDup (timerId <$> timers w)
  /\ Forall (fun t => (timerId t < nextId w)%nat) (timers w)
  /\ timerId <$> pendingScans w
     = match scanTimer w with
       | Some id => [id]
       | None => []
       end
  /\ Forall (fun o => onRemoved o <> CbScanAll) (observers w)
  /\ Forall (fun cb => cb <> CbScanAll) (idleQueue w).

(** *** Runs of the event loop *)

(** The host shows a document, then the next pending timer fires. *)
Definition hostThenTimer (w : World) (doc : Element) : World :=
  step TimerFires (step (HostMutation doc) w).

Definition runTimers (docs : list Element) (w : World) : World :=
  fold_left hostThenTimer docs w.

(** The host shows a document, then mutation records reach the removal
    observer [o]. *)
Definition hostThenRecords (o : nat) (w : World) (doc : Element) : World :=
  step (RemovalRecords o) (step (HostMutation doc) w).

Definition deliverRecords (o : nat) (docs : list Element) (w : World) : World :=
  fold_left (hostThenRecords o) docs w.

(** *** The document tree before and after an insertion *)

(** The search of [getNode] among a list of siblings. *)
Definition getNodeAmong (cs : list Element) (i : NodeId) : option Element :=
  (fix first (cs : list Element) : option Element :=
     match cs with
     | [] => None
     | c :: cs' => match getNode c i with
                   | Some x => Some x
                   | None => first cs'
                   end
     end) cs.

(** The children list after [insertAfterNode]. *)
Definition insertAmong (ref : NodeId) (new : Element) (cs : list Element) : list Element :=
  (fix among (cs : list Element) : list Element :=
     match cs with
     | [] => []
     | c :: cs' =>
         insertAfterNode ref new c
         :: (if decide (nodeId c = ref) then new :: among cs' else among cs')
     end) cs.

(** Two handles show the same node when identity, tag, classes and
    attributes agree; the subtrees below may differ. *)
Definition sameNode (a b : Element) : Prop :=
  nodeId a = nodeId b /\ tagName a = tagName b
  /\ className a = className b /\ attributes a = attributes b.

(** [l'] is [l] with some nodes shown again (same node, subtree perhaps
    changed) and with elements satisfying [added] put in between. *)
Inductive Inserted (added : Element -> Prop) : list Element -> list Element -> Prop :=
| Inserted_nil : Inserted added [] []
| Inserted_keep a b l l' :
    sameNode a b -> Inserted added l l' -> Inserted added (a :: l) (b :: l')
| Inserted_add x l l' :
    added x -> Inserted added l l' -> Inserted added l (x :: l').

(** Both finders return nothing, or both return the same node. *)
Definition sameResult (r r' : option Element) : Prop :=
  match r, r' with
  | Some a, Some b => sameNode a b
  | None, None => True
  | _, _ => False
  end.

(** The candidates of [findComposeWindows] that are not synthetic. *)
Definition hostCandidates (cands : list Located) : list Located :=
  filter (fun l => hasAttribute (here l) BTN_ATTR = false) cands.

(** A selector that reads only what [sameNode] compares. *)
Definition shallow (sel : Element -> bool) : Prop :=
  forall a b, sameNode a b -> sel a = sel b.

(** The same for located nodes: same node here, same nodes up the chain. *)
Definition sameLocated (a b : Located) : Prop :=
  sameNode (here a) (here b) /\ Forall2 sameNode (ancestors a) (ancestors b).

Inductive InsertedLocated (added : Located -> Prop)
  : list Located -> list Located -> Prop :=
| InsertedLocated_nil : InsertedLocated added [] []
| InsertedLocated_keep a b l l' :
    sameLocated a b -> InsertedLocated added l l' ->
    InsertedLocated added (a :: l) (b :: l')
| InsertedLocated_add x l l' :
    added x -> InsertedLocated added l l' -> InsertedLocated added l (x :: l').

(** *** The archive lookup, selector by selector *)

(** The six lookups at the head of [archiveCurrentConversation], in the
    order they are tried; the last one is the broad scan over
    [[role="button"]] with its [find] predicate. *)
Definition archiveSelectors : list (Element -> bool) :=
  [attrIs "data-tooltip" "Archive";
   attrStarts "data-tooltip" "Archive (";
   attrIs "aria-label" "Archive";
   attrStarts "aria-label" "Archive";
   (fun el => tagIs "button" el && attrIs "title" "Archive" el);
   (fun el => attrIs "role" "button" el
              && (Str.startsWith (getAttributeOrEmpty el "data-tooltip") "Archive"
                  || Str.startsWith (getAttributeOrEmpty el "aria-label") "Archive"))].

(** The first selector of a list that matches anything decides, and its
    first match in document order is the result. *)
Fixpoint firstBySelectors (doc : Element) (sels : list (Element -> bool)) : option Element :=
  match sels with
  | [] => None
  | sel :: rest => orElse (documentQuerySelector doc sel) (firstBySelectors doc rest)
  end.

(** *** Regions of a popup container *)

(** The root that the loop of [findComposeWindows] computes for one
    candidate: its nearest [.nH] ancestor-or-self if the container holds
    it, the container otherwise. *)
Definition composeRoot (dwEl : Element) (el : Located) : Element :=
  match closest (hasClass "nH") el with
  | Some c => if containsId dwEl (nodeId c) then c else dwEl
  | None => dwEl
  end.

(** An element that one of the loops of [findSendButton] accepts: not
    synthetic, and matched by the marker class with an accepted tooltip or
    by the label selector with an accepted label. *)
Definition isSendButton (el : Element) : bool :=
  negb (hasAttribute el BTN_ATTR)
  && ((selSendClass el
       && acceptsSendText (Str.toLowerCase (getAttributeOrEmpty el "data-tooltip")))
      || (selSendLabel el
          && acceptsSendText (Str.toLowerCase (getAttributeOrEmpty el "aria-label")))).

(** *** Added nodes that concern a popup container *)

(** The two tests of the [mainObserver] callback on an added element: it
    lies in a [.dw] container (or is one), or it holds one below it. *)
Definition inOrAroundPopup (node : Located) : Prop :=
  (exists a, a ∈ here node :: ancestors node /\ hasClass "dw" a = true)
  \/ (exists d, d ∈ descendants (here node) /\ hasClass "dw" d = true).

(** *** Scanning and injecting, as against sending and archiving *)

(** The closures that scanning and injection schedule. *)
Definition passiveCallback (cb : Callback) : bool :=
  match cb with
  | CbScanAll | CbTryInjectRetry _ _ | CbStartObserver | CbInitialScan => true
  | _ => false
  end.

(** The host calls that activate nothing: all but the dispatch of an
    event, [click()], the connection of a removal observer, the display of
    a notification and the log line of an archive attempt. *)
Definition passiveEffect (e : Effect) : bool :=
  match e with
  | DispatchEvent _ _ | Click _ | Observe _ | AppendToast _ _
  | Log (LogArchiveAttempt _) => false
  | _ => true
  end.

(** Each listener closure of [injectButton] is registered for the event
    type it handles. *)
Definition listensForItsType (l : Listener) : bool :=
  match handler l with
  | OnComposeKeydown _ _ | OnButtonKeydown _ => String.eqb (eventType l) "keydown"
  | OnButtonClick _ _ => String.eqb (eventType l) "click"
  end.

(** A world in which nothing has been activated and nothing is under way
    that would activate anything. *)
Definition passive (w : World) : Prop :=
  observers w = []
  /\ Forall (fun t => passiveCallback (callback t) = true) (timers w)
  /\ Forall (fun cb => passiveCallback cb = true) (idleQueue w)
  /\ Forall (fun x => passiveEffect (snd x) = true) (trace w)
  /\ Forall (fun l => listensForItsType l = true) (listeners w).

(** The inputs that can make a listener of the script act: a click, and a
    keydown of Enter or of the space bar. *)
Definition canActivate (i : Input) : bool :=
  match i with
  | UserEvent _ e =>
      String.eqb (type e) "click"
      || (String.eqb (type e) "keydown"
          && (String.eqb (key e) "Enter" || String.eqb (key e) " "))
  | _ => false
  end.

(** *** What the script does to the document *)

(** The regions for which the injecting path of [injectButton] was taken,
    newest first: the log line that opens the path is the record. *)
Definition injectLog (tr : list (Z * Effect)) : list NodeId :=
  omap (fun x => match snd x with
                 | Log (LogInjecting c) => Some c
                 | _ => None
                 end) tr.

(** How often it was taken for the region [c]. *)
Definition injectionsInto (c : NodeId) (tr : list (Z * Effect)) : nat :=
  length (filter (fun c' => c' = c) (injectLog tr)).

(** The region with identity [c] is in the document and bears the
    processed marker. *)
Definition processed (c : NodeId) (w : World) : Prop :=
  exists el, getNode (dom w) c = Some el /\ hasAttribute el PROCESSED_ATTR = true.

(** A processed region whose identity is below the handle supply, with
    [n] injections into it so far. *)
Definition settled (c : NodeId) (n : nat) (w : World) : Prop :=
  (c < nextId w)%nat /\ processed c w /\ injectionsInto c (trace w) = n.

(** What the host can see of its node [i]: tag, classes and the attributes
    other than the processed marker; nothing if the node is not in the
    document. *)
Definition hostView (i : NodeId) (doc : Element)
  : option (string * string * gmap string string) :=
  (fun el => (tagName el, className el, delete PROCESSED_ATTR (attributes el)))
    <$> getNode doc i.

(** The node [i] as the host left it in [w0], in a later world. *)
Definition untouched (i : NodeId) (w0 w : World) : Prop :=
  (nextId w0 <= nextId w)%nat /\ hostView i (dom w) = hostView i (dom w0).

Definition isHostMutation (i : Input) : bool :=
  match i with
  | HostMutation _ => true
  | _ => false
  end.

(** *** Sample worlds *)

Module Scene.
(** A world with nothing pending, whose handle supply is above the node
    identities of the sample documents. *)
Definition calm (doc : Element) (observing : bool) : World :=
  mkWorld 1000 doc 100 [] [] true [] observing [] None None [].

Definition popupPage : Element := Sample.page [Sample.plainCompose].

Definition dw : Element := mkElement 2 "div" "dw" ∅ [Sample.plainCompose].

Definition dwLocated : Located := mkLocated dw [popupPage].

Definition sendButton : Element := Sample.control 12 "T-I J-J5-Ji aoO" "Send".

(** The sample popup after injection into a quiet world. *)
Definition injected : World := injectButton 11 (calm popupPage true).

(** Two popups being watched, the first of which is gone. *)
Definition twoWatchers : World :=
  watchComposeForRemoval 21 CbComposeClosed
    (watchComposeForRemoval 11 CbComposeClosed
       (calm (Sample.page [Sample.nativeCompose]) true)).
End Scene.

(** *** The document as the scans see it *)

(** Two handles show the same node to the scans when identity, tag and
    classes agree and the attributes agree save the processed marker. *)
Definition sameMod (a b : Element) : Prop :=
  nodeId a = nodeId b /\ tagName a = tagName b /\ className a = className b
  /\ forall name, name <> PROCESSED_ATTR -> attributes a !! name = attributes b !! name.

Definition sameModLocated (a b : Located) : Prop :=
  sameMod (here a) (here b) /\ Forall2 sameMod (ancestors a) (ancestors b).

(** A selector that reads only what [sameMod] compares. *)
Definition shallowMod (sel : Element -> bool) : Prop :=
  forall a b, sameMod a b -> sel a = sel b.

(** Two trees that hold the same identities and whose located descendants
    agree pairwise, whatever chains of agreeing ancestors they hang on. *)
Definition TreeMod (e e' : Element) : Prop :=
  (forall j, containsId e j = containsId e' j)
  /\ forall anc anc',
      Forall2 sameMod anc anc' ->
      Forall2 sameModLocated (locatedDescendants anc e) (locatedDescendants anc' e').

Definition LocMod (a b : Located) : Prop :=
  sameModLocated a b /\ TreeMod (here a) (here b).

(** The identities of the regions [scanAll] gets for the container [dw],
    and the identity of the send button [findSendButton] finds in the
    region [c], in the document [doc]. *)
Definition regionIds (doc : Element) (dw : NodeId) : list NodeId :=
  match getLocated doc dw with
  | Some l => nodeId <$> findComposeWindows l
  | None => []
  end.

Definition sendIdIn (doc : Element) (c : NodeId) : option NodeId :=
  match getNode doc c with
  | Some el => nodeId <$> findSendButton el
  | None => None
  end.

(** The node identities of the document lie below the handle supply, from
    which the identities of created nodes are drawn. *)
Definition idsBelow (w : World) : Prop :=
  Forall (fun x => (nodeId x < nextId w)%nat) (subtree (dom w)).

(** What the scans of a later world [x] see of the page of [w0]: for every
    identity of [w0], the same regions in that container and the same send
    button in that region. *)
Definition scanView (w0 x : World) : Prop :=
  idsBelow x /\ (nextId w0 <= nextId x)%nat
  /\ forall i, (i < nextId w0)%nat ->
               regionIds (dom x) i = regionIds (dom w0) i
               /\ sendIdIn (dom x) i = sendIdIn (dom w0) i.

(** The region [c] is in the document without the processed marker, with
    [n] injections into it so far. *)
Definition waiting (c : NodeId) (n : nat) (w : World) : Prop :=
  (exists el, getNode (dom w) c = Some el /\ hasAttribute el PROCESSED_ATTR = false)
  /\ injectionsInto c (trace w) = n.

(** A page with two popup containers, each holding one region. *)
Module TwoPopups.
Definition doc : Element :=
  mkElement 1 "html" "" ∅
    [mkElement 2 "div" "dw" ∅ [Sample.plainCompose];
     mkElement 5 "div" "dw" ∅ [Sample.nativeCompose]].

Definition world : World := Scene.calm doc true.

(** The same page while the first popup is not fully rendered: its send
    button has no tooltip yet. *)
Definition rendering : Element :=
  mkElement 1 "html" "" ∅
    [mkElement 2 "div" "dw" ∅
       [mkElement 11 "div" "nH" ∅ [Sample.control 12 "T-I J-J5-Ji aoO" ""]];
     mkElement 5 "div" "dw" ∅ [Sample.nativeCompose]].
End TwoPopups.

(** No send button of the document makes [buildButton] throw: every element
    that a loop of [findSendButton] accepts is an HTML element. *)
Definition htmlSendButtons (doc : Element) : Prop :=
  Forall (fun x => isSendButton x = true -> buildButtonThrows x = false) (subtree doc).

(** A control was inserted after the node [sendBtn], under a handle not
    below [n0]. *)
Definition controlAfter (sendBtn : NodeId) (n0 : nat) (w : World) : Prop :=
  exists btn, (sendBtn, btn) ∈ insertions (trace w) /\ (n0 <= btn)%nat.

(** No element of the document has the [id] that [showToast] looks up. *)
Definition noToastId (doc : Element) : Prop :=
  Forall (fun x => getAttribute x "id" <> Some "sab-toast") (subtree doc).

(** A retry for the region [c] with the full budget is pending, set at
    time [t0] with a handle not below [n0]. *)
Definition retrying (c : NodeId) (t0 : Z) (n0 : nat) (w : World) : Prop :=
  exists t, t ∈ timers w /\ callback t = CbTryInjectRetry c 6
            /\ due t = (t0 + 300)%Z /\ (n0 <= timerId t)%nat.

(** A property of single nodes that reads what [sameMod] compares and
    whether the node is an SVG element. *)
Definition nodeLocal (Q : Element -> Prop) : Prop :=
  forall a b, sameMod a b -> svgElement a = svgElement b -> Q a -> Q b.

(** What a scan that started in [w0] keeps: the page as the scans see it,
    send buttons that are HTML elements, and the time of the scan. *)
Definition scanning (w0 x : World) : Prop :=
  scanView w0 x /\ htmlSendButtons (dom x) /\ now x = now w0.

(** A page whose first popup has an SVG element for a send button. *)
Module SvgPopup.
Definition sendIcon : Element :=
  mkNode 12 "svg" "T-I aoO" (<["data-tooltip" := "Send"]> ∅) [] true.

Definition doc : Element :=
  mkElement 1 "html" "" ∅
    [mkElement 2 "div" "dw" ∅ [mkElement 11 "div" "nH" ∅ [sendIcon]];
     mkElement 5 "div" "dw" ∅ [Sample.nativeCompose]].
End SvgPopup.

(** * Properties *)

(** ** The send-control finder *)

Section FirstMatch.
Context {A : Type} (f : A -> bool).

Lemma find_app_first (l1 l2 : list A) :
  List.find f (l1 ++ l2) =
  match List.find f l1 with
  | Some x => Some x
  | None => List.find f l2
  end.
Proof.
  induction l1 as [|a l1 IH]; simpl; [reflexivity|].
  destruct (f a); [reflexivity | exact IH].
Qed.

Lemma find_Some_split (l : list A) (x : A) :
  List.find f l = Some x ->
  exists pre post, l = pre ++ x :: post
                   /\ Forall (fun y => f y = false) pre /\ f x = true.
Proof.
  induction l as [|a l IH]; simpl; [discriminate|].
  destruct (f a) eqn:Ha.
  - intros [= <-]. exists [], l. repeat split; [constructor | exact Ha].
  - intros H. destruct (IH H) as (pre & post & -> & Hpre & Hx).
    exists (a :: pre), post. repeat split; [constructor; assumption | exact Hx].
Qed.

Lemma find_None_all (l : list A) :
  List.find f l = None <-> (forall y, y ∈ l -> f y = false).
Proof.
  induction l as [|a l IH]; simpl.
  - split; [intros _ y Hy; inversion Hy | reflexivity].
  - destruct (f a) eqn:Ha.
    + split; [discriminate|]. intros H. rewrite (H a) in Ha; [discriminate | left].
    + rewrite IH. split.
      * intros H y Hy. inversion Hy; subst; [exact Ha | apply H; assumption].
      * intros H y Hy. apply H. right. exact Hy.
Qed.
End FirstMatch.

Lemma firstSendIn_find (attr : string) (els : list Element) :
  firstSendIn attr els =
  fst <$> List.find qualifiesAsSend (map (fun el => (el, getAttributeOrEmpty el attr)) els).
Proof.
  induction els as [|el els IH]; simpl; [reflexivity|].
  unfold qualifiesAsSend at 1. simpl. unfold acceptsSendText.
  destruct (hasAttribute el BTN_ATTR); simpl; [exact IH|].
  match goal with |- context [if ?c then Some el else _] => destruct c end;
    simpl; [reflexivity | exact IH].
Qed.

Lemma findSendButton_refines (region : Element) :
  findSendButton region = findSendControl_spec region.
Proof.
  unfold findSendButton, findSendControl_spec, sendControlCandidates.
  rewrite find_app_first, !firstSendIn_find.
  destruct (List.find qualifiesAsSend
              (map (fun el => (el, getAttributeOrEmpty el "data-tooltip"))
                   (querySelectorAll region selSendClass))); reflexivity.
Qed.

(** C4 (as the code has it).  Each candidate is judged by one text only: a
    marker-class match by its tooltip, a label match by its label.
    [findSendButton] returns the first candidate of the region, marker-class
    matches scanned before label matches, that does not carry the synthetic
    marker attribute and whose judged text, lower-cased, is "send" or
    starts with "send " without starting with "send &"; it returns nothing
    exactly when no candidate qualifies.  So the text by which a control is
    returned never begins with "send &"; what the other text of that
    control says is not looked at. *)
Theorem findSendButton_first_qualifying (region : Element) :
  findSendButton region = findSendControl_spec region
  /\ (forall el, findSendButton region = Some el ->
        exists t pre post,
          sendControlCandidates region = (pre ++ (el, t) :: post)%list
          /\ Forall (fun c => qualifiesAsSend c = false) pre
          /\ hasAttribute el BTN_ATTR = false
          /\ (Str.toLowerCase t = "send"
              \/ Str.startsWith (Str.toLowerCase t) "send " = true)
          /\ Str.startsWith (Str.toLowerCase t) "send &" = false)
  /\ (findSendButton region = None <->
      forall c, c ∈ sendControlCandidates region -> qualifiesAsSend c = false).
Proof.
  split; [apply findSendButton_refines|]. split.
  - intros el. rewrite findSendButton_refines. unfold findSendControl_spec.
    destruct (List.find qualifiesAsSend (sendControlCandidates region))
      as [[el' t]|] eqn:Hfind; simpl; [|discriminate].
    intros [= ->].
    destruct (find_Some_split _ _ _ Hfind) as (pre & post & Heq & Hpre & Hq).
    exists t, pre, post. split; [exact Heq|]. split; [exact Hpre|].
    unfold qualifiesAsSend in Hq. simpl in Hq.
    apply andb_prop in Hq as [Hsyn Hacc].
    apply negb_true_iff in Hsyn. split; [exact Hsyn|].
    apply orb_prop in Hacc as [Heqb | Hpref].
    + apply String.eqb_eq in Heqb. split; [left; exact Heqb|].
      rewrite Heqb. reflexivity.
    + apply andb_prop in Hpref as [Hp Hn]. apply negb_true_iff in Hn.
      split; [right; exact Hp | exact Hn].
  - rewrite findSendButton_refines. unfold findSendControl_spec.
    rewrite <- find_None_all.
    destruct (List.find qualifiesAsSend (sendControlCandidates region));
      simpl; split; congruence.
Qed.

Lemma findSendButton_first_qualifying_witness :
  findSendButton Sample.injectedCompose
  = Some (Sample.control 44 "T-I J-J5-Ji aoO" "Send (Ctrl-Enter)")
  /\ hasAttribute (Sample.control 44 "T-I J-J5-Ji aoO" "Send (Ctrl-Enter)") BTN_ATTR = false.
Proof.
  assert (Hfound : findSendButton Sample.injectedCompose
                   = Some (Sample.control 44 "T-I J-J5-Ji aoO" "Send (Ctrl-Enter)"))
    by (vm_compute; reflexivity).
  destruct (findSendButton_first_qualifying Sample.injectedCompose) as (_ & Hfirst & _).
  destruct (Hfirst _ Hfound) as (t & pre & post & _ & _ & Hsyn & _).
  split; [exact Hfound | exact Hsyn].
Defined.

(** C4, the claim as stated fails: a control whose label begins with
    "send &" is returned when it bears the marker class and its tooltip
    qualifies, the first loop reading the tooltip only. *)
Lemma send_and_archive_label_is_returned :
  let el := mkElement 12 "div" "T-I aoO"
              (<["data-tooltip" := "Send"]> (<["aria-label" := "Send & Archive"]> ∅)) [] in
  findSendButton (mkElement 11 "div" "nH" ∅ [el]) = Some el
  /\ Str.startsWith (Str.toLowerCase (getAttributeOrEmpty el "aria-label")) "send &" = true.
Proof. vm_compute. split; reflexivity. Qed.

(** ** The sequencer and control activation *)


(** C3.  When [findNativeSendAndArchiveButton] finds a control in the region,
    [triggerSendAndArchive] dispatches the three mouse events on that control
    and returns: the world changes in its trace only, so no timer is set (the
    deferred [sendBtn.click()] is not scheduled), no removal observer is
    registered and nothing of the archive sequence starts; [click()] is called
    on no element. *)
Theorem triggerSendAndArchive_native_only
        (composeEl : Element) (sendBtn : NodeId) (w : World) (nativeBtn : Element) :
  findNativeSendAndArchiveButton composeEl = Some nativeBtn ->
  let w' := triggerSendAndArchive composeEl sendBtn w in
  w' = setTrace ([(now w, DispatchEvent (nodeId nativeBtn) "click");
                  (now w, DispatchEvent (nodeId nativeBtn) "mouseup");
                  (now w, DispatchEvent (nodeId nativeBtn) "mousedown");
                  (now w, Log (LogUsingNative (nodeId nativeBtn)));
                  (now w, Log LogTriggerInvoked)] ++ trace w) w
  /\ timers w' = timers w
  /\ observers w' = observers w
  /\ (forall el, clickCalls el (trace w') = clickCalls el (trace w))
  /\ (nodeId nativeBtn <> sendBtn ->
      dispatchedOn sendBtn (trace w') = dispatchedOn sendBtn (trace w)).
Proof.
  intros Hnative w'. subst w'. unfold triggerSendAndArchive.
  rewrite Hnative. cbn. split; [reflexivity|]. split; [reflexivity|].
  split; [reflexivity|]. split.
  - intros el. reflexivity.
  - intros Hne. unfold dispatchedOn. cbn.
    rewrite !omap_app. cbn.
    destruct (decide (nodeId nativeBtn = sendBtn)); [contradiction|].
    rewrite !app_nil_r. reflexivity.
Qed.

Lemma triggerSendAndArchive_native_only_witness :
  let w := initialWorld (Sample.page [Sample.nativeCompose]) true in
  dispatchedOn 23 (trace (triggerSendAndArchive Sample.nativeCompose 22 w))
  = ["mousedown"; "mouseup"; "click"]
  /\ timers (triggerSendAndArchive Sample.nativeCompose 22 w) = []
  /\ observers (triggerSendAndArchive Sample.nativeCompose 22 w) = [].
Proof.
  pose proof (triggerSendAndArchive_native_only Sample.nativeCompose 22
                (initialWorld (Sample.page [Sample.nativeCompose]) true)
                (Sample.control 23 "T-I" "Send and archive")) as H.
  cbv zeta in H. specialize (H eq_refl).
  destruct H as (Hw & Ht & Ho & _).
  split; [rewrite Hw; reflexivity|]. split; [rewrite Ht | rewrite Ho]; reflexivity.
Defined.




(** ** The keyboard shortcut *)

(** C8 (as the code has it).  The capture-phase [keydown] listener suppresses
    the event (default prevented, propagation stopped, nothing else changed)
    and invokes the sequencer for every event whose key is Enter with Ctrl
    and Shift held, whatever the state of Alt and Meta; every other event,
    Ctrl+Enter without Shift among them, is returned as it came and the world
    is left as it was. *)
Theorem onComposeKeydown_chord
        (composeEl : Element) (sendBtn : NodeId) (e : DomEvent) (w : World) :
  (key e = "Enter" /\ ctrlKey e = true /\ shiftKey e = true ->
   onComposeKeydown composeEl sendBtn e w
   = (mkEvent (type e) (key e) (ctrlKey e) (shiftKey e) (altKey e) (metaKey e) true true,
      triggerSendAndArchive composeEl sendBtn (LOG LogChordIntercepted w)))
  /\ (key e <> "Enter" \/ ctrlKey e = false \/ shiftKey e = false ->
      onComposeKeydown composeEl sendBtn e w = (e, w))
  /\ (isCtrlShiftEnter e = true ->
      fst (onComposeKeydown composeEl sendBtn e w)
      = stopImmediatePropagation (preventDefault e)).
Proof.
  unfold onComposeKeydown, isCtrlShiftEnter. split; [|split].
  - destruct e; simpl. intros (-> & -> & ->). reflexivity.
  - intros [Hk | [Hc | Hs]].
    + apply String.eqb_neq in Hk. rewrite Hk. reflexivity.
    + rewrite Hc, andb_false_r. reflexivity.
    + rewrite Hs, andb_false_r. reflexivity.
  - intros H. apply andb_prop in H as [H _]. apply andb_prop in H as [H _].
    rewrite H. reflexivity.
Qed.

Lemma onComposeKeydown_chord_witness :
  let w := initialWorld (Sample.page [Sample.plainCompose]) true in
  onComposeKeydown Sample.plainCompose 12 (Sample.keydown "Enter" true false false) w
  = (Sample.keydown "Enter" true false false, w).
Proof.
  destruct (onComposeKeydown_chord Sample.plainCompose 12
              (Sample.keydown "Enter" true false false)
              (initialWorld (Sample.page [Sample.plainCompose]) true)) as (_ & Hother & _).
  apply Hother. right. right. reflexivity.
Defined.

(** C8, the claim as stated fails: with Alt held as well the event is not the
    exact chord, yet the listener suppresses it and invokes the sequencer. *)
Lemma chord_with_alt_is_intercepted :
  let w0 := initialWorld (Sample.page [Sample.plainCompose]) true in
  let e := Sample.keydown "Enter" true true true in
  isCtrlShiftEnter e = false
  /\ defaultPrevented (fst (onComposeKeydown Sample.plainCompose 12 e w0)) = true
  /\ propagationStopped (fst (onComposeKeydown Sample.plainCompose 12 e w0)) = true
  /\ length (timers (snd (onComposeKeydown Sample.plainCompose 12 e w0))) = 1.
Proof. vm_compute. repeat split; reflexivity. Qed.

(** ** The archive sequence *)

Section TraceObservations.
Context {B : Type} (f : Z * Effect -> option B).

Lemma omap_rev_app (new old : list (Z * Effect)) :
  omap f (rev (new ++ old)) = omap f (rev old) ++ omap f (rev new).
Proof. rewrite rev_app_distr, omap_app. reflexivity. Qed.
End TraceObservations.

Lemma archiveAttempts_app (new old : list (Z * Effect)) :
  archiveAttempts (new ++ old) = archiveAttempts old ++ archiveAttempts new.
Proof. apply omap_rev_app. Qed.

Lemma dispatched_app (new old : list (Z * Effect)) :
  dispatched (new ++ old) = dispatched old ++ dispatched new.
Proof. apply omap_rev_app. Qed.

Lemma toastsShown_app (new old : list (Z * Effect)) :
  toastsShown (new ++ old) = toastsShown old ++ toastsShown new.
Proof. apply omap_rev_app. Qed.

Lemma archiveRetryDelays_app (new old : list (Z * Effect)) :
  archiveRetryDelays (new ++ old) = archiveRetryDelays old ++ archiveRetryDelays new.
Proof. apply omap_rev_app. Qed.

Lemma hostThenTimer_idle (w : World) (doc : Element) :
  timers w = [] -> hostThenTimer w doc = setDom doc w.
Proof.
  intros H. unfold hostThenTimer, step. cbn. rewrite H. reflexivity.
Qed.

Lemma runTimers_cons (d : Element) (docs : list Element) (w : World) :
  runTimers (d :: docs) w = runTimers docs (hostThenTimer w d).
Proof. reflexivity. Qed.

Lemma runTimers_nil (w : World) : runTimers [] w = w.
Proof. reflexivity. Qed.

Lemma runTimers_idle (docs : list Element) (w : World) :
  timers w = [] ->
  trace (runTimers docs w) = trace w /\ timers (runTimers docs w) = [].
Proof.
  revert w. induction docs as [|d docs IH]; intros w H; [split; [reflexivity | exact H]|].
  rewrite runTimers_cons, (hostThenTimer_idle _ _ H).
  destruct (IH (setDom d w) H) as [Ht Hq]. split; assumption.
Qed.

Lemma hostThenTimer_single (w : World) (doc : Element) (t : Timer) :
  timers w = [t] ->
  hostThenTimer w doc =
  runCallback (callback t)
    (setNow (Z.max (now w) (due t)) (setTimers [] (setDom doc w))).
Proof.
  intros H. unfold hostThenTimer, step. cbn. rewrite H. cbn.
  destruct (decide (timerId t <> timerId t)) as [Hne|_]; [contradiction|].
  reflexivity.
Qed.

Lemma toastFade_step (w : World) (t : nat) :
  timers w = [] ->
  timers (runCallback (CbToastFade t) w)
  = [mkTimer (nextId w) (now w + 400) (CbToastRemove t)]
  /\ trace (runCallback (CbToastFade t) w)
     = (now w, SetTimeout (nextId w) (CbToastRemove t) 400) :: trace w.
Proof.
  intros H. cbn.
  destruct (toast w) as [x|]; [destruct (decide (toastId x = t))|];
    cbn; rewrite H; split; reflexivity.
Qed.

Lemma toastRemove_step (w : World) (t : nat) :
  timers w = [] ->
  timers (runCallback (CbToastRemove t) w) = []
  /\ exists pre, trace (runCallback (CbToastRemove t) w) = pre ++ trace w /\ quiet pre.
Proof.
  intros H. cbn.
  destruct (toast w) as [x|]; [destruct (decide (toastId x = t))|]; cbn.
  - split; [exact H|]. eexists [_]. split; [reflexivity|]. repeat split.
  - split; [exact H|]. exists []. repeat split.
  - split; [exact H|]. exists []. repeat split.
Qed.

(** Once the notification is up, what remains are its fade and removal. *)
Lemma runTimers_toast_tail (docs : list Element) (w : World) (id : nat) (d : Z) (t : nat) :
  timers w = [mkTimer id d (CbToastFade t)] ->
  exists pre, trace (runTimers docs w) = pre ++ trace w
              /\ quiet pre /\ pendingArchive (runTimers docs w) = [].
Proof.
  intros H. destruct docs as [|d1 docs].
  { exists []. rewrite runTimers_nil. unfold pendingArchive. rewrite H.
    repeat split. }
  rewrite runTimers_cons, (hostThenTimer_single _ _ _ H). cbn [callback].
  remember (setNow _ _) as v1 eqn:Hv1.
  assert (Hv1t : timers v1 = []) by (subst v1; reflexivity).
  assert (Hv1tr : trace v1 = trace w) by (subst v1; reflexivity).
  destruct (toastFade_step v1 t Hv1t) as [Ht1 Htr1].
  remember (runCallback (CbToastFade t) v1) as w1 eqn:Hw1.
  destruct docs as [|d2 docs].
  { eexists [_]. rewrite runTimers_nil, Htr1, Hv1tr. split; [reflexivity|].
    unfold pendingArchive. rewrite Ht1. repeat split. }
  rewrite runTimers_cons, (hostThenTimer_single _ _ _ Ht1). cbn [callback].
  remember (setNow _ (setTimers _ (setDom d2 w1))) as v2 eqn:Hv2.
  assert (Hv2t : timers v2 = []) by (subst v2; reflexivity).
  assert (Hv2tr : trace v2 = trace w1) by (subst v2; reflexivity).
  destruct (toastRemove_step v2 t Hv2t) as (Ht2 & pre2 & Htr2 & Hq2).
  destruct (runTimers_idle docs _ Ht2) as [Htr Hti].
  exists (pre2 ++ [(now v1, SetTimeout (nextId v1) (CbToastRemove t) 400)]).
  rewrite Htr, Htr2, Hv2tr, Htr1, Hv1tr. rewrite <- app_assoc.
  split; [reflexivity|]. split.
  - destruct Hq2 as (Ha & Hd & Hts & Hr). unfold quiet.
    rewrite archiveAttempts_app, dispatched_app, toastsShown_app, archiveRetryDelays_app.
    rewrite Ha, Hd, Hts, Hr. repeat split.
  - unfold pendingArchive. rewrite Hti. reflexivity.
Qed.

(** Equalities that differ in integer arithmetic only. *)
Ltac zeq := solve [repeat first [lia | f_equal]].

Lemma showToast_step (msg : string) (w : World) :
  timers w = [] ->
  exists id d t pre,
    timers (showToast msg w) = [mkTimer id d (CbToastFade t)]
    /\ trace (showToast msg w) = pre ++ trace w
    /\ archiveAttempts pre = [] /\ dispatched pre = []
    /\ toastsShown pre = [(now w, msg)] /\ archiveRetryDelays pre = [].
Proof.
  intros H. unfold showToast. destruct (toast w) as [x|]; cbn; rewrite H.
  - do 3 eexists. eexists [_; _; _]. repeat split.
  - do 3 eexists. eexists [_; _]. repeat split.
Qed.

(** What one run of [archiveCurrentConversation] does, by case. *)
Lemma archiveCurrentConversation_cases (r : Z) (w : World) :
  let w0 := LOG (LogArchiveAttempt (9 - r)) w in
  archiveCurrentConversation r w =
  match findArchiveButton (dom w) with
  | Some b => simulateClick (nodeId b) (LOG (LogArchiveFound (nodeId b)) w0)
  | None =>
      if (0 <? r)%Z
      then setTimeout (CbArchiveRetry r) 300 (LOG (LogArchiveNotFound r) w0)
      else showToast TOAST_MESSAGE (LOG LogArchiveGivingUp (LOG (LogArchiveNotFound r) w0))
  end.
Proof. reflexivity. Qed.

Lemma archive_chain (k : nat) (docs : list Element) (w : World) :
  timers w = [] ->
  exists new n,
    trace (runTimers docs (archiveCurrentConversation (Z.of_nat k) w)) = new ++ trace w
    /\ (1 <= n <= S k)%nat
    /\ archiveAttempts new
       = map (fun i => (now w + 300 * Z.of_nat i, 9 - Z.of_nat k + Z.of_nat i)%Z) (seq 0 n)
    /\ Forall (fun d => d = 300%Z) (archiveRetryDelays new)
    /\ (forall i doc, (i < n - 1)%nat -> (dom w :: docs) !! i = Some doc ->
                      findArchiveButton doc = None)
    /\ exists last,
        (dom w :: docs) !! (n - 1)%nat = Some last
        /\ match findArchiveButton last with
           | Some b =>
               dispatched new = [(nodeId b, "mousedown"); (nodeId b, "mouseup");
                                 (nodeId b, "click")]
               /\ toastsShown new = []
               /\ pendingArchive (runTimers docs (archiveCurrentConversation (Z.of_nat k) w)) = []
           | None =>
               dispatched new = []
               /\ ((n = S k
                    /\ toastsShown new = [((now w + 300 * (Z.of_nat n - 1))%Z, TOAST_MESSAGE)]
                    /\ pendingArchive (runTimers docs (archiveCurrentConversation (Z.of_nat k) w)) = [])
                   \/ ((n <= k)%nat /\ length docs = (n - 1)%nat
                       /\ toastsShown new = []
                       /\ exists id,
                           pendingArchive (runTimers docs (archiveCurrentConversation (Z.of_nat k) w))
                           = [mkTimer id (now w + 300 * Z.of_nat n)
                                      (CbArchiveRetry (Z.of_nat k - Z.of_nat n + 1))]))
           end.
Proof.
  revert docs w. induction k as [|k IH]; intros docs w Hidle.
  all: rewrite archiveCurrentConversation_cases; cbv zeta.
  all: destruct (findArchiveButton (dom w)) as [b|] eqn:Hfind.
  - (* found at once *)
    match goal with |- context [runTimers docs ?x] =>
      destruct (runTimers_idle docs x Hidle) as [Htr Hti] end.
    eexists [_; _; _; _; _], 1%nat. rewrite Htr. split; [reflexivity|].
    split; [lia|]. split; [cbn; zeq|]. split; [constructor|].
    split; [intros i doc Hi; lia|].
    exists (dom w). split; [reflexivity|]. rewrite Hfind.
    split; [reflexivity|]. split; [reflexivity|].
    unfold pendingArchive. rewrite Hti. reflexivity.
  - (* no retry left: the notification *)
    change (0 <? Z.of_nat 0)%Z with false. cbv iota.
    set (w0 := LOG LogArchiveGivingUp _).
    assert (Hidle0 : timers w0 = []) by exact Hidle.
    destruct (showToast_step TOAST_MESSAGE w0 Hidle0)
      as (id & d & t & pre & Hti & Htr & Ha & Hd & Hts & Hr).
    destruct (runTimers_toast_tail docs _ id d t Hti) as (tail & Htail & Hq & Hp).
    destruct Hq as (Ha' & Hd' & Hts' & Hr').
    exists (tail ++ pre ++ [(now w, Log LogArchiveGivingUp);
                            (now w, Log (LogArchiveNotFound (Z.of_nat 0)));
                            (now w, Log (LogArchiveAttempt (9 - Z.of_nat 0)))]), 1%nat.
    rewrite Htail, Htr. split; [rewrite <- !app_assoc; reflexivity|].
    split; [lia|].
    rewrite !archiveAttempts_app, !archiveRetryDelays_app, !dispatched_app, !toastsShown_app.
    rewrite Ha, Ha', Hd, Hd', Hts, Hts', Hr, Hr'.
    split; [cbn; zeq|]. split; [constructor|].
    split; [intros i doc Hi; lia|].
    exists (dom w). split; [reflexivity|]. rewrite Hfind.
    split; [reflexivity|]. left. split; [reflexivity|].
    split; [cbn; zeq | exact Hp].
  - (* found at once *)
    match goal with |- context [runTimers docs ?x] =>
      destruct (runTimers_idle docs x Hidle) as [Htr Hti] end.
    eexists [_; _; _; _; _], 1%nat. rewrite Htr. split; [reflexivity|].
    split; [lia|]. split; [cbn; zeq|]. split; [constructor|].
    split; [intros i doc Hi; lia|].
    exists (dom w). split; [reflexivity|]. rewrite Hfind.
    split; [reflexivity|]. split; [reflexivity|].
    unfold pendingArchive. rewrite Hti. reflexivity.
  - (* a retry is scheduled *)
    replace (0 <? Z.of_nat (S k))%Z with true by (symmetry; apply Z.ltb_lt; lia).
    cbv iota.
    set (w1 := setTimeout _ _ _).
    set (t := mkTimer (nextId w) (now w + 300) (CbArchiveRetry (Z.of_nat (S k)))).
    assert (Ht1 : timers w1 = [t]) by (subst w1 t; cbn; rewrite Hidle; reflexivity).
    assert (Htr1 : trace w1 = [(now w, SetTimeout (nextId w) (CbArchiveRetry (Z.of_nat (S k))) 300);
                               (now w, Log (LogArchiveNotFound (Z.of_nat (S k))));
                               (now w, Log (LogArchiveAttempt (9 - Z.of_nat (S k))))] ++ trace w)
      by reflexivity.
    destruct docs as [|d docs].
    + rewrite runTimers_nil.
      eexists _, 1%nat. split; [exact Htr1|]. split; [lia|].
      split; [cbn; zeq|].
      split; [repeat constructor|].
      split; [intros i doc Hi; lia|].
      exists (dom w). split; [reflexivity|]. rewrite Hfind.
      split; [reflexivity|]. right. split; [lia|]. split; [reflexivity|].
      split; [reflexivity|]. exists (nextId w).
      unfold pendingArchive. rewrite Ht1. subst t. cbn. zeq.
    + rewrite runTimers_cons, (hostThenTimer_single _ _ _ Ht1).
      subst t. cbn [callback runCallback due].
      remember (setNow _ _) as v eqn:Hv.
      assert (Hvt : timers v = []) by (subst v; reflexivity).
      assert (Hvtr : trace v = trace w1) by (subst v; reflexivity).
      assert (Hvd : dom v = d) by (subst v; reflexivity).
      assert (Hvn : now v = (now w + 300)%Z) by (subst v; cbn; lia).
      replace (Z.of_nat (S k) - 1)%Z with (Z.of_nat k) by lia.
      destruct (IH docs v Hvt) as (new & n & Htr & Hn & Ha & Hr & Hbefore & last & Hlast & Hend).
      exists (new ++ [(now w, SetTimeout (nextId w) (CbArchiveRetry (Z.of_nat (S k))) 300);
                      (now w, Log (LogArchiveNotFound (Z.of_nat (S k))));
                      (now w, Log (LogArchiveAttempt (9 - Z.of_nat (S k))))]), (S n).
      rewrite Htr, Hvtr, Htr1. split; [rewrite <- app_assoc; reflexivity|].
      split; [lia|].
      rewrite archiveAttempts_app, archiveRetryDelays_app, dispatched_app, toastsShown_app.
      split.
      { rewrite Ha. cbn [seq map]. rewrite <- seq_shift, map_map. cbn.
        f_equal; [zeq|].
        apply map_ext. intros i. rewrite Hvn. zeq. }
      split; [cbn; constructor; [reflexivity | exact Hr]|].
      split.
      { intros [|i] doc Hi Hdoc.
        - cbn in Hdoc. injection Hdoc as <-. exact Hfind.
        - cbn in Hdoc. rewrite Hvd in Hbefore. apply (Hbefore i doc); [lia | exact Hdoc]. }
      exists last. split.
      { replace (S n - 1)%nat with (S (n - 1)) by lia. cbn.
        rewrite Hvd in Hlast. exact Hlast. }
      destruct (findArchiveButton last) as [b|].
      * destruct Hend as (Hd & Hts & Hp). cbn. rewrite Hd, Hts.
        split; [reflexivity|]. split; [reflexivity | exact Hp].
      * destruct Hend as (Hd & Hend). cbn. rewrite Hd. split; [reflexivity|].
        destruct Hend as [(Hn1 & Hts & Hp) | (Hn1 & Hlen & Hts & id & Hp)].
        -- left. split; [lia|]. rewrite Hts, Hvn. split; [|exact Hp].
           zeq.
        -- right. split; [lia|]. split; [cbn; lia|]. rewrite Hts.
           split; [reflexivity|]. exists id. rewrite Hp, Hvn. zeq.
Qed.

(** C1 (as the code has it).  A run of the archive sequence started with the
    default budget makes [n] lookup attempts, 1 <= n <= 9: the first one and
    at most 8 retries, attempt [i+1] at virtual time [now + 300 i], every
    retry scheduled with a delay of 300 ms.  Every attempt before the last
    finds nothing.  If the last attempt finds the control, the three mouse
    events are dispatched on it, no notification is shown and no timer of
    the sequence is left.  Otherwise nothing is dispatched, and either this
    was the 9th attempt, the notification is shown exactly once, at that
    attempt, and no timer of the sequence is left; or the inputs ended
    before the sequence did, and its next retry is the one pending timer. *)
Theorem archive_sequence_default_budget (docs : list Element) (w : World) :
  timers w = [] ->
  let w' := runTimers docs (runCallback CbArchive w) in
  exists new n,
    trace w' = new ++ trace w
    /\ (1 <= n <= 9)%nat
    /\ archiveAttempts new
       = map (fun i => (now w + 300 * Z.of_nat i, 1 + Z.of_nat i)%Z) (seq 0 n)
    /\ Forall (fun d => d = 300%Z) (archiveRetryDelays new)
    /\ (forall i doc, (i < n - 1)%nat -> (dom w :: docs) !! i = Some doc ->
                      findArchiveButton doc = None)
    /\ exists last,
        (dom w :: docs) !! (n - 1)%nat = Some last
        /\ match findArchiveButton last with
           | Some b =>
               dispatched new = [(nodeId b, "mousedown"); (nodeId b, "mouseup");
                                 (nodeId b, "click")]
               /\ toastsShown new = []
               /\ pendingArchive w' = []
           | None =>
               dispatched new = []
               /\ ((n = 9%nat
                    /\ toastsShown new = [((now w + 2400)%Z, TOAST_MESSAGE)]
                    /\ pendingArchive w' = [])
                   \/ ((n <= 8)%nat /\ length docs = (n - 1)%nat
                       /\ toastsShown new = []
                       /\ exists id,
                           pendingArchive w'
                           = [mkTimer id (now w + 300 * Z.of_nat n)
                                      (CbArchiveRetry (9 - Z.of_nat n))]))
           end.
Proof.
  intros Hidle w'. subst w'. change (runCallback CbArchive w)
    with (archiveCurrentConversation (Z.of_nat 8) w).
  destruct (archive_chain 8 docs w Hidle)
    as (new & n & Htr & Hn & Ha & Hr & Hbefore & last & Hlast & Hend).
  exists new, n. split; [exact Htr|]. split; [exact Hn|].
  split; [rewrite Ha; apply map_ext; intros i; zeq|].
  split; [exact Hr|]. split; [exact Hbefore|].
  exists last. split; [exact Hlast|].
  destruct (findArchiveButton last) as [b|]; [exact Hend|].
  destruct Hend as (Hd & [(Hn9 & Hts & Hp) | (Hn8 & Hlen & Hts & id & Hp)]).
  - split; [exact Hd|]. left. split; [exact Hn9|]. split; [|exact Hp].
    rewrite Hts, Hn9. zeq.
  - split; [exact Hd|]. right. split; [exact Hn8|]. split; [exact Hlen|].
    split; [exact Hts|]. exists id. rewrite Hp. zeq.
Qed.

Lemma archive_sequence_default_budget_witness :
  exists n, (1 <= n <= 9)%nat
            /\ length (archiveAttempts
                         (trace (runTimers [Sample.page []; Sample.page [Sample.toolbar]]
                                   (runCallback CbArchive
                                      (initialWorld (Sample.page []) true))))) = n.
Proof.
  destruct (archive_sequence_default_budget
              [Sample.page []; Sample.page [Sample.toolbar]]
              (initialWorld (Sample.page []) true) eq_refl)
    as (new & n & Htr & Hn & Ha & _).
  exists n. split; [exact Hn|].
  cbv zeta in Htr. rewrite Htr. cbn [initialWorld trace].
  rewrite app_nil_r, Ha, length_map, length_seq. reflexivity.
Defined.

(** C1, the claim as stated fails: when the control is never found the
    sequence makes 9 lookup attempts, numbered 1 to 9, before it gives up. *)
Lemma archive_sequence_ninth_attempt :
  let w := runTimers (replicate 8 (Sample.page []))
             (runCallback CbArchive (initialWorld (Sample.page []) true)) in
  map snd (archiveAttempts (trace w)) = [1; 2; 3; 4; 5; 6; 7; 8; 9]%Z
  /\ map fst (archiveAttempts (trace w))
     = [0; 300; 600; 900; 1200; 1500; 1800; 2100; 2400]%Z
  /\ length (toastsShown (trace w)) = 1%nat.
Proof. vm_compute. repeat split; reflexivity. Qed.

(** ** The injection retry wrapper *)

Lemma sendLookups_app (c : NodeId) (new old : list (Z * Effect)) :
  sendLookups c (new ++ old) = sendLookups c old ++ sendLookups c new.
Proof. apply omap_rev_app. Qed.

Lemma insertions_app (new old : list (Z * Effect)) :
  insertions (new ++ old) = insertions old ++ insertions new.
Proof. apply omap_rev_app. Qed.

Lemma injectRetryDelays_app (new old : list (Z * Effect)) :
  injectRetryDelays (new ++ old) = injectRetryDelays old ++ injectRetryDelays new.
Proof. apply omap_rev_app. Qed.

(** The injecting path of [injectButton]: what it records and that it sets
    no timer. *)
Lemma injectButton_injects (c : NodeId) (w : World) (el sendBtn : Element) :
  getNode (dom w) c = Some el ->
  hasAttribute el PROCESSED_ATTR = false ->
  findSendButton el = Some sendBtn ->
  buildButtonThrows sendBtn = false ->
  trace (injectButton c w)
  = [(now w, InsertAfter (nodeId sendBtn) (nextId w));
     (now w, AddEventListener (nextId w) "click" false (OnButtonClick c (nodeId sendBtn)));
     (now w, AddEventListener (nextId w) "keydown" false (OnButtonKeydown (nextId w)));
     (now w, AddEventListener c "keydown" true (OnComposeKeydown c (nodeId sendBtn)));
     (now w, SetAttribute c PROCESSED_ATTR "true");
     (now w, Log (LogInjecting c));
     (now w, FindSendButton ByInjectButton c)] ++ trace w
  /\ timers (injectButton c w) = timers w.
Proof.
  intros Hnode Hproc Hsend Hhtml. unfold injectButton.
  rewrite Hnode, Hproc. cbn [emit dom setTrace]. rewrite Hsend, Hhtml.
  split; reflexivity.
Qed.

Lemma injectButton_injects_timers (c : NodeId) (w : World) (el sendBtn : Element) :
  getNode (dom w) c = Some el ->
  hasAttribute el PROCESSED_ATTR = false ->
  findSendButton el = Some sendBtn ->
  buildButtonThrows sendBtn = false ->
  trace (injectButton c w)
  = [(now w, InsertAfter (nodeId sendBtn) (nextId w));
     (now w, AddEventListener (nextId w) "click" false (OnButtonClick c (nodeId sendBtn)));
     (now w, AddEventListener (nextId w) "keydown" false (OnButtonKeydown (nextId w)));
     (now w, AddEventListener c "keydown" true (OnComposeKeydown c (nodeId sendBtn)));
     (now w, SetAttribute c PROCESSED_ATTR "true");
     (now w, Log (LogInjecting c));
     (now w, FindSendButton ByInjectButton c)] ++ trace w
  /\ timers (injectButton c w) = timers w /\ True.
Proof.
  intros Hnode Hproc Hsend Hhtml.
  destruct (injectButton_injects c w el sendBtn Hnode Hproc Hsend Hhtml) as [Htr Hti].
  repeat split; assumption.
Qed.

(** The path of [injectButton] on which [buildButton] throws: the marker is
    set, no listener is registered and nothing is inserted. *)
Lemma injectButton_throws (c : NodeId) (w : World) (el sendBtn : Element) :
  getNode (dom w) c = Some el ->
  hasAttribute el PROCESSED_ATTR = false ->
  findSendButton el = Some sendBtn ->
  buildButtonThrows sendBtn = true ->
  trace (injectButton c w)
  = [(now w, SetAttribute c PROCESSED_ATTR "true");
     (now w, Log (LogInjecting c));
     (now w, FindSendButton ByInjectButton c)] ++ trace w
  /\ timers (injectButton c w) = timers w
  /\ listeners (injectButton c w) = listeners w
  /\ dom (injectButton c w)
     = updateNode c (withAttribute PROCESSED_ATTR "true") (dom w).
Proof.
  intros Hnode Hproc Hsend Hsvg. unfold injectButton.
  rewrite Hnode, Hproc. cbn [emit dom setTrace]. rewrite Hsend, Hsvg.
  repeat split; reflexivity.
Qed.

(** What one run of [tryInjectWithRetry] does, by case. *)
Lemma tryInjectWithRetry_cases (c : NodeId) (r : Z) (w : World) :
  tryInjectWithRetry c r w =
  match getNode (dom w) c with
  | None => w
  | Some el =>
      if hasAttribute el PROCESSED_ATTR then w
      else
        let w0 := emit (FindSendButton ByTryInjectWithRetry c) w in
        match findSendButton el with
        | Some _ => injectButton c w0
        | None => if (0 <? r)%Z then setTimeout (CbTryInjectRetry c r) 300 w0 else w0
        end
  end.
Proof.
  unfold tryInjectWithRetry. destruct (getNode (dom w) c) as [el|]; [|reflexivity].
  destruct (hasAttribute el PROCESSED_ATTR); [reflexivity|].
  destruct (findSendButton el); reflexivity.
Qed.

(** What every run of [tryInjectWithRetry] keeps, the loops of [scanAll]
    keep, wherever they end. *)
Lemma forEachRegion_invariant (P : World -> Prop) :
  (forall w c, P w -> P (tryInjectWithRetry c 6 w)) ->
  forall regions w, P w -> P (fst (forEachRegion regions w)).
Proof.
  intros Hstep regions. induction regions as [|c rest IH]; intros w Hw; [exact Hw|].
  cbn [forEachRegion]. destruct (tryInjectWithRetryThrows c w).
  - apply Hstep, Hw.
  - apply IH, Hstep, Hw.
Qed.

Lemma forEachContainer_invariant (P : World -> Prop) :
  (forall w c, P w -> P (tryInjectWithRetry c 6 w)) ->
  forall dwEls w, P w -> P (forEachContainer dwEls w).
Proof.
  intros Hstep dwEls. induction dwEls as [|dw rest IH]; intros w Hw; [exact Hw|].
  cbn [forEachContainer]. destruct (getLocated (dom w) dw) as [dwEl|]; [|apply IH, Hw].
  pose proof (forEachRegion_invariant P Hstep (map nodeId (findComposeWindows dwEl)) w Hw)
    as Hin.
  destruct (forEachRegion (map nodeId (findComposeWindows dwEl)) w) as [w' threw].
  destruct threw; [exact Hin | apply IH, Hin].
Qed.

(** The runs of [tryInjectWithRetry] that end the chain at once, leaving
    the world as it was. *)
Ltac chain_ends_unchanged docs w Hidle Hnode Hproc :=
  let Htr := fresh "Htr" in
  let Hti := fresh "Hti" in
  destruct (runTimers_idle docs w Hidle) as [Htr Hti];
  exists [], 1%nat; rewrite Htr;
  split; [reflexivity|]; split; [lia|]; split; [constructor|];
  split; [cbn; lia|]; split; [intros ? ? ?; lia|];
  exists (dom w); split; [reflexivity|]; cbv zeta; rewrite Hnode, ?Hproc;
  unfold pendingInject; rewrite Hti; repeat split.

(** The runs that inject, and those on which [buildButton] throws. *)
Ltac chain_ends_with lemma docs w el sendBtn Hidle Hnode Hproc Hsend Hthrows :=
  let Htr0 := fresh "Htr0" in
  let Hti0 := fresh "Hti0" in
  let Htr := fresh "Htr" in
  let Hti := fresh "Hti" in
  match goal with
  | |- context [injectButton ?c ?w0] =>
      pose proof (proj1 (lemma c w0 el sendBtn Hnode Hproc Hsend Hthrows)) as Htr0;
      pose proof (proj1 (proj2 (lemma c w0 el sendBtn Hnode Hproc Hsend Hthrows))) as Hti0;
      change (timers w0) with (timers w) in Hti0;
      rewrite Hidle in Hti0;
      destruct (runTimers_idle docs _ Hti0) as [Htr Hti];
      eexists (_ ++ [_]), 1%nat; rewrite Htr, Htr0;
      split; [rewrite <- app_assoc; reflexivity|];
      split; [lia|]; split; [constructor|]; split; [cbn; lia|];
      split; [intros ? ? ?; lia|];
      exists (dom w); split; [reflexivity|]; cbv zeta;
      rewrite Hnode, Hproc, Hsend, Hthrows;
      unfold pendingInject; rewrite Hti;
      split; [|split; [first [reflexivity | eexists; reflexivity] | reflexivity]];
      unfold sendLookups; cbn; destruct (decide (c = c)); [|contradiction];
      cbn; zeq
  end.

Ltac chain_ends_injecting docs w el sendBtn Hidle Hnode Hproc Hsend :=
  let Hthrows := fresh "Hthrows" in
  destruct (buildButtonThrows sendBtn) eqn:Hthrows;
  [chain_ends_with injectButton_throws docs w el sendBtn Hidle Hnode Hproc Hsend Hthrows
  |chain_ends_with injectButton_injects_timers docs w el sendBtn Hidle Hnode Hproc Hsend
                   Hthrows].

Lemma inject_chain (k : nat) (c : NodeId) (docs : list Element) (w : World) :
  timers w = [] ->
  exists new n,
    trace (runTimers docs (tryInjectWithRetry c (Z.of_nat k) w)) = new ++ trace w
    /\ (1 <= n <= S k)%nat
    /\ Forall (fun d => d = 300%Z) (injectRetryDelays new)
    /\ (length (injectRetryDelays new) <= n)%nat
    /\ (forall i doc, (i < n - 1)%nat -> (dom w :: docs) !! i = Some doc ->
          exists el, getNode doc c = Some el
                     /\ hasAttribute el PROCESSED_ATTR = false
                     /\ findSendButton el = None)
    /\ exists last,
        (dom w :: docs) !! (n - 1)%nat = Some last
        /\ let early := map (fun i => ((now w + 300 * Z.of_nat i)%Z, ByTryInjectWithRetry))
                            (seq 0 (n - 1)) in
           let at_last := (now w + 300 * (Z.of_nat n - 1))%Z in
           let w' := runTimers docs (tryInjectWithRetry c (Z.of_nat k) w) in
           match getNode last c with
           | None =>
               sendLookups c new = early /\ insertions new = [] /\ pendingInject w' = []
           | Some el =>
               if hasAttribute el PROCESSED_ATTR
               then sendLookups c new = early /\ insertions new = []
                    /\ pendingInject w' = []
               else
                 match findSendButton el with
                 | Some sendBtn =>
                     sendLookups c new
                     = early ++ [(at_last, ByTryInjectWithRetry); (at_last, ByInjectButton)]
                     /\ (if buildButtonThrows sendBtn
                         then insertions new = []
                         else exists btn, insertions new = [(nodeId sendBtn, btn)])
                     /\ pendingInject w' = []
                 | None =>
                     sendLookups c new = early ++ [(at_last, ByTryInjectWithRetry)]
                     /\ insertions new = []
                     /\ ((n = S k /\ pendingInject w' = [])
                         \/ ((n <= k)%nat /\ length docs = (n - 1)%nat
                             /\ exists id,
                                 pendingInject w'
                                 = [mkTimer id (now w + 300 * Z.of_nat n)
                                            (CbTryInjectRetry c (Z.of_nat k - Z.of_nat n + 1))]))
                 end
           end.
Proof.
  revert docs w. induction k as [|k IH]; intros docs w Hidle;
    rewrite tryInjectWithRetry_cases;
    (destruct (getNode (dom w) c) as [el|] eqn:Hnode;
     [destruct (hasAttribute el PROCESSED_ATTR) eqn:Hproc;
      [|cbv zeta; destruct (findSendButton el) as [sendBtn|] eqn:Hsend] |]).
  - chain_ends_unchanged docs w Hidle Hnode Hproc.
  - chain_ends_injecting docs w el sendBtn Hidle Hnode Hproc Hsend.
  - (* budget spent: silent stop *)
    change (0 <? Z.of_nat 0)%Z with false. cbv iota.
    match goal with |- context [runTimers docs ?w0] =>
      destruct (runTimers_idle docs w0 Hidle) as [Htr Hti] end.
    eexists [_], 1%nat. rewrite Htr. split; [reflexivity|].
    split; [lia|]. split; [constructor|]. split; [cbn; lia|].
    split; [intros i doc Hi; lia|].
    exists (dom w). split; [reflexivity|]. cbv zeta. rewrite Hnode, Hproc, Hsend.
    unfold pendingInject. rewrite Hti.
    split; [|split; [reflexivity | left; split; reflexivity]].
    unfold sendLookups. cbn. destruct (decide (c = c)); [|contradiction]. cbn. zeq.
  - chain_ends_unchanged docs w Hidle Hnode Hproc.
  - chain_ends_unchanged docs w Hidle Hnode Hproc.
  - chain_ends_injecting docs w el sendBtn Hidle Hnode Hproc Hsend.
  - (* a retry is scheduled *)
    replace (0 <? Z.of_nat (S k))%Z with true by (symmetry; apply Z.ltb_lt; lia).
    cbv iota.
    set (w1 := setTimeout _ _ _).
    set (t := mkTimer (nextId w) (now w + 300) (CbTryInjectRetry c (Z.of_nat (S k)))).
    assert (Ht1 : timers w1 = [t]) by (subst w1 t; cbn; rewrite Hidle; reflexivity).
    assert (Htr1 : trace w1
                   = [(now w, SetTimeout (nextId w) (CbTryInjectRetry c (Z.of_nat (S k))) 300);
                      (now w, FindSendButton ByTryInjectWithRetry c)] ++ trace w)
      by reflexivity.
    assert (Hlk1 : sendLookups c [(now w, SetTimeout (nextId w)
                                           (CbTryInjectRetry c (Z.of_nat (S k))) 300);
                                  (now w, FindSendButton ByTryInjectWithRetry c)]
                   = [(now w, ByTryInjectWithRetry)]).
    { unfold sendLookups. cbn. destruct (decide (c = c)); [reflexivity | contradiction]. }
    destruct docs as [|d docs].
    + rewrite runTimers_nil.
      eexists _, 1%nat. split; [exact Htr1|]. split; [lia|].
      split; [repeat constructor|]. split; [cbn; lia|].
      split; [intros i doc Hi; lia|].
      exists (dom w). split; [reflexivity|]. cbv zeta. rewrite Hnode, Hproc, Hsend.
      rewrite Hlk1. split; [cbn; zeq|]. split; [reflexivity|].
      right. split; [lia|]. split; [reflexivity|]. exists (nextId w).
      unfold pendingInject. rewrite Ht1. subst t. cbn. zeq.
    + rewrite runTimers_cons, (hostThenTimer_single _ _ _ Ht1).
      subst t. cbn [callback runCallback due].
      remember (setNow _ _) as v eqn:Hv.
      assert (Hvt : timers v = []) by (subst v; reflexivity).
      assert (Hvtr : trace v = trace w1) by (subst v; reflexivity).
      assert (Hvd : dom v = d) by (subst v; reflexivity).
      assert (Hvn : now v = (now w + 300)%Z) by (subst v; cbn; lia).
      replace (Z.of_nat (S k) - 1)%Z with (Z.of_nat k) by lia.
      destruct (IH docs v Hvt)
        as (new & n & Htr & Hn & Hr & Hrl & Hbefore & last & Hlast & Hend).
      exists (new ++ [(now w, SetTimeout (nextId w) (CbTryInjectRetry c (Z.of_nat (S k))) 300);
                      (now w, FindSendButton ByTryInjectWithRetry c)]), (S n).
      rewrite Htr, Hvtr, Htr1. split; [rewrite <- app_assoc; reflexivity|].
      split; [lia|].
      rewrite injectRetryDelays_app, insertions_app, sendLookups_app, Hlk1.
      split; [cbn; constructor; [reflexivity | exact Hr]|].
      split; [cbn; lia|].
      split.
      { intros [|i] doc Hi Hdoc.
        - cbn in Hdoc. injection Hdoc as <-. exists el. repeat split; assumption.
        - cbn in Hdoc. rewrite Hvd in Hbefore. apply (Hbefore i doc); [lia | exact Hdoc]. }
      exists last. split.
      { replace (S n - 1)%nat with (S (n - 1)) by lia. cbn.
        rewrite Hvd in Hlast. exact Hlast. }
      cbv zeta in Hend |- *.
      assert (Hearly :
                map (fun i => ((now w + 300 * Z.of_nat i)%Z, ByTryInjectWithRetry))
                    (seq 0 (S n - 1))
                = (now w, ByTryInjectWithRetry)
                    :: map (fun i => ((now v + 300 * Z.of_nat i)%Z, ByTryInjectWithRetry))
                           (seq 0 (n - 1))).
      { replace (S n - 1)%nat with (S (n - 1)) by lia.
        cbn [seq map]. rewrite <- seq_shift, map_map.
        f_equal; [zeq|]. apply map_ext. intros i. rewrite Hvn. zeq. }
      assert (Hat : (now v + 300 * (Z.of_nat n - 1) = now w + 300 * (Z.of_nat (S n) - 1))%Z)
        by (rewrite Hvn; lia).
      rewrite Hearly, <- Hat.
      destruct (getNode last c) as [el'|].
      * destruct (hasAttribute el' PROCESSED_ATTR).
        -- destruct Hend as (Hl & Hi & Hp). rewrite Hl, Hi. repeat split; assumption.
        -- destruct (findSendButton el') as [s'|].
           ++ destruct Hend as (Hl & Hi & Hp). rewrite Hl.
              split; [reflexivity|]. split; [|exact Hp].
              destruct (buildButtonThrows s'); [rewrite Hi; reflexivity|].
              destruct Hi as (btn & Hi). exists btn. rewrite Hi. reflexivity.
           ++ destruct Hend as (Hl & Hi & Hend). rewrite Hl, Hi.
              split; [reflexivity|]. split; [reflexivity|].
              destruct Hend as [(Hn1 & Hp) | (Hn1 & Hlen & id & Hp)].
              ** left. split; [lia | exact Hp].
              ** right. split; [lia|]. split; [cbn; lia|].
                 exists id. rewrite Hp, Hvn. zeq.
      * destruct Hend as (Hl & Hi & Hp). rewrite Hl, Hi. repeat split; assumption.
  - chain_ends_unchanged docs w Hidle Hnode Hproc.
Qed.

(** C10 (as the code has it).  One chain of [tryInjectWithRetry] started with
    the default budget makes [n] runs of the wrapper, 1 <= n <= 7: the first
    one and at most 6 retries, each retry scheduled with a delay of 300 ms,
    run [i+1] at virtual time [now + 300 i].  Every run before the last looks
    the send button up once and finds none.  The last run either finds the
    region gone from the document or already processed (no lookup, nothing
    changes), or finds the send button and calls [injectButton] (its own
    lookup and a second one inside [injectButton]), which inserts one
    control or, when [buildButton] throws, ends with the marker set and
    nothing inserted, or finds no send button and stops with the budget
    spent, or waits for its next retry when the inputs end there.
    So the chain evaluates [findSendButton] at most [n + 1 <= 8] times, and
    after 6 timer firings no timer of the chain is left. *)
Theorem tryInjectWithRetry_default_budget
        (c : NodeId) (docs : list Element) (w : World) :
  timers w = [] ->
  let w' := runTimers docs (tryInjectWithRetry c 6 w) in
  exists new n,
    trace w' = new ++ trace w
    /\ (1 <= n <= 7)%nat
    /\ Forall (fun d => d = 300%Z) (injectRetryDelays new)
    /\ (length (sendLookups c new) <= n + 1)%nat
    /\ ((6 <= length docs)%nat -> pendingInject w' = [])
    /\ (forall i doc, (i < n - 1)%nat -> (dom w :: docs) !! i = Some doc ->
          exists el, getNode doc c = Some el
                     /\ hasAttribute el PROCESSED_ATTR = false
                     /\ findSendButton el = None)
    /\ exists last,
        (dom w :: docs) !! (n - 1)%nat = Some last
        /\ let early := map (fun i => ((now w + 300 * Z.of_nat i)%Z, ByTryInjectWithRetry))
                            (seq 0 (n - 1)) in
           let at_last := (now w + 300 * (Z.of_nat n - 1))%Z in
           match getNode last c with
           | None =>
               sendLookups c new = early /\ insertions new = [] /\ pendingInject w' = []
           | Some el =>
               if hasAttribute el PROCESSED_ATTR
               then sendLookups c new = early /\ insertions new = []
                    /\ pendingInject w' = []
               else
                 match findSendButton el with
                 | Some sendBtn =>
                     sendLookups c new
                     = early ++ [(at_last, ByTryInjectWithRetry); (at_last, ByInjectButton)]
                     /\ (if buildButtonThrows sendBtn
                         then insertions new = []
                         else exists btn, insertions new = [(nodeId sendBtn, btn)])
                     /\ pendingInject w' = []
                 | None =>
                     sendLookups c new = early ++ [(at_last, ByTryInjectWithRetry)]
                     /\ insertions new = []
                     /\ ((n = 7%nat /\ pendingInject w' = [])
                         \/ ((n <= 6)%nat /\ length docs = (n - 1)%nat
                             /\ exists id,
                                 pendingInject w'
                                 = [mkTimer id (now w + 300 * Z.of_nat n)
                                            (CbTryInjectRetry c (7 - Z.of_nat n))]))
                 end
           end.
Proof.
  intros Hidle w'. subst w'.
  change 6%Z with (Z.of_nat 6).
  destruct (inject_chain 6 c docs w Hidle)
    as (new & n & Htr & Hn & Hr & Hrl & Hbefore & last & Hlast & Hend).
  cbv zeta in Hend.
  exists new, n. split; [exact Htr|]. split; [exact Hn|]. split; [exact Hr|].
  assert (Hearly : length (map (fun i => ((now w + 300 * Z.of_nat i)%Z, ByTryInjectWithRetry))
                               (seq 0 (n - 1))) = (n - 1)%nat)
    by (rewrite length_map, length_seq; reflexivity).
  split; [|split]; [| |split; [exact Hbefore|]; exists last; split; [exact Hlast|]].
  - destruct (getNode last c) as [el|];
      [destruct (hasAttribute el PROCESSED_ATTR);
       [|destruct (findSendButton el)]|];
      destruct Hend as (Hl & _); rewrite Hl, ?length_app, Hearly; cbn; lia.
  - intros Hlen.
    destruct (getNode last c) as [el|];
      [destruct (hasAttribute el PROCESSED_ATTR);
       [|destruct (findSendButton el)]|];
      try (destruct Hend as (_ & _ & Hp); exact Hp).
    destruct Hend as (_ & _ & [(_ & Hp) | (Hn6 & Hlen' & _)]); [exact Hp | lia].
  - cbv zeta.
    destruct (getNode last c) as [el|]; [|exact Hend].
    destruct (hasAttribute el PROCESSED_ATTR); [exact Hend|].
    destruct (findSendButton el) as [sendBtn|]; [exact Hend|].
    destruct Hend as (Hl & Hi & [(Hn7 & Hp) | (Hn6 & Hlen & id & Hp)]).
    + split; [exact Hl|]. split; [exact Hi|]. left. split; assumption.
    + split; [exact Hl|]. split; [exact Hi|]. right.
      split; [exact Hn6|]. split; [exact Hlen|]. exists id. rewrite Hp. zeq.
Qed.

Lemma tryInjectWithRetry_default_budget_witness :
  pendingInject
    (runTimers (replicate 6 (Sample.page [Sample.emptyCompose]))
       (tryInjectWithRetry 11 6 (initialWorld (Sample.page [Sample.emptyCompose]) true)))
  = [].
Proof.
  destruct (tryInjectWithRetry_default_budget 11
              (replicate 6 (Sample.page [Sample.emptyCompose]))
              (initialWorld (Sample.page [Sample.emptyCompose]) true) eq_refl)
    as (new & n & _ & _ & _ & _ & Hdone & _).
  apply Hdone. cbn. lia.
Defined.

(** C10, the claim as stated fails: when the send button shows up at the
    7th run, that run looks it up and [injectButton] looks it up again, which
    makes 8 lookups in the chain. *)
Lemma tryInjectWithRetry_eighth_lookup :
  let w := runTimers (replicate 5 (Sample.page [Sample.emptyCompose])
                        ++ [Sample.page [Sample.plainCompose]])
             (tryInjectWithRetry 11 6
                (initialWorld (Sample.page [Sample.emptyCompose]) true)) in
  length (sendLookups 11 (trace w)) = 8%nat
  /\ map snd (sendLookups 11 (trace w))
     = replicate 7 ByTryInjectWithRetry ++ [ByInjectButton]
  /\ insertions (trace w) = [(12, 6)].
Proof. vm_compute. repeat split; reflexivity. Qed.

(** ** The removal watcher *)

Section FoldFrame.
Context {A B : Type} (f : A -> B -> A) (R : A -> A -> Prop).
Hypothesis R_refl : forall a, R a a.
Hypothesis R_trans : forall a b c, R a b -> R b c -> R a c.
Hypothesis R_step : forall a b, R a (f a b).

Lemma fold_left_frame (l : list B) (a : A) : R a (fold_left f l a).
Proof.
  revert a. induction l as [|b l IH]; intros a; cbn; [apply R_refl|].
  eapply R_trans; [apply R_step | apply IH].
Qed.
End FoldFrame.

Lemma injectButton_observers (c : NodeId) (w : World) :
  observers (injectButton c w) = observers w.
Proof.
  unfold injectButton. destruct (getNode (dom w) c) as [el|]; [|reflexivity].
  destruct (hasAttribute el PROCESSED_ATTR); [reflexivity|].
  cbn [emit dom setTrace].
  destruct (findSendButton el) as [s|]; [destruct (buildButtonThrows s)|]; reflexivity.
Qed.

Lemma tryInjectWithRetry_observers (c : NodeId) (r : Z) (w : World) :
  observers (tryInjectWithRetry c r w) = observers w.
Proof.
  rewrite tryInjectWithRetry_cases.
  destruct (getNode (dom w) c) as [el|]; [|reflexivity].
  destruct (hasAttribute el PROCESSED_ATTR); [reflexivity|]. cbv zeta.
  destruct (findSendButton el); [rewrite injectButton_observers; reflexivity|].
  destruct (0 <? r)%Z; reflexivity.
Qed.

Lemma scanAll_observers (w : World) : observers (scanAll w) = observers w.
Proof.
  unfold scanAll.
  apply (forEachContainer_invariant (fun x => observers x = observers w)); [|reflexivity].
  intros x c Hx. rewrite tryInjectWithRetry_observers. exact Hx.
Qed.

Lemma archiveCurrentConversation_observers (r : Z) (w : World) :
  observers (archiveCurrentConversation r w) = observers w.
Proof.
  rewrite archiveCurrentConversation_cases. cbv zeta.
  destruct (findArchiveButton (dom w)); [reflexivity|].
  destruct (0 <? r)%Z; [reflexivity|].
  unfold showToast. cbn. destruct (toast w); reflexivity.
Qed.

(** No timer or idle closure touches the removal observers. *)
Lemma runCallback_observers (cb : Callback) (w : World) :
  observers (runCallback cb w) = observers w.
Proof.
  destruct cb; cbn [runCallback].
  - apply scanAll_observers.
  - apply archiveCurrentConversation_observers.
  - apply archiveCurrentConversation_observers.
  - reflexivity.
  - apply tryInjectWithRetry_observers.
  - reflexivity.
  - cbn. destruct (toast w) as [x|]; [destruct (decide (toastId x = toast0))|]; reflexivity.
  - destruct (toast w) as [x|]; [destruct (decide (toastId x = toast0))|]; reflexivity.
  - reflexivity.
  - unfold scheduleScan. cbn. destruct (scanTimer w); reflexivity.
Qed.

Lemma setDom_same (w : World) : setDom (dom w) w = w.
Proof. destruct w; reflexivity. Qed.

Lemma last_cons_default (d a b : Element) (docs : list Element) :
  List.last (d :: docs) a = List.last (d :: docs) b.
Proof.
  revert d. induction docs as [|e docs IH]; intros d; [reflexivity|].
  change (List.last (e :: docs) a = List.last (e :: docs) b). apply IH.
Qed.

Lemma setDom_last (d : Element) (docs : list Element) (w : World) :
  setDom (List.last docs (dom (setDom d w))) (setDom d w)
  = setDom (List.last (d :: docs) (dom w)) w.
Proof.
  destruct docs as [|e docs]; [reflexivity|].
  change (List.last (d :: e :: docs) (dom w)) with (List.last (e :: docs) (dom w)).
  rewrite (last_cons_default e (dom (setDom d w)) (dom w)). reflexivity.
Qed.

Lemma deliverRecords_cons (o : nat) (d : Element) (docs : list Element) (w : World) :
  deliverRecords o (d :: docs) w = deliverRecords o docs (hostThenRecords o w d).
Proof. reflexivity. Qed.

Lemma deliverRecords_app (o : nat) (pre post : list Element) (w : World) :
  deliverRecords o (pre ++ post) w = deliverRecords o post (deliverRecords o pre w).
Proof. apply fold_left_app. Qed.

(** Records for an observer that is not connected run nothing. *)
Lemma deliverRecords_disconnected (o : nat) (docs : list Element) (w : World) :
  head (filter (fun x => observerId x = o) (observers w)) = None ->
  deliverRecords o docs w = setDom (List.last docs (dom w)) w.
Proof.
  revert w. induction docs as [|d docs IH]; intros w Hnone.
  - symmetry. apply setDom_same.
  - rewrite deliverRecords_cons. unfold hostThenRecords, step.
    cbn [observers setDom]. rewrite Hnone.
    rewrite IH by exact Hnone. apply setDom_last.
Qed.

(** While the region stays in the document the observer's callback does
    nothing. *)
Lemma deliverRecords_still_there (ob : Observer) (docs : list Element) (w : World) :
  head (filter (fun x => observerId x = observerId ob) (observers w)) = Some ob ->
  Forall (fun d => containsId d (watched ob) = true) docs ->
  deliverRecords (observerId ob) docs w = setDom (List.last docs (dom w)) w.
Proof.
  revert w. induction docs as [|d docs IH]; intros w Hob Hall.
  - symmetry. apply setDom_same.
  - inversion Hall as [|? ? Hd Hrest]; subst.
    rewrite deliverRecords_cons. unfold hostThenRecords, step.
    cbn [observers setDom]. rewrite Hob.
    unfold removalObserverCallback. change (dom (setDom d w)) with d.
    rewrite Hd. cbn [negb].
    rewrite IH by assumption. apply setDom_last.
Qed.

Lemma head_filter_removed (o : nat) (os : list Observer) :
  head (filter (fun x => observerId x = o)
               (filter (fun x => observerId x <> o) os)) = None.
Proof.
  induction os as [|x os IH]; [reflexivity|].
  rewrite (filter_cons (fun x => observerId x <> o)).
  destruct (decide (observerId x <> o)) as [Hne|_]; [|exact IH].
  rewrite filter_cons. destruct (decide (observerId x = o)); [contradiction | exact IH].
Qed.

Lemma head_filter_fresh (ob : Observer) (os : list Observer) :
  Forall (fun x => observerId x <> observerId ob) os ->
  head (filter (fun x => observerId x = observerId ob) (os ++ [ob])) = Some ob.
Proof.
  induction os as [|x os IH]; intros Hfresh.
  - cbn. rewrite decide_True by reflexivity. reflexivity.
  - inversion Hfresh as [|? ? Hx Hrest]; subst.
    cbn [app]. rewrite filter_cons.
    destruct (decide (observerId x = observerId ob)); [contradiction|].
    apply IH. exact Hrest.
Qed.

(** C6.  For a region registered with [watchComposeForRemoval]: as long as
    every mutation notification finds the region in the document, nothing
    runs; at the first notification that finds it gone, the observer logs,
    disconnects itself and then invokes the callback; every later
    notification runs nothing, so the callback is invoked once and never
    while the region is in the document. *)
Theorem watchComposeForRemoval_fires_once
        (composeEl : NodeId) (whenRemoved : Callback) (w : World) :
  Forall (fun x => observerId x <> nextId w) (observers w) ->
  let o := nextId w in
  let w1 := watchComposeForRemoval composeEl whenRemoved w in
  (forall docs,
      Forall (fun d => containsId d composeEl = true) docs ->
      deliverRecords o docs w1 = setDom (List.last docs (dom w)) w1)
  /\ (forall pre d post,
         Forall (fun d => containsId d composeEl = true) pre ->
         containsId d composeEl = false ->
         let fired := runCallback whenRemoved
                        (disconnect o (LOG LogComposeRemoved (setDom d w1))) in
         deliverRecords o (pre ++ d :: post) w1
         = setDom (List.last post (dom fired)) fired).
Proof.
  intros Hfresh o w1. subst o.
  set (ob := mkObserver (nextId w) composeEl whenRemoved).
  assert (Hob : head (filter (fun x => observerId x = observerId ob) (observers w1)) = Some ob).
  { subst w1. cbn [watchComposeForRemoval LOG emit observers setTrace setNextId setObservers nextId].
    apply head_filter_fresh. exact Hfresh. }
  split.
  - intros docs Hall.
    apply (deliverRecords_still_there ob docs w1 Hob Hall).
  - intros pre d post Hpre Hd fired. subst fired.
    change (deliverRecords (nextId w)) with (deliverRecords (observerId ob)).
    rewrite deliverRecords_app, (deliverRecords_still_there ob pre w1 Hob Hpre).
    rewrite deliverRecords_cons. unfold hostThenRecords at 1. unfold step.
    cbn [observers setDom]. rewrite Hob. unfold removalObserverCallback.
    match goal with |- context [containsId (dom (setDom d ?x)) _] =>
      change (dom (setDom d x)) with d end.
    change (watched ob) with composeEl. rewrite Hd. cbn [negb].
    change (onRemoved ob) with whenRemoved. change (observerId ob) with (nextId w).
    apply deliverRecords_disconnected.
    rewrite runCallback_observers. cbn [disconnect emit observers setTrace setObservers].
    apply head_filter_removed.
Qed.

Lemma watchComposeForRemoval_fires_once_witness :
  let w := initialWorld (Sample.page [Sample.plainCompose]) true in
  let w1 := watchComposeForRemoval 11 CbComposeClosed w in
  length (timers (deliverRecords (nextId w)
                    ([Sample.page [Sample.plainCompose]]
                       ++ Sample.page [] :: [Sample.page []])
                    w1)) = 1%nat.
Proof.
  destruct (watchComposeForRemoval_fires_once 11 CbComposeClosed
              (initialWorld (Sample.page [Sample.plainCompose]) true)
              (List.Forall_nil _)) as [_ Hfire].
  cbv zeta in Hfire |- *.
  rewrite (Hfire [Sample.page [Sample.plainCompose]] (Sample.page []) [Sample.page []]).
  - reflexivity.
  - repeat constructor.
  - reflexivity.
Defined.

(** ** The debounced scan *)

Lemma isScan_Some (t s : Timer) : isScan t = Some s -> s = t /\ callback t = CbScanAll.
Proof.
  unfold isScan. destruct (callback t); try discriminate.
  intros [= <-]. split; reflexivity.
Qed.

Lemma isScan_None (t : Timer) : callback t <> CbScanAll -> isScan t = None.
Proof. unfold isScan. destruct (callback t); congruence. Qed.

Lemma omap_cons_eq {A B} (f : A -> option B) (x : A) (l : list A) :
  omap f (x :: l) = match f x with
                    | Some y => y :: omap f l
                    | None => omap f l
                    end.
Proof. reflexivity. Qed.

Lemma scans_filter (P : Timer -> Prop) `{forall t, Decision (P t)} (ts : list Timer) :
  omap isScan (filter P ts) = filter P (omap isScan ts).
Proof.
  induction ts as [|t ts IH]; [reflexivity|].
  rewrite filter_cons, (omap_cons_eq isScan t ts).
  destruct (isScan t) as [s|] eqn:Hs.
  - apply isScan_Some in Hs as Hs'. destruct Hs' as [-> _].
    rewrite filter_cons.
    destruct (decide (P t)); rewrite ?omap_cons_eq, ?Hs, IH; reflexivity.
  - destruct (decide (P t)); rewrite ?omap_cons_eq, ?Hs; exact IH.
Qed.

Lemma scans_elem (ts : list Timer) (t : Timer) :
  t ∈ omap isScan ts <-> t ∈ ts /\ callback t = CbScanAll.
Proof.
  rewrite list_elem_of_omap. split.
  - intros (x & Hx & Hs). apply isScan_Some in Hs as [-> Hc]. split; assumption.
  - intros [Ht Hc]. exists t. split; [exact Ht|]. unfold isScan. rewrite Hc. reflexivity.
Qed.

Lemma filter_all {A} (P : A -> Prop) `{forall x, Decision (P x)} (l : list A) :
  Forall P l -> filter P l = l.
Proof.
  induction 1 as [|x l Hx Hl IH]; [reflexivity|].
  rewrite filter_cons, decide_True by exact Hx. rewrite IH. reflexivity.
Qed.

Lemma filter_none {A} (P : A -> Prop) `{forall x, Decision (P x)} (l : list A) :
  Forall (fun x => ~ P x) l -> filter P l = [].
Proof.
  induction 1 as [|x l Hx Hl IH]; [reflexivity|].
  rewrite filter_cons, decide_False by exact Hx. exact IH.
Qed.

Lemma NoDup_same_id (ts : list Timer) (a b : Timer) :
  NoDup (timerId <$> ts) -> a ∈ ts -> b ∈ ts -> timerId a = timerId b -> a = b.
Proof.
  induction ts as [|t ts IH]; intros Hnd Ha Hb Hid; [inversion Ha|].
  cbn in Hnd. apply NoDup_cons in Hnd as [Hnotin Hnd].
  apply elem_of_cons in Ha as [-> | Ha]; apply elem_of_cons in Hb as [-> | Hb].
  - reflexivity.
  - exfalso. apply Hnotin. rewrite Hid. apply (list_elem_of_fmap_2 timerId). exact Hb.
  - exfalso. apply Hnotin. rewrite <- Hid. apply (list_elem_of_fmap_2 timerId). exact Ha.
  - apply IH; assumption.
Qed.

Lemma earliest_elem (ts : list Timer) (t : Timer) : earliest ts = Some t -> t ∈ ts.
Proof.
  revert t. induction ts as [|x ts IH]; intros t; cbn; [discriminate|].
  destruct (earliest ts) as [t'|].
  - destruct (due t' <? due x)%Z; intros [= <-]; [right; apply IH; reflexivity | left].
  - intros [= <-]. left.
Qed.

(** Removing a fired timer that is not a scan leaves the pending scans. *)
Lemma scans_remove_other (ts : list Timer) (t : Timer) :
  NoDup (timerId <$> ts) -> t ∈ ts -> callback t <> CbScanAll ->
  omap isScan (filter (fun x => timerId x <> timerId t) ts) = omap isScan ts.
Proof.
  intros Hnd Ht Hcb. rewrite scans_filter. apply filter_all.
  apply Forall_forall. intros s Hs Hid.
  apply scans_elem in Hs as [Hs Hc].
  rewrite (NoDup_same_id ts s t Hnd Hs Ht Hid) in Hc. contradiction.
Qed.

(** Removing the fired scan timer leaves no pending scan. *)
Lemma scans_remove_scan (ts : list Timer) (t : Timer) (id : nat) :
  timerId <$> omap isScan ts = [id] -> t ∈ ts -> callback t = CbScanAll ->
  omap isScan (filter (fun x => timerId x <> timerId t) ts) = [] /\ timerId t = id.
Proof.
  intros Hone Ht Hcb. rewrite scans_filter.
  assert (Hin : t ∈ omap isScan ts) by (apply scans_elem; split; assumption).
  destruct (omap isScan ts) as [|s [|s' rest]]; try discriminate.
  apply list_elem_of_singleton in Hin as ->. injection Hone as <-.
  split; [|reflexivity].
  rewrite filter_cons, decide_False by (intros Hne; apply Hne; reflexivity).
  reflexivity.
Qed.

(** [scanInvariant] reads five fields of the world; a function that
    leaves them alone, or only draws fresh handles, keeps it. *)
Lemma scanInvariant_weaken (w w' : World) :
  timers w' = timers w -> (nextId w <= nextId w')%nat ->
  scanTimer w' = scanTimer w -> observers w' = observers w ->
  idleQueue w' = idleQueue w ->
  scanInvariant w -> scanInvariant w'.
Proof.
  intros Ht Hn Hs Ho Hq (Hnd & Hlt & Hscan & Hobs & Hidle).
  unfold scanInvariant, pendingScans. rewrite Ht, Hs, Ho, Hq.
  repeat split; try assumption.
  eapply Forall_impl; [exact Hlt|]. cbn. intros t Hlt'. lia.
Qed.

Lemma scanInvariant_setTimeout (cb : Callback) (d : Z) (w : World) :
  cb <> CbScanAll -> scanInvariant w -> scanInvariant (setTimeout cb d w).
Proof.
  intros Hcb (Hnd & Hlt & Hscan & Hobs & Hidle).
  unfold scanInvariant, pendingScans.
  change (timers (setTimeout cb d w))
    with (timers w ++ [mkTimer (nextId w) (now w + Z.max 0 d) cb]).
  change (nextId (setTimeout cb d w)) with (S (nextId w)).
  change (scanTimer (setTimeout cb d w)) with (scanTimer w).
  change (observers (setTimeout cb d w)) with (observers w).
  change (idleQueue (setTimeout cb d w)) with (idleQueue w).
  repeat split; try assumption.
  - rewrite fmap_app. apply NoDup_app. split; [exact Hnd|]. split.
    + intros id Hin Hnew. apply list_elem_of_singleton in Hnew. subst id.
      apply list_elem_of_fmap in Hin as (t & Hid & Ht).
      rewrite Forall_forall in Hlt. specialize (Hlt t Ht). cbn in Hid. lia.
    + apply NoDup_singleton.
  - apply Forall_app. split.
    + eapply Forall_impl; [exact Hlt|]. cbn. intros t Hlt'. lia.
    + constructor; [cbn; lia | constructor].
  - rewrite omap_app, omap_cons_eq.
    rewrite (isScan_None (mkTimer (nextId w) (now w + Z.max 0 d) cb) Hcb).
    cbn [omap list_omap]. rewrite app_nil_r. exact Hscan.
Qed.

Lemma scanInvariant_watch (c : NodeId) (cb : Callback) (w : World) :
  cb <> CbScanAll -> scanInvariant w -> scanInvariant (watchComposeForRemoval c cb w).
Proof.
  intros Hcb (Hnd & Hlt & Hscan & Hobs & Hidle).
  unfold scanInvariant, pendingScans.
  change (timers (watchComposeForRemoval c cb w)) with (timers w).
  change (nextId (watchComposeForRemoval c cb w)) with (S (nextId w)).
  change (scanTimer (watchComposeForRemoval c cb w)) with (scanTimer w).
  change (observers (watchComposeForRemoval c cb w))
    with (observers w ++ [mkObserver (nextId w) c cb]).
  change (idleQueue (watchComposeForRemoval c cb w)) with (idleQueue w).
  repeat split; try assumption.
  - eapply Forall_impl; [exact Hlt|]. cbn. intros t Hlt'. lia.
  - apply Forall_app. split; [exact Hobs|]. constructor; [exact Hcb | constructor].
Qed.

Lemma scanInvariant_disconnect (o : nat) (w : World) :
  scanInvariant w -> scanInvariant (disconnect o w).
Proof.
  intros (Hnd & Hlt & Hscan & Hobs & Hidle).
  unfold scanInvariant, pendingScans.
  change (observers (disconnect o w))
    with (filter (fun x => observerId x <> o) (observers w)).
  repeat split; try assumption.
  apply Forall_forall. intros x Hx. apply list_elem_of_filter in Hx as [_ Hx].
  rewrite Forall_forall in Hobs. apply Hobs. exact Hx.
Qed.

Lemma scanInvariant_clearTimeout (id : nat) (w : World) :
  scanTimer w = Some id -> scanInvariant w ->
  scanInvariant (setScanTimer None (clearTimeout id w)).
Proof.
  intros Hid (Hnd & Hlt & Hscan & Hobs & Hidle).
  unfold scanInvariant, pendingScans.
  change (timers (setScanTimer None (clearTimeout id w)))
    with (filter (fun t => timerId t <> id) (timers w)).
  change (scanTimer (setScanTimer None (clearTimeout id w))) with (@None nat).
  repeat split; try assumption.
  - apply NoDup_fmap_2_strong.
    + intros a b Ha Hb Hab.
      apply list_elem_of_filter in Ha as [_ Ha]. apply list_elem_of_filter in Hb as [_ Hb].
      apply (NoDup_same_id (timers w)); assumption.
    + apply NoDup_filter. eapply NoDup_fmap_1. exact Hnd.
  - apply Forall_forall. intros t Ht. apply list_elem_of_filter in Ht as [_ Ht].
    rewrite Forall_forall in Hlt. apply Hlt. exact Ht.
  - rewrite scans_filter. unfold pendingScans in Hscan. rewrite Hid in Hscan.
    destruct (omap isScan (timers w)) as [|s [|s' rest]]; try discriminate.
    injection Hscan as Hs. rewrite filter_cons, decide_False by (intros Hne; apply Hne; exact Hs).
    reflexivity.
Qed.

Lemma scanInvariant_scheduleScan (delay : Z) (w : World) :
  scanInvariant w -> scanInvariant (scheduleScan delay w).
Proof.
  intros Hinv. unfold scheduleScan.
  assert (Hclean : exists w1, scanInvariant (setScanTimer None w1)
                              /\ (match scanTimer w with
                                  | Some t => clearTimeout t w
                                  | None => w
                                  end) = w1).
  { eexists. split; [|reflexivity]. destruct (scanTimer w) as [t|] eqn:Ht.
    - apply scanInvariant_clearTimeout; assumption.
    - destruct Hinv as (Hnd & Hlt & Hscan & Hobs & Hidle).
      unfold scanInvariant, pendingScans in *. rewrite Ht in Hscan.
      repeat split; assumption. }
  destruct Hclean as (w1 & (Hnd & Hlt & Hscan & Hobs & Hidle) & ->).
  unfold scanInvariant, pendingScans in *.
  change (timers (setScanTimer None w1)) with (timers w1) in *.
  change (nextId (setScanTimer None w1)) with (nextId w1) in *.
  change (observers (setScanTimer None w1)) with (observers w1) in *.
  change (idleQueue (setScanTimer None w1)) with (idleQueue w1) in *.
  change (scanTimer (setScanTimer None w1)) with (@None nat) in Hscan.
  change (timers (setScanTimer (Some (nextId w1)) (setTimeout CbScanAll delay w1)))
    with (timers w1 ++ [mkTimer (nextId w1) (now w1 + Z.max 0 delay) CbScanAll]).
  change (nextId (setScanTimer (Some (nextId w1)) (setTimeout CbScanAll delay w1)))
    with (S (nextId w1)).
  change (scanTimer (setScanTimer (Some (nextId w1)) (setTimeout CbScanAll delay w1)))
    with (Some (nextId w1)).
  change (observers (setScanTimer (Some (nextId w1)) (setTimeout CbScanAll delay w1)))
    with (observers w1).
  change (idleQueue (setScanTimer (Some (nextId w1)) (setTimeout CbScanAll delay w1)))
    with (idleQueue w1).
  repeat split; try assumption.
  - rewrite fmap_app. apply NoDup_app. split; [exact Hnd|]. split.
    + intros id Hin Hnew. apply list_elem_of_singleton in Hnew. subst id.
      apply list_elem_of_fmap in Hin as (t & Hid & Ht).
      rewrite Forall_forall in Hlt. specialize (Hlt t Ht). cbn in Hid. lia.
    + apply NoDup_singleton.
  - apply Forall_app. split.
    + eapply Forall_impl; [exact Hlt|]. cbn. intros t Hlt'. lia.
    + constructor; [cbn; lia | constructor].
  - rewrite omap_app, fmap_app, Hscan. reflexivity.
Qed.

(** When only fresh handles were drawn. *)
Ltac inv_unchanged Hinv :=
  match type of Hinv with
  | scanInvariant ?w0 =>
      apply (scanInvariant_weaken w0);
      [reflexivity | cbn; lia | reflexivity | reflexivity | reflexivity | exact Hinv]
  end.

Lemma scanInvariant_showToast (msg : string) (w : World) :
  scanInvariant w -> scanInvariant (showToast msg w).
Proof.
  intros Hinv. unfold showToast.
  apply scanInvariant_setTimeout; [discriminate|].
  destruct (toast w); inv_unchanged Hinv.
Qed.

Lemma scanInvariant_archive (r : Z) (w : World) :
  scanInvariant w -> scanInvariant (archiveCurrentConversation r w).
Proof.
  intros Hinv. rewrite archiveCurrentConversation_cases. cbv zeta.
  destruct (findArchiveButton (dom w)); [inv_unchanged Hinv|].
  destruct (0 <? r)%Z.
  - apply scanInvariant_setTimeout; [discriminate | inv_unchanged Hinv].
  - apply scanInvariant_showToast. inv_unchanged Hinv.
Qed.

Lemma scanInvariant_injectButton (c : NodeId) (w : World) :
  scanInvariant w -> scanInvariant (injectButton c w).
Proof.
  intros Hinv. unfold injectButton.
  destruct (getNode (dom w) c) as [el|]; [|exact Hinv].
  destruct (hasAttribute el PROCESSED_ATTR); [exact Hinv|].
  cbn [emit dom setTrace].
  destruct (findSendButton el) as [s|]; [destruct (buildButtonThrows s)|];
    inv_unchanged Hinv.
Qed.

Lemma scanInvariant_tryInject (c : NodeId) (r : Z) (w : World) :
  scanInvariant w -> scanInvariant (tryInjectWithRetry c r w).
Proof.
  intros Hinv. rewrite tryInjectWithRetry_cases.
  destruct (getNode (dom w) c) as [el|]; [|exact Hinv].
  destruct (hasAttribute el PROCESSED_ATTR); [exact Hinv|]. cbv zeta.
  destruct (findSendButton el).
  - apply scanInvariant_injectButton. inv_unchanged Hinv.
  - destruct (0 <? r)%Z.
    + apply scanInvariant_setTimeout; [discriminate | inv_unchanged Hinv].
    + inv_unchanged Hinv.
Qed.

Lemma fold_left_invariant {B : Type} (f : World -> B -> World) (P : World -> Prop) :
  (forall w b, P w -> P (f w b)) ->
  forall l w, P w -> P (fold_left f l w).
Proof.
  intros Hstep l. induction l as [|b l IH]; intros w Hw; [exact Hw|].
  cbn [fold_left]. apply IH, Hstep, Hw.
Qed.

(** [scanAll] clears [scanTimer]; it keeps the invariant when no scan
    timer is pending, as is the case when its own timer has just fired. *)
Lemma scanInvariant_scanAll (w : World) :
  scanInvariant (setScanTimer None w) -> scanInvariant (scanAll w).
Proof.
  intros Hinv. unfold scanAll.
  apply forEachContainer_invariant; [|inv_unchanged Hinv].
  intros x c0 Hx. apply scanInvariant_tryInject. exact Hx.
Qed.

Lemma scanInvariant_trigger (composeEl : Element) (sendBtn : NodeId) (w : World) :
  scanInvariant w -> scanInvariant (triggerSendAndArchive composeEl sendBtn w).
Proof.
  intros Hinv. unfold triggerSendAndArchive.
  destruct (findNativeSendAndArchiveButton composeEl); [inv_unchanged Hinv|].
  apply scanInvariant_setTimeout; [discriminate|].
  match goal with |- scanInvariant (LOG ?m ?x) =>
    apply (scanInvariant_weaken x);
    [reflexivity | cbn; lia | reflexivity | reflexivity | reflexivity |]
  end.
  apply scanInvariant_watch; [discriminate|]. inv_unchanged Hinv.
Qed.

Lemma scanInvariant_runCallback (cb : Callback) (w : World) :
  cb <> CbScanAll -> scanInvariant w -> scanInvariant (runCallback cb w).
Proof.
  intros Hcb Hinv. destruct cb; cbn [runCallback]; try contradiction.
  - apply scanInvariant_archive. exact Hinv.
  - apply scanInvariant_archive. exact Hinv.
  - inv_unchanged Hinv.
  - apply scanInvariant_tryInject. exact Hinv.
  - apply scanInvariant_setTimeout; [discriminate | inv_unchanged Hinv].
  - apply scanInvariant_setTimeout; [discriminate|].
    destruct (toast w) as [x|]; [destruct (decide (toastId x = toast0))|];
      inv_unchanged Hinv.
  - destruct (toast w) as [x|]; [destruct (decide (toastId x = toast0))|];
      inv_unchanged Hinv.
  - inv_unchanged Hinv.
  - apply scanInvariant_scheduleScan. inv_unchanged Hinv.
Qed.

Lemma scanInvariant_removalObserverCallback (o : Observer) (w : World) :
  o ∈ observers w -> scanInvariant w -> scanInvariant (removalObserverCallback o w).
Proof.
  intros Ho Hinv. unfold removalObserverCallback.
  destruct (negb (containsId (dom w) (watched o))); [|exact Hinv].
  apply scanInvariant_runCallback.
  - destruct Hinv as (_ & _ & _ & Hobs & _). rewrite Forall_forall in Hobs.
    apply Hobs. exact Ho.
  - apply scanInvariant_disconnect. inv_unchanged Hinv.
Qed.

Lemma scanInvariant_runListeners
      (run : Handler -> DomEvent -> World -> DomEvent * World) :
  (forall h e w, scanInvariant w -> scanInvariant (snd (run h e w))) ->
  forall hs e w, scanInvariant w -> scanInvariant (snd (runListeners run hs e w)).
Proof.
  intros Hrun hs e w Hinv. unfold runListeners.
  change w with (snd (e, w)) in Hinv. revert Hinv. generalize (e, w).
  induction hs as [|h hs IH]; intros ew Hinv; [exact Hinv|].
  cbn [fold_left]. apply IH.
  destruct (propagationStopped (fst ew)); [exact Hinv|]. apply Hrun. exact Hinv.
Qed.

Lemma scanInvariant_runClickListener (h : Handler) (e : DomEvent) (w : World) :
  scanInvariant w -> scanInvariant (snd (runClickListener h e w)).
Proof.
  intros Hinv. destruct h; cbn [runClickListener snd]; try exact Hinv.
  destruct (getNode (dom w) composeEl) as [el|]; [|exact Hinv].
  cbn [onButtonClick snd]. apply scanInvariant_trigger. inv_unchanged Hinv.
Qed.

Lemma scanInvariant_runListener (h : Handler) (e : DomEvent) (w : World) :
  scanInvariant w -> scanInvariant (snd (runListener h e w)).
Proof.
  intros Hinv. destruct h; cbn [runListener].
  - destruct (getNode (dom w) composeEl) as [el|]; [|exact Hinv].
    unfold onComposeKeydown.
    destruct (String.eqb (key e) "Enter" && ctrlKey e && shiftKey e); [|exact Hinv].
    cbn [snd]. apply scanInvariant_trigger. inv_unchanged Hinv.
  - unfold onButtonKeydown.
    destruct (String.eqb (key e) "Enter" || String.eqb (key e) " "); [|exact Hinv].
    cbn [snd]. apply scanInvariant_runListeners.
    + apply scanInvariant_runClickListener.
    + inv_unchanged Hinv.
  - apply scanInvariant_runClickListener. exact Hinv.
Qed.

Lemma scanInvariant_step (i : Input) (w : World) :
  scanInvariant w -> scanInvariant (step i w).
Proof.
  intros Hinv. destruct i; cbn [step].
  - inv_unchanged Hinv.
  - destruct (head (filter (fun x => observerId x = observer) (observers w)))
      as [ob|] eqn:Hob; [|exact Hinv].
    apply scanInvariant_removalObserverCallback; [|exact Hinv].
    apply head_Some_elem_of in Hob. apply list_elem_of_filter in Hob as [_ Hob]. exact Hob.
  - destruct (mainObserving w); [|exact Hinv]. unfold mainObserverCallback.
    destruct (existsb (existsb nodeNeedsScan) mutations); [|exact Hinv].
    apply scanInvariant_scheduleScan. exact Hinv.
  - destruct (earliest (timers w)) as [t|] eqn:Ht; [|exact Hinv].
    apply earliest_elem in Ht.
    destruct Hinv as (Hnd & Hlt & Hscan & Hobs & Hidle).
    set (w1 := setNow _ _).
    assert (Hnd1 : NoDup (timerId <$> timers w1)).
    { apply NoDup_fmap_2_strong.
      - intros a b Ha Hb Hab.
        apply list_elem_of_filter in Ha as [_ Ha]. apply list_elem_of_filter in Hb as [_ Hb].
        apply (NoDup_same_id (timers w)); assumption.
      - apply NoDup_filter. eapply NoDup_fmap_1. exact Hnd. }
    assert (Hlt1 : Forall (fun x => (timerId x < nextId w1)%nat) (timers w1)).
    { apply Forall_forall. intros x Hx. apply list_elem_of_filter in Hx as [_ Hx].
      rewrite Forall_forall in Hlt. apply Hlt. exact Hx. }
    destruct (decide (callback t = CbScanAll)) as [Hcb|Hcb].
    + rewrite Hcb. cbn [runCallback]. apply scanInvariant_scanAll.
      unfold pendingScans in Hscan.
      destruct (scanTimer w) as [id|] eqn:Hid.
      * destruct (scans_remove_scan (timers w) t id Hscan Ht Hcb) as [Hnone _].
        unfold scanInvariant, pendingScans. repeat split; try assumption.
        change (timers (setScanTimer None w1))
          with (filter (fun x => timerId x <> timerId t) (timers w)).
        rewrite Hnone. reflexivity.
      * exfalso.
        assert (Hin : t ∈ omap isScan (timers w)) by (apply scans_elem; split; assumption).
        destruct (omap isScan (timers w)); [inversion Hin | discriminate].
    + apply scanInvariant_runCallback; [exact Hcb|].
      unfold scanInvariant, pendingScans. repeat split; try assumption.
      change (timers w1) with (filter (fun x => timerId x <> timerId t) (timers w)).
      rewrite (scans_remove_other (timers w) t Hnd Ht Hcb). exact Hscan.
  - destruct (idleQueue w) as [|cb q] eqn:Hq; [exact Hinv|].
    destruct Hinv as (Hnd & Hlt & Hscan & Hobs & Hidle).
    rewrite Hq in Hidle. apply Forall_cons in Hidle as [Hcb Hrest].
    apply scanInvariant_runCallback; [exact Hcb|].
    unfold scanInvariant, pendingScans. repeat split; assumption.
  - unfold dispatchEvent. destruct (getLocated (dom w) target) as [l|]; [|exact Hinv].
    apply scanInvariant_runListeners; [apply scanInvariant_runListener | exact Hinv].
Qed.

Lemma scanInvariant_runWhenIdle (cb : Callback) (timeoutMs : Z) (w : World) :
  cb <> CbScanAll -> scanInvariant w -> scanInvariant (runWhenIdle cb timeoutMs w).
Proof.
  intros Hcb Hinv. unfold runWhenIdle. destruct (hasIdleCallback w).
  - destruct Hinv as (Hnd & Hlt & Hscan & Hobs & Hidle).
    unfold scanInvariant, pendingScans.
    change (idleQueue (requestIdleCallback cb timeoutMs w)) with (idleQueue w ++ [cb]).
    repeat split; try assumption.
    apply Forall_app. split; [exact Hidle|]. constructor; [exact Hcb | constructor].
  - apply scanInvariant_setTimeout; assumption.
Qed.

Lemma scanInvariant_initialWorld (doc : Element) (idleApi : bool) :
  scanInvariant (initialWorld doc idleApi).
Proof.
  unfold scanInvariant, pendingScans. cbn.
  split; [apply NoDup_nil_2|]. repeat split; constructor.
Qed.

Lemma scanInvariant_boot (doc : Element) (idleApi : bool) :
  scanInvariant (boot doc idleApi).
Proof.
  unfold boot, startScript.
  apply scanInvariant_runWhenIdle; [discriminate|].
  apply scanInvariant_runWhenIdle; [discriminate|].
  pose proof (scanInvariant_initialWorld doc idleApi) as Hinv.
  inv_unchanged Hinv.
Qed.

Lemma scanInvariant_run (inputs : list Input) (w : World) :
  scanInvariant w -> scanInvariant (run inputs w).
Proof.
  revert w. induction inputs as [|i inputs IH]; intros w Hinv; [exact Hinv|].
  cbn [run fold_left]. apply IH. apply scanInvariant_step. exact Hinv.
Qed.

Lemma scheduleScan_now (delay : Z) (w : World) : now (scheduleScan delay w) = now w.
Proof. unfold scheduleScan. destruct (scanTimer w); reflexivity. Qed.

(** One scheduling request: what is cleared, what is set, what is pending
    afterwards. *)
Lemma scheduleScan_pending (delay : Z) (w : World) :
  scanInvariant w ->
  pendingScans (scheduleScan delay w)
  = [mkTimer (nextId w) (now w + Z.max 0 delay) CbScanAll]
  /\ scanTimer (scheduleScan delay w) = Some (nextId w)
  /\ trace (scheduleScan delay w)
     = (now w, SetTimeout (nextId w) CbScanAll delay)
         :: match scanTimer w with
            | Some t => [(now w, ClearTimeout t)]
            | None => []
            end ++ trace w.
Proof.
  intros (Hnd & Hlt & Hscan & Hobs & Hidle).
  unfold scheduleScan, pendingScans in *.
  destruct (scanTimer w) as [t|] eqn:Ht.
  - change (timers (setScanTimer (Some (nextId (clearTimeout t w)))
                      (setTimeout CbScanAll delay (clearTimeout t w))))
      with (filter (fun x => timerId x <> t) (timers w)
              ++ [mkTimer (nextId w) (now w + Z.max 0 delay) CbScanAll]).
    split; [|split; reflexivity].
    rewrite omap_app, scans_filter.
    destruct (omap isScan (timers w)) as [|s [|s' rest]]; try discriminate.
    injection Hscan as Hs.
    rewrite filter_cons, decide_False by (intros Hne; apply Hne; exact Hs).
    reflexivity.
  - change (timers (setScanTimer (Some (nextId w)) (setTimeout CbScanAll delay w)))
      with (timers w ++ [mkTimer (nextId w) (now w + Z.max 0 delay) CbScanAll]).
    split; [|split; reflexivity].
    rewrite omap_app.
    destruct (omap isScan (timers w)); [reflexivity | discriminate].
Qed.

Lemma tryInjectWithRetry_scanTimer (c : NodeId) (r : Z) (w : World) :
  scanTimer (tryInjectWithRetry c r w) = scanTimer w.
Proof.
  rewrite tryInjectWithRetry_cases.
  destruct (getNode (dom w) c) as [el|]; [|reflexivity].
  destruct (hasAttribute el PROCESSED_ATTR); [reflexivity|]. cbv zeta.
  destruct (findSendButton el) eqn:Hs.
  - unfold injectButton. cbn [emit dom setTrace].
    destruct (getNode (dom w) c) as [el'|]; [|reflexivity].
    destruct (hasAttribute el' PROCESSED_ATTR); [reflexivity|].
    destruct (findSendButton el') as [s|]; [destruct (buildButtonThrows s)|];
      reflexivity.
  - destruct (0 <? r)%Z; reflexivity.
Qed.

Lemma scanAll_scanTimer (w : World) : scanTimer (scanAll w) = None.
Proof.
  unfold scanAll. apply (forEachContainer_invariant (fun x => scanTimer x = None));
    [|reflexivity].
  intros x c0 Hx. rewrite tryInjectWithRetry_scanTimer. exact Hx.
Qed.

(** C7.  In every world the script can reach, at most one scan timer is
    pending, and it is the one [scanTimer] names.  A scheduling request
    clears that timer before it sets the new one, so right after it exactly
    the new timer is pending; after a burst of requests the one pending
    scan is the last request's.  When the scan timer fires, [scanAll] runs
    with no other scan pending and leaves none. *)
Theorem scan_debounce (doc : Element) (idleApi : bool) (inputs : list Input) :
  let w := run inputs (boot doc idleApi) in
  (length (pendingScans w) <= 1)%nat
  /\ timerId <$> pendingScans w
     = match scanTimer w with
       | Some id => [id]
       | None => []
       end
  /\ (forall delay,
         pendingScans (scheduleScan delay w)
         = [mkTimer (nextId w) (now w + Z.max 0 delay) CbScanAll]
         /\ scanTimer (scheduleScan delay w) = Some (nextId w)
         /\ trace (scheduleScan delay w)
            = (now w, SetTimeout (nextId w) CbScanAll delay)
                :: match scanTimer w with
                   | Some t => [(now w, ClearTimeout t)]
                   | None => []
                   end ++ trace w)
  /\ (forall delays last,
         exists id,
           pendingScans (fold_left (fun w d => scheduleScan d w) (delays ++ [last]) w)
           = [mkTimer id (now w + Z.max 0 last) CbScanAll])
  /\ (forall t,
         earliest (timers w) = Some t -> callback t = CbScanAll ->
         pendingScans (step TimerFires w) = []
         /\ scanTimer (step TimerFires w) = None).
Proof.
  intros w.
  assert (Hinv : scanInvariant w) by (apply scanInvariant_run, scanInvariant_boot).
  split; [|split; [|split; [|split]]].
  - destruct Hinv as (_ & _ & Hscan & _).
    apply (f_equal length) in Hscan. rewrite length_fmap in Hscan. rewrite Hscan.
    destruct (scanTimer w); cbn; lia.
  - destruct Hinv as (_ & _ & Hscan & _). exact Hscan.
  - intros delay. apply scheduleScan_pending. exact Hinv.
  - intros delays last. rewrite fold_left_app. cbn [fold_left].
    set (w2 := fold_left _ delays w).
    assert (H2 : scanInvariant w2 /\ now w2 = now w).
    { subst w2. apply (fold_left_invariant _ (fun x => scanInvariant x /\ now x = now w));
        [|split; [exact Hinv | reflexivity]].
      intros x d [Hx Hn]. split; [apply scanInvariant_scheduleScan; exact Hx|].
      rewrite scheduleScan_now. exact Hn. }
    destruct H2 as [Hinv2 Hnow2].
    destruct (scheduleScan_pending last w2 Hinv2) as (Hp & _).
    exists (nextId w2). rewrite Hp, Hnow2. reflexivity.
  - intros t Ht Hcb.
    pose proof (scanInvariant_step TimerFires w Hinv) as (_ & _ & Hscan & _).
    assert (Hnone : scanTimer (step TimerFires w) = None).
    { cbn [step]. rewrite Ht, Hcb. cbn [runCallback]. apply scanAll_scanTimer. }
    rewrite Hnone in Hscan. split; [|exact Hnone].
    destruct (pendingScans (step TimerFires w)); [reflexivity | discriminate].
Qed.

Lemma scan_debounce_witness :
  let located := mkLocated Sample.plainCompose
                   [mkElement 2 "div" "dw" ∅ [Sample.plainCompose];
                    Sample.page [Sample.plainCompose]] in
  let inputs := [IdlePeriod; IdlePeriod; MainRecords [[ElementNode located]];
                 MainRecords [[TextNode]; [ElementNode located]]] in
  (length (pendingScans (run inputs (boot (Sample.page [Sample.plainCompose]) true))) <= 1)%nat
  /\ length (trace (run inputs (boot (Sample.page [Sample.plainCompose]) true))) = 10%nat.
Proof.
  cbv zeta. split; [|vm_compute; reflexivity].
  apply (scan_debounce (Sample.page [Sample.plainCompose]) true).
Defined.

(** ** The document tree *)

(** Induction on an element with the property known of its children. *)
Lemma Element_children_ind (P : Element -> Prop) :
  (forall e, Forall P (children e) -> P e) -> forall e, P e.
Proof.
  intros Hstep. fix IH 1. intros [i tg cl at_ cs sv]. apply Hstep. cbn.
  induction cs as [|c cs IHcs]; constructor; [apply IH | exact IHcs].
Qed.

Lemma getNode_unfold (e : Element) (i : NodeId) :
  getNode e i = if decide (nodeId e = i) then Some e else getNodeAmong (children e) i.
Proof. destruct e; reflexivity. Qed.

Lemma getNodeAmong_cons (c : Element) (cs : list Element) (i : NodeId) :
  getNodeAmong (c :: cs) i = match getNode c i with
                             | Some x => Some x
                             | None => getNodeAmong cs i
                             end.
Proof. reflexivity. Qed.

Lemma insertAfterNode_unfold (ref : NodeId) (new e : Element) :
  insertAfterNode ref new e
  = mkNode (nodeId e) (tagName e) (className e) (attributes e)
           (insertAmong ref new (children e)) (svgElement e).
Proof. destruct e; reflexivity. Qed.

Lemma insertAmong_cons (ref : NodeId) (new c : Element) (cs : list Element) :
  insertAmong ref new (c :: cs)
  = insertAfterNode ref new c
      :: (if decide (nodeId c = ref) then new :: insertAmong ref new cs
          else insertAmong ref new cs).
Proof. reflexivity. Qed.

Lemma updateNode_unfold (i : NodeId) (f : Element -> Element) (e : Element) :
  updateNode i f e
  = if decide (nodeId e = i) then f e
    else mkNode (nodeId e) (tagName e) (className e) (attributes e)
                (map (updateNode i f) (children e)) (svgElement e).
Proof. destruct e; reflexivity. Qed.

(** [updateNode] changes the node that [getNode] finds. *)
Lemma getNode_updateNode (i : NodeId) (f : Element -> Element) (e : Element) :
  (forall x, nodeId (f x) = nodeId x) ->
  getNode (updateNode i f e) i = f <$> getNode e i.
Proof.
  intros Hid. induction e as [e IH] using Element_children_ind.
  rewrite updateNode_unfold, (getNode_unfold e).
  destruct (decide (nodeId e = i)) as [He|He].
  - rewrite getNode_unfold, Hid, decide_True by exact He. reflexivity.
  - rewrite getNode_unfold. cbn [nodeId children]. rewrite decide_False by exact He.
    induction IH as [|c cs Hc Hcs IHcs]; [reflexivity|].
    cbn [map]. rewrite !getNodeAmong_cons, Hc.
    destruct (getNode c i); [reflexivity | exact IHcs].
Qed.

(** Inserting a node with another identity does not change which node
    [getNode] finds, nor that node's attributes. *)
Lemma getNode_insertAfterNode (ref : NodeId) (new : Element) (i : NodeId) (e : Element) :
  getNode new i = None ->
  attributes <$> getNode (insertAfterNode ref new e) i = attributes <$> getNode e i.
Proof.
  intros Hnew. induction e as [e IH] using Element_children_ind.
  rewrite insertAfterNode_unfold, (getNode_unfold e), getNode_unfold.
  cbn [nodeId children].
  destruct (decide (nodeId e = i)); [reflexivity|].
  induction IH as [|c cs Hc Hcs IHcs]; [reflexivity|].
  rewrite insertAmong_cons, !getNodeAmong_cons.
  destruct (getNode (insertAfterNode ref new c) i) as [x|] eqn:Hx;
    destruct (getNode c i) as [y|] eqn:Hy; cbn in Hc; try discriminate.
  - exact Hc.
  - destruct (decide (nodeId c = ref)); [|exact IHcs].
    rewrite getNodeAmong_cons, Hnew. exact IHcs.
Qed.

(** ** The injector *)

Lemma hasAttribute_withAttribute (name value : string) (e : Element) :
  hasAttribute (withAttribute name value e) name = true.
Proof.
  unfold hasAttribute, withAttribute. cbn [attributes].
  rewrite lookup_insert_eq. apply bool_decide_eq_true. eexists. reflexivity.
Qed.

Lemma hasAttribute_attributes (a b : Element) (name : string) :
  attributes a = attributes b -> hasAttribute a name = hasAttribute b name.
Proof. unfold hasAttribute. intros ->. reflexivity. Qed.

Lemma getNode_buildButton (id : NodeId) (sendBtn : Element) (i : NodeId) :
  id <> i -> getNode (buildButton id sendBtn) i = None.
Proof.
  intros Hne. rewrite getNode_unfold. cbn [nodeId buildButton children].
  rewrite decide_False by exact Hne. reflexivity.
Qed.

(** Once [injectButton] got as far as setting the marker, the region bears
    it afterwards, whether [buildButton] threw or not. *)
Lemma injectButton_marks (c : NodeId) (w : World) (el sendBtn : Element) :
  getNode (dom w) c = Some el ->
  hasAttribute el PROCESSED_ATTR = false ->
  findSendButton el = Some sendBtn ->
  nextId w <> c ->
  exists el', getNode (dom (injectButton c w)) c = Some el'
              /\ hasAttribute el' PROCESSED_ATTR = true.
Proof.
  intros Hnode Hproc Hsend Hfresh.
  destruct (buildButtonThrows sendBtn) eqn:Hthrows.
  - destruct (injectButton_throws c w el sendBtn Hnode Hproc Hsend Hthrows)
      as (_ & _ & _ & Hdom).
    rewrite Hdom, getNode_updateNode, Hnode by reflexivity.
    eexists. split; [reflexivity|]. apply hasAttribute_withAttribute.
  - assert (Hdom : dom (injectButton c w)
                   = insertAfterNode (nodeId sendBtn) (buildButton (nextId w) sendBtn)
                       (updateNode c (withAttribute PROCESSED_ATTR "true") (dom w))).
    { unfold injectButton. rewrite Hnode, Hproc. cbn [emit dom setTrace].
      rewrite Hsend, Hthrows. reflexivity. }
    rewrite Hdom.
    pose proof (getNode_insertAfterNode (nodeId sendBtn) (buildButton (nextId w) sendBtn) c
                  (updateNode c (withAttribute PROCESSED_ATTR "true") (dom w))
                  (getNode_buildButton _ _ _ Hfresh)) as Hins.
    rewrite getNode_updateNode, Hnode in Hins by reflexivity.
    destruct (getNode (insertAfterNode _ _ _) c) as [el'|]; [|discriminate].
    exists el'. split; [reflexivity|].
    cbn in Hins. injection Hins as Hattrs.
    rewrite (hasAttribute_attributes _ (withAttribute PROCESSED_ATTR "true" el) _ Hattrs).
    apply hasAttribute_withAttribute.
Qed.

Lemma injectButton_processed (c : NodeId) (w : World) (el : Element) :
  getNode (dom w) c = Some el ->
  hasAttribute el PROCESSED_ATTR = true ->
  injectButton c w = w.
Proof. intros Hnode Hproc. unfold injectButton. rewrite Hnode, Hproc. reflexivity. Qed.

Lemma injectButtonThrows_spec (c : NodeId) (w : World) (el sendBtn : Element) :
  getNode (dom w) c = Some el ->
  hasAttribute el PROCESSED_ATTR = false ->
  findSendButton el = Some sendBtn ->
  injectButtonThrows c w = buildButtonThrows sendBtn.
Proof.
  intros Hnode Hproc Hsend. unfold injectButtonThrows.
  rewrite Hnode, Hproc, Hsend. reflexivity.
Qed.

(** C2 (as the code has it).  The marker makes [injectButton] run its
    injecting path at most once for each region it is called on.  On a
    region that bears the processed marker it returns the world as it is.
    On an unmarked region with a send control it sets the marker first;
    then, when the send control is an HTML element, it registers the
    listeners and inserts one synthetic control after the send control;
    when [buildButton] throws, the call ends there, with the marker set, no
    listener registered and nothing inserted.  Either way the region bears
    the marker afterwards, so every further invocation on it, however often
    repeated, changes nothing and inserts nothing.  This bounds the
    injections made through one region, not the controls a region ends up
    with: two regions can share a send button. *)
Theorem injectButton_at_most_once (c : NodeId) :
  (forall w el,
      getNode (dom w) c = Some el ->
      hasAttribute el PROCESSED_ATTR = true ->
      injectButton c w = w /\ injectButtonThrows c w = false)
  /\ (forall w el sendBtn,
         getNode (dom w) c = Some el ->
         hasAttribute el PROCESSED_ATTR = false ->
         findSendButton el = Some sendBtn ->
         nextId w <> c ->
         let w' := injectButton c w in
         injectButtonThrows c w = buildButtonThrows sendBtn
         /\ (if buildButtonThrows sendBtn
             then trace w'
                  = [(now w, SetAttribute c PROCESSED_ATTR "true");
                     (now w, Log (LogInjecting c));
                     (now w, FindSendButton ByInjectButton c)] ++ trace w
                  /\ insertions (trace w') = insertions (trace w)
                  /\ listeners w' = listeners w
             else trace w'
                  = [(now w, InsertAfter (nodeId sendBtn) (nextId w));
                     (now w, AddEventListener (nextId w) "click" false
                               (OnButtonClick c (nodeId sendBtn)));
                     (now w, AddEventListener (nextId w) "keydown" false
                               (OnButtonKeydown (nextId w)));
                     (now w, AddEventListener c "keydown" true
                               (OnComposeKeydown c (nodeId sendBtn)));
                     (now w, SetAttribute c PROCESSED_ATTR "true");
                     (now w, Log (LogInjecting c));
                     (now w, FindSendButton ByInjectButton c)] ++ trace w
                  /\ insertions (trace w')
                     = insertions (trace w) ++ [(nodeId sendBtn, nextId w)])
         /\ (exists el', getNode (dom w') c = Some el'
                         /\ hasAttribute el' PROCESSED_ATTR = true)
         /\ forall n, Nat.iter n (injectButton c) w' = w'
                      /\ injectButtonThrows c w' = false).
Proof.
  split.
  { intros w el Hnode Hproc. split; [apply (injectButton_processed c w el); assumption|].
    unfold injectButtonThrows. rewrite Hnode, Hproc. reflexivity. }
  intros w el sendBtn Hnode Hproc Hsend Hfresh w'. subst w'.
  destruct (injectButton_marks c w el sendBtn Hnode Hproc Hsend Hfresh)
    as (el' & Hnode' & Hproc').
  split; [apply (injectButtonThrows_spec c w el); assumption|].
  split; [|split; [exists el'; split; assumption|]].
  - destruct (buildButtonThrows sendBtn) eqn:Hthrows.
    + destruct (injectButton_throws c w el sendBtn Hnode Hproc Hsend Hthrows)
        as (Htr & _ & Hls & _).
      split; [exact Htr|]. split; [|exact Hls].
      rewrite Htr, insertions_app. cbn. apply app_nil_r.
    + destruct (injectButton_injects c w el sendBtn Hnode Hproc Hsend Hthrows) as [Htr _].
      split; [exact Htr | rewrite Htr, insertions_app; reflexivity].
  - intros n. split.
    + induction n as [|n IH]; [reflexivity|].
      rewrite Nat.iter_succ, IH. apply (injectButton_processed c _ el'); assumption.
    + unfold injectButtonThrows. rewrite Hnode', Hproc'. reflexivity.
Qed.

Lemma injectButton_at_most_once_witness :
  let w := initialWorld (Sample.page [Sample.plainCompose]) true in
  insertions (trace (Nat.iter 2 (injectButton 11) (injectButton 11 w))) = [(12, 0)%nat].
Proof.
  destruct (injectButton_at_most_once 11) as [_ Hinject].
  assert (Hnode : getNode (dom (initialWorld (Sample.page [Sample.plainCompose]) true)) 11
                  = Some Sample.plainCompose) by (vm_compute; reflexivity).
  assert (Hproc : hasAttribute Sample.plainCompose PROCESSED_ATTR = false)
    by (vm_compute; reflexivity).
  assert (Hsend : findSendButton Sample.plainCompose
                  = Some (Sample.control 12 "T-I J-J5-Ji aoO" "Send"))
    by (vm_compute; reflexivity).
  assert (Hfresh : nextId (initialWorld (Sample.page [Sample.plainCompose]) true) <> 11)
    by (cbn; lia).
  destruct (Hinject _ _ _ Hnode Hproc Hsend Hfresh) as (_ & (_ & Hins) & _ & Hiter).
  cbv zeta. rewrite (proj1 (Hiter 2%nat)), Hins. reflexivity.
Defined.

(** C2, the claim as stated fails: a region can end up with two synthetic
    controls.  The container holds a candidate that is no send button next
    to a popup; [findComposeWindows] returns the container and the popup,
    [findSendButton] finds the popup's send button for both, and one scan
    injects once for each: two controls stand after the send button, inside
    the popup, each region having been injected once. *)
Lemma two_controls_in_one_region :
  let dw := mkElement 20 "div" "dw" ∅
              [Sample.control 30 "T-I aoO" "Sending"; Sample.plainCompose] in
  let doc := mkElement 10 "html" "" ∅ [dw] in
  let w := scanAll (initialWorld doc true) in
  nodeId <$> findComposeWindows (mkLocated dw [doc]) = [20; 11]%nat
  /\ insertions (trace w) = [(12, 0); (12, 1)]%nat
  /\ (filter (fun x => hasAttribute x BTN_ATTR = true)
        <$> (descendants <$> getNode (dom w) 11))
     = Some [buildButton 1 (Sample.control 12 "T-I J-J5-Ji aoO" "Send");
             buildButton 0 (Sample.control 12 "T-I J-J5-Ji aoO" "Send")].
Proof. vm_compute. repeat split; reflexivity. Qed.

(** ** The synthetic control and the scans *)

Lemma tokensFrom_marker_classes (cur : string) :
  Str.tokensFrom cur " aoO sab-btn"
  = (if String.eqb cur "" then [] else [cur]) ++ ["aoO"; "sab-btn"].
Proof.
  change (Str.tokensFrom cur " aoO sab-btn")
    with (if String.eqb cur "" then Str.tokensFrom "" "aoO sab-btn"
          else cur :: Str.tokensFrom "" "aoO sab-btn").
  destruct (String.eqb cur ""); vm_compute; reflexivity.
Qed.

Lemma tokensFrom_suffix (x cur : string) :
  "aoO" ∈ Str.tokensFrom cur (x +:+ " aoO sab-btn").
Proof.
  revert cur. induction x as [|ch x IH]; intros cur.
  - change ("" +:+ " aoO sab-btn") with " aoO sab-btn".
    rewrite tokensFrom_marker_classes.
    destruct (String.eqb cur ""); [left | right; left].
  - change (String ch x +:+ " aoO sab-btn") with (String ch (x +:+ " aoO sab-btn")).
    cbn [Str.tokensFrom].
    destruct (Str.isClassSeparator ch); [destruct (String.eqb cur "")|];
      [apply IH | | apply IH].
    right. apply IH.
Qed.

Lemma buildButton_class (id : NodeId) (sendBtn : Element) :
  hasClass "aoO" (buildButton id sendBtn) = true.
Proof.
  unfold hasClass, buildButton. cbn [className]. apply bool_decide_eq_true.
  apply tokensFrom_suffix.
Qed.

Lemma buildButton_marker (id : NodeId) (sendBtn : Element) :
  hasAttribute (buildButton id sendBtn) BTN_ATTR = true.
Proof. reflexivity. Qed.

Lemma firstSendIn_not_synthetic (attr : string) (els : list Element) (el : Element) :
  firstSendIn attr els = Some el -> hasAttribute el BTN_ATTR = false.
Proof.
  induction els as [|x els IH]; cbn [firstSendIn]; [discriminate|].
  destruct (hasAttribute x BTN_ATTR) eqn:Hx; [exact IH|].
  destruct (acceptsSendText _); [intros [= <-]; exact Hx | exact IH].
Qed.

Lemma firstNotInjected_not_synthetic (els : list Element) (el : Element) :
  firstNotInjected els = Some el -> hasAttribute el BTN_ATTR = false.
Proof.
  induction els as [|x els IH]; cbn [firstNotInjected]; [discriminate|].
  destruct (hasAttribute x BTN_ATTR) eqn:Hx; [exact IH | intros [= <-]; exact Hx].
Qed.

(** The loop of [findComposeWindows] never looks at a synthetic candidate. *)
Lemma composeRootsLoop_hostCandidates
      (dwEl : Element) (cands : list Located) (seen : gset NodeId) (results : list Element) :
  composeRootsLoop dwEl cands seen results
  = composeRootsLoop dwEl (hostCandidates cands) seen results.
Proof.
  revert seen results. induction cands as [|el cands IH]; intros seen results; [reflexivity|].
  unfold hostCandidates. rewrite filter_cons. cbn [composeRootsLoop].
  destruct (hasAttribute (here el) BTN_ATTR) eqn:Hsyn.
  - rewrite decide_False by discriminate. apply IH.
  - rewrite decide_True by reflexivity. cbn [composeRootsLoop]. rewrite Hsyn.
    destruct (bool_decide _); apply IH.
Qed.

(** *** Scans after an insertion *)

Lemma sameNode_refl (a : Element) : sameNode a a.
Proof. repeat split. Qed.

Lemma sameNode_insertAfterNode (ref : NodeId) (new e : Element) :
  sameNode e (insertAfterNode ref new e).
Proof. rewrite insertAfterNode_unfold. repeat split. Qed.

Lemma Inserted_app (added : Element -> Prop) (l1 l1' l2 l2' : list Element) :
  Inserted added l1 l1' -> Inserted added l2 l2' ->
  Inserted added (l1 ++ l2) (l1' ++ l2').
Proof.
  intros H1 H2. induction H1; cbn [app]; [exact H2 | |].
  - apply Inserted_keep; assumption.
  - apply Inserted_add; assumption.
Qed.

Lemma descendants_unfold (e : Element) :
  descendants e = flat_map (fun c => c :: descendants c) (children e).
Proof. destruct e; reflexivity. Qed.

(** The descendants after [insertAfterNode]: the same nodes in the same
    order, with the new leaf put in. *)
Lemma descendants_insertAfterNode (ref : NodeId) (new e : Element) :
  children new = [] ->
  Inserted (fun x => x = new) (descendants e) (descendants (insertAfterNode ref new e)).
Proof.
  intros Hleaf. induction e as [e IH] using Element_children_ind.
  rewrite insertAfterNode_unfold, (descendants_unfold e), descendants_unfold.
  cbn [children].
  induction IH as [|c cs Hc Hcs IHcs]; [constructor|].
  rewrite insertAmong_cons. cbn [flat_map].
  assert (Hhead : Inserted (fun x => x = new) (c :: descendants c)
                    (insertAfterNode ref new c :: descendants (insertAfterNode ref new c))).
  { apply Inserted_keep; [apply sameNode_insertAfterNode | exact Hc]. }
  destruct (decide (nodeId c = ref)).
  - cbn [flat_map]. rewrite (descendants_unfold new), Hleaf. cbn [flat_map app].
    change (c :: descendants c ++ flat_map (fun c0 => c0 :: descendants c0) cs)
      with ((c :: descendants c) ++ flat_map (fun c0 => c0 :: descendants c0) cs).
    change (insertAfterNode ref new c
              :: descendants (insertAfterNode ref new c)
              ++ new :: flat_map (fun c0 => c0 :: descendants c0) (insertAmong ref new cs))
      with ((insertAfterNode ref new c :: descendants (insertAfterNode ref new c))
              ++ new :: flat_map (fun c0 => c0 :: descendants c0) (insertAmong ref new cs)).
    apply Inserted_app; [exact Hhead|]. apply Inserted_add; [reflexivity | exact IHcs].
  - change (c :: descendants c ++ flat_map (fun c0 => c0 :: descendants c0) cs)
      with ((c :: descendants c) ++ flat_map (fun c0 => c0 :: descendants c0) cs).
    change (insertAfterNode ref new c
              :: descendants (insertAfterNode ref new c)
              ++ flat_map (fun c0 => c0 :: descendants c0) (insertAmong ref new cs))
      with ((insertAfterNode ref new c :: descendants (insertAfterNode ref new c))
              ++ flat_map (fun c0 => c0 :: descendants c0) (insertAmong ref new cs)).
    apply Inserted_app; [exact Hhead | exact IHcs].
Qed.

Lemma shallow_hasAttribute (name : string) : shallow (fun e => hasAttribute e name).
Proof. intros a b (_ & _ & _ & Hattr). unfold hasAttribute. rewrite Hattr. reflexivity. Qed.

Lemma shallow_hasClass (cls : string) : shallow (hasClass cls).
Proof. intros a b (_ & _ & Hcls & _). unfold hasClass. rewrite Hcls. reflexivity. Qed.

Lemma shallow_attrIs (name v : string) : shallow (attrIs name v).
Proof.
  intros a b (_ & _ & _ & Hattr). unfold attrIs, getAttribute. rewrite Hattr. reflexivity.
Qed.

Lemma shallow_attrStarts (name p : string) : shallow (attrStarts name p).
Proof.
  intros a b (_ & _ & _ & Hattr). unfold attrStarts, getAttribute. rewrite Hattr.
  reflexivity.
Qed.

Lemma shallow_selSendLabel : shallow selSendLabel.
Proof.
  intros a b H. unfold selSendLabel.
  rewrite (shallow_attrIs _ _ a b H), (shallow_attrStarts _ _ a b H). reflexivity.
Qed.

Lemma shallow_selNative : shallow selNativeSendAndArchive.
Proof.
  intros a b H. unfold selNativeSendAndArchive.
  rewrite !(shallow_attrStarts _ _ a b H). reflexivity.
Qed.

Lemma Inserted_filter (added : Element -> Prop) (sel : Element -> bool)
      (l l' : list Element) :
  shallow sel -> Inserted added l l' ->
  Inserted added (filter (fun x => sel x = true) l) (filter (fun x => sel x = true) l').
Proof.
  intros Hsel H. induction H as [|a b l l' Hab H IH|x l l' Hx H IH]; [constructor| |].
  - rewrite !filter_cons, (Hsel a b Hab).
    destruct (decide (sel b = true)); [apply Inserted_keep; assumption | exact IH].
  - rewrite filter_cons.
    destruct (decide (sel x = true)); [apply Inserted_add; assumption | exact IH].
Qed.

Lemma firstSendIn_Inserted (added : Element -> Prop) (attr : string)
      (l l' : list Element) :
  (forall x, added x -> hasAttribute x BTN_ATTR = true) ->
  Inserted added l l' ->
  sameResult (firstSendIn attr l) (firstSendIn attr l').
Proof.
  intros Hadded H. induction H as [|a b l l' Hab H IH|x l l' Hx H IH]; [exact I| |].
  - cbn [firstSendIn].
    rewrite (shallow_hasAttribute BTN_ATTR a b Hab).
    destruct (hasAttribute b BTN_ATTR); [exact IH|].
    assert (Hattr : getAttributeOrEmpty a attr = getAttributeOrEmpty b attr).
    { destruct Hab as (_ & _ & _ & Hattrs). unfold getAttributeOrEmpty, getAttribute.
      rewrite Hattrs. reflexivity. }
    rewrite Hattr. destruct (acceptsSendText _); [exact Hab | exact IH].
  - cbn [firstSendIn]. rewrite (Hadded x Hx). exact IH.
Qed.

Lemma firstNotInjected_Inserted (added : Element -> Prop) (l l' : list Element) :
  (forall x, added x -> hasAttribute x BTN_ATTR = true) ->
  Inserted added l l' ->
  sameResult (firstNotInjected l) (firstNotInjected l').
Proof.
  intros Hadded H. induction H as [|a b l l' Hab H IH|x l l' Hx H IH]; [exact I| |].
  - cbn [firstNotInjected]. rewrite (shallow_hasAttribute BTN_ATTR a b Hab).
    destruct (hasAttribute b BTN_ATTR); [exact IH | exact Hab].
  - cbn [firstNotInjected]. rewrite (Hadded x Hx). exact IH.
Qed.

(** Inserting a synthetic leaf changes no result of [findSendButton]. *)
Lemma findSendButton_insertAfterNode (ref : NodeId) (new region : Element) :
  children new = [] -> hasAttribute new BTN_ATTR = true ->
  sameResult (findSendButton region) (findSendButton (insertAfterNode ref new region)).
Proof.
  intros Hleaf Hsyn.
  pose proof (descendants_insertAfterNode ref new region Hleaf) as Hdesc.
  assert (Hadded : forall x, x = new -> hasAttribute x BTN_ATTR = true)
    by (intros x ->; exact Hsyn).
  unfold findSendButton, querySelectorAll.
  pose proof (firstSendIn_Inserted _ "data-tooltip" _ _ Hadded
                (Inserted_filter _ selSendClass _ _ (shallow_hasClass "aoO") Hdesc)) as H1.
  pose proof (firstSendIn_Inserted _ "aria-label" _ _ Hadded
                (Inserted_filter _ selSendLabel _ _ shallow_selSendLabel Hdesc)) as H2.
  unfold selSendClass in *.
  destruct (firstSendIn "data-tooltip" (filter _ (descendants region)));
    destruct (firstSendIn "data-tooltip"
                (filter _ (descendants (insertAfterNode ref new region))));
    try contradiction; [exact H1 | exact H2].
Qed.

Lemma findNative_insertAfterNode (ref : NodeId) (new region : Element) :
  children new = [] -> hasAttribute new BTN_ATTR = true ->
  sameResult (findNativeSendAndArchiveButton region)
             (findNativeSendAndArchiveButton (insertAfterNode ref new region)).
Proof.
  intros Hleaf Hsyn.
  pose proof (descendants_insertAfterNode ref new region Hleaf) as Hdesc.
  unfold findNativeSendAndArchiveButton, querySelectorAll.
  apply (firstNotInjected_Inserted (fun x => x = new)).
  - intros x ->. exact Hsyn.
  - apply Inserted_filter; [apply shallow_selNative | exact Hdesc].
Qed.

Lemma hostCandidates_all_synthetic (cands : list Located) :
  Forall (fun l => hasAttribute (here l) BTN_ATTR = true) cands ->
  hostCandidates cands = [].
Proof.
  intros Hall. unfold hostCandidates. apply filter_none.
  eapply Forall_impl; [exact Hall|]. cbn. intros l Hl. rewrite Hl. discriminate.
Qed.

(** *** Region detection after an insertion *)

Lemma InsertedLocated_app (added : Located -> Prop) (l1 l1' l2 l2' : list Located) :
  InsertedLocated added l1 l1' -> InsertedLocated added l2 l2' ->
  InsertedLocated added (l1 ++ l2) (l1' ++ l2').
Proof.
  intros H1 H2. induction H1; cbn [app]; [exact H2 | |].
  - apply InsertedLocated_keep; assumption.
  - apply InsertedLocated_add; assumption.
Qed.

Lemma locatedDescendants_unfold (anc : list Element) (e : Element) :
  locatedDescendants anc e
  = flat_map (fun c => mkLocated c (e :: anc) :: locatedDescendants (e :: anc) c)
             (children e).
Proof. destruct e; reflexivity. Qed.

Lemma locatedDescendants_insertAfterNode
      (ref : NodeId) (new e : Element) (anc anc' : list Element) :
  children new = [] ->
  Forall2 sameNode anc anc' ->
  InsertedLocated (fun x => here x = new)
                  (locatedDescendants anc e)
                  (locatedDescendants anc' (insertAfterNode ref new e)).
Proof.
  intros Hleaf. revert anc anc'.
  induction e as [e IH] using Element_children_ind. intros anc anc' Hanc.
  assert (Hchain : Forall2 sameNode (e :: anc) (insertAfterNode ref new e :: anc')).
  { constructor; [apply sameNode_insertAfterNode | exact Hanc]. }
  rewrite (locatedDescendants_unfold anc e), locatedDescendants_unfold.
  remember (insertAfterNode ref new e) as e' eqn:He'.
  assert (Hch : children e' = insertAmong ref new (children e)).
  { subst e'. rewrite insertAfterNode_unfold. reflexivity. }
  rewrite Hch. clear Hch He'.
  induction IH as [|c cs Hc Hcs IHcs]; [constructor|].
  rewrite insertAmong_cons. cbn [flat_map].
  destruct (decide (nodeId c = ref)).
  - cbn [flat_map]. rewrite (locatedDescendants_unfold _ new), Hleaf. cbn [flat_map app].
    apply InsertedLocated_keep;
      [split; [apply sameNode_insertAfterNode | exact Hchain]|].
    apply InsertedLocated_app; [apply Hc; exact Hchain|].
    apply InsertedLocated_add; [reflexivity | exact IHcs].
  - cbn [app].
    apply InsertedLocated_keep;
      [split; [apply sameNode_insertAfterNode | exact Hchain]|].
    apply InsertedLocated_app; [apply Hc; exact Hchain | exact IHcs].
Qed.

Lemma InsertedLocated_filter (added : Located -> Prop) (sel : Element -> bool)
      (l l' : list Located) :
  shallow sel -> InsertedLocated added l l' ->
  InsertedLocated added (filter (fun x => sel (here x) = true) l)
                  (filter (fun x => sel (here x) = true) l').
Proof.
  intros Hsel H. induction H as [|a b l l' Hab H IH|x l l' Hx H IH]; [constructor| |].
  - rewrite !filter_cons, (Hsel (here a) (here b) (proj1 Hab)).
    destruct (decide (sel (here b) = true));
      [apply InsertedLocated_keep; assumption | exact IH].
  - rewrite filter_cons.
    destruct (decide (sel (here x) = true));
      [apply InsertedLocated_add; assumption | exact IH].
Qed.

Lemma closest_sameLocated (sel : Element -> bool) (a b : Located) :
  shallow sel -> sameLocated a b ->
  sameResult (closest sel a) (closest sel b).
Proof.
  intros Hsel [Hhere Hanc]. unfold closest.
  assert (Hchain : Forall2 sameNode (here a :: ancestors a) (here b :: ancestors b))
    by (constructor; assumption).
  induction Hchain as [|x y xs ys Hxy Hrest IH]; [exact I|].
  rewrite !filter_cons, (Hsel x y Hxy).
  destruct (decide (sel y = true)); [exact Hxy | exact IH].
Qed.

Lemma containsId_insertAfterNode (ref : NodeId) (new e : Element) (i : NodeId) :
  children new = [] -> nodeId new <> i ->
  containsId (insertAfterNode ref new e) i = containsId e i.
Proof.
  intros Hleaf Hne. unfold containsId.
  assert (Hnew : getNode new i = None).
  { rewrite getNode_unfold, decide_False by exact Hne. rewrite Hleaf. reflexivity. }
  pose proof (getNode_insertAfterNode ref new i e Hnew) as H.
  destruct (getNode (insertAfterNode ref new e) i), (getNode e i); try discriminate;
    reflexivity.
Qed.

(** The loop of [findComposeWindows] on the candidates before and after. *)
Lemma composeRootsLoop_Inserted
      (added : Located -> Prop) (fresh : NodeId) (dwEl dwEl' : Element)
      (cands cands' : list Located) :
  (forall x, added x -> hasAttribute (here x) BTN_ATTR = true) ->
  sameNode dwEl dwEl' ->
  (forall i, fresh <> i -> containsId dwEl' i = containsId dwEl i) ->
  Forall (fun a => Forall (fun c => fresh <> nodeId c) (here a :: ancestors a)) cands ->
  InsertedLocated added cands cands' ->
  forall seen results results',
    Forall2 sameNode results results' ->
    Forall2 sameNode (composeRootsLoop dwEl cands seen results)
            (composeRootsLoop dwEl' cands' seen results').
Proof.
  intros Hadded Hdw Hcontains Hfresh Hins.
  induction Hins as [|a b l l' Hab H IH|x l l' Hx H IH]; intros seen results results' Hres.
  - exact Hres.
  - apply Forall_cons in Hfresh as [Ha Hl]. specialize (IH Hl).
    cbn [composeRootsLoop].
    rewrite (shallow_hasAttribute BTN_ATTR _ _ (proj1 Hab)).
    destruct (hasAttribute (here b) BTN_ATTR); [apply IH; exact Hres|].
    pose proof (closest_sameLocated (hasClass "nH") a b (shallow_hasClass "nH") Hab) as Hc.
    assert (Hroot : exists r r',
               sameNode r r'
               /\ match closest (hasClass "nH") a with
                  | Some c => if containsId dwEl (nodeId c) then c else dwEl
                  | None => dwEl
                  end = r
               /\ match closest (hasClass "nH") b with
                  | Some c => if containsId dwEl' (nodeId c) then c else dwEl'
                  | None => dwEl'
                  end = r').
    { unfold closest in *.
      destruct (head (filter _ (here a :: ancestors a))) as [c|] eqn:Hca;
        destruct (head (filter _ (here b :: ancestors b))) as [c'|] eqn:Hcb;
        try contradiction.
      - assert (Hcfresh : fresh <> nodeId c).
        { apply head_Some_elem_of in Hca. apply list_elem_of_filter in Hca as [_ Hca].
          rewrite Forall_forall in Ha. apply Ha. exact Hca. }
        pose proof Hc as (Hid & _).
        rewrite <- Hid, (Hcontains _ Hcfresh).
        destruct (containsId dwEl (nodeId c)); eexists _, _;
          (split; [|split; reflexivity]); [exact Hc | exact Hdw].
      - eexists _, _. split; [exact Hdw | split; reflexivity]. }
    destruct Hroot as (r & r' & Hrr & -> & ->).
    pose proof Hrr as (Hid & _). rewrite <- Hid.
    destruct (bool_decide (nodeId r ∈ seen)); [apply IH; exact Hres|].
    apply IH. apply Forall2_app; [exact Hres|].
    constructor; [exact Hrr | constructor].
  - cbn [composeRootsLoop]. rewrite (Hadded x Hx). apply IH; assumption.
Qed.

Lemma subtree_child (e c x : Element) :
  c ∈ children e -> x ∈ subtree c -> x ∈ subtree e.
Proof.
  intros Hc Hx. change (x ∈ e :: descendants e). right. rewrite descendants_unfold.
  apply list_elem_of_In, in_flat_map. exists c. split; [apply list_elem_of_In, Hc|].
  apply list_elem_of_In. exact Hx.
Qed.

(** The chain of a located descendant runs through the subtree and then
    through the ancestors it was started with. *)
Lemma locatedDescendants_chain (e : Element) :
  forall anc l x,
    l ∈ locatedDescendants anc e -> x ∈ here l :: ancestors l ->
    x ∈ subtree e \/ x ∈ anc.
Proof.
  induction e as [e IH] using Element_children_ind. intros anc l x Hl Hx.
  rewrite locatedDescendants_unfold in Hl.
  apply list_elem_of_In, in_flat_map in Hl as (c & Hc & Hl).
  apply list_elem_of_In in Hc. apply list_elem_of_In in Hl.
  rewrite Forall_forall in IH.
  apply elem_of_cons in Hl as [-> | Hl].
  - cbn [here ancestors] in Hx.
    apply elem_of_cons in Hx as [-> | Hx].
    + left. apply (subtree_child e c); [exact Hc | left].
    + apply elem_of_cons in Hx as [-> | Hx]; [left; left | right; exact Hx].
  - destruct (IH c Hc (e :: anc) l x Hl Hx) as [Hsub | Hanc].
    + left. apply (subtree_child e c); assumption.
    + apply elem_of_cons in Hanc as [-> | Hanc]; [left; left | right; exact Hanc].
Qed.

Lemma Forall2_sameNode_refl (l : list Element) : Forall2 sameNode l l.
Proof. induction l; constructor; [apply sameNode_refl | assumption]. Qed.

(** Inserting a synthetic leaf with a new identity into a popup container
    changes no region that [findComposeWindows] detects there. *)
Lemma findComposeWindows_insertAfterNode
      (ref : NodeId) (new dwEl : Element) (anc : list Element) :
  children new = [] -> hasAttribute new BTN_ATTR = true ->
  Forall (fun x => nodeId new <> nodeId x) (subtree dwEl ++ anc) ->
  Forall2 sameNode (findComposeWindows (mkLocated dwEl anc))
          (findComposeWindows (mkLocated (insertAfterNode ref new dwEl) anc)).
Proof.
  intros Hleaf Hsyn Hfresh.
  unfold findComposeWindows, sendCandidates, querySelectorAllLocated.
  cbn [here ancestors].
  pose proof (locatedDescendants_insertAfterNode ref new dwEl anc anc Hleaf
                (Forall2_sameNode_refl anc)) as Hdesc.
  apply (composeRootsLoop_Inserted (fun x => here x = new) (nodeId new)).
  - intros x ->. exact Hsyn.
  - apply sameNode_insertAfterNode.
  - intros i Hi. apply containsId_insertAfterNode; assumption.
  - apply Forall_forall. intros a Ha. apply Forall_forall. intros x Hx.
    assert (Hin : a ∈ locatedDescendants anc dwEl).
    { apply elem_of_app in Ha as [Ha | Ha];
        apply list_elem_of_filter in Ha as [_ Ha]; exact Ha. }
    rewrite Forall_forall in Hfresh. apply Hfresh. apply elem_of_app.
    apply (locatedDescendants_chain dwEl anc a x Hin Hx).
  - apply InsertedLocated_app; apply InsertedLocated_filter;
      [apply shallow_hasClass | exact Hdesc | apply shallow_selSendLabel | exact Hdesc].
  - constructor.
Qed.

(** C9.  The control built by [buildButton] has the send button's classes
    with "aoO" stripped once and " aoO sab-btn" appended, so it matches the
    marker-class selector, and it bears the synthetic marker attribute.
    Every scan skips elements bearing that attribute: [findSendButton] and
    [findNativeSendAndArchiveButton] never return one, and
    [findComposeWindows] computes its regions from the candidates that do
    not bear it, finding no region when every candidate does.  Inserting the
    built control anywhere in a region changes neither the send button nor
    the native combined button that is found there, and inserting it, as a
    node of new identity, into a popup container changes no region detected
    there. *)
Theorem synthetic_control_is_skipped (id : NodeId) (sendBtn : Element) :
  let btn := buildButton id sendBtn in
  (className btn
   = Str.trim (Str.removeFirstWord "aoO" false (className sendBtn)) +:+ " aoO sab-btn"
   /\ selSendClass btn = true
   /\ hasAttribute btn BTN_ATTR = true)
  /\ (forall region el,
         findSendButton region = Some el -> hasAttribute el BTN_ATTR = false)
  /\ (forall region el,
         findNativeSendAndArchiveButton region = Some el ->
         hasAttribute el BTN_ATTR = false)
  /\ (forall dwEl,
         findComposeWindows dwEl
         = composeRootsLoop (here dwEl) (hostCandidates (sendCandidates dwEl)) ∅ [])
  /\ (forall dwEl,
         Forall (fun l => hasAttribute (here l) BTN_ATTR = true) (sendCandidates dwEl) ->
         findComposeWindows dwEl = [])
  /\ (forall ref region,
         sameResult (findSendButton region)
                    (findSendButton (insertAfterNode ref btn region))
         /\ sameResult (findNativeSendAndArchiveButton region)
                       (findNativeSendAndArchiveButton (insertAfterNode ref btn region)))
  /\ (forall ref dwEl anc,
         Forall (fun x => id <> nodeId x) (subtree dwEl ++ anc) ->
         Forall2 sameNode
                 (findComposeWindows (mkLocated dwEl anc))
                 (findComposeWindows (mkLocated (insertAfterNode ref btn dwEl) anc))).
Proof.
  intros btn. subst btn.
  split; [split; [reflexivity | split; [apply buildButton_class | reflexivity]]|].
  split.
  { intros region el. unfold findSendButton.
    destruct (firstSendIn "data-tooltip" _) as [x|] eqn:Hx.
    - intros [= <-]. eapply firstSendIn_not_synthetic. exact Hx.
    - apply firstSendIn_not_synthetic. }
  split.
  { intros region el. apply firstNotInjected_not_synthetic. }
  split.
  { intros dwEl. apply composeRootsLoop_hostCandidates. }
  split.
  { intros dwEl Hall. unfold findComposeWindows.
    rewrite composeRootsLoop_hostCandidates, (hostCandidates_all_synthetic _ Hall).
    reflexivity. }
  split.
  { intros ref region. split.
    - apply findSendButton_insertAfterNode; reflexivity.
    - apply findNative_insertAfterNode; reflexivity. }
  intros ref dwEl anc Hfresh.
  apply findComposeWindows_insertAfterNode; [reflexivity | reflexivity | exact Hfresh].
Qed.

Lemma synthetic_control_is_skipped_witness :
  findNativeSendAndArchiveButton Sample.injectedCompose
  = Some (Sample.control 42 "T-I aoO" "Send & Archive")
  /\ hasAttribute (Sample.control 42 "T-I aoO" "Send & Archive") BTN_ATTR = false.
Proof.
  assert (Hfound : findNativeSendAndArchiveButton Sample.injectedCompose
                   = Some (Sample.control 42 "T-I aoO" "Send & Archive"))
    by (vm_compute; reflexivity).
  destruct (synthetic_control_is_skipped 43
              (Sample.control 44 "T-I J-J5-Ji aoO" "Send (Ctrl-Enter)"))
    as (_ & _ & Hnative & _).
  split; [exact Hfound | exact (Hnative _ _ Hfound)].
Defined.

(** * Further properties *)

(** ** The element finders *)

Lemma head_filter_split {A} (sel : A -> bool) (l : list A) :
  match head (filter (fun x => sel x = true) l) with
  | Some b => exists pre post,
      l = pre ++ b :: post /\ sel b = true /\ Forall (fun x => sel x = false) pre
  | None => Forall (fun x => sel x = false) l
  end.
Proof.
  induction l as [|a l IH]; [constructor|].
  rewrite filter_cons. destruct (decide (sel a = true)) as [Ha|Ha].
  - exists [], l. repeat split; [exact Ha | constructor].
  - apply not_true_is_false in Ha.
    destruct (head (filter _ l)) as [b|].
    + destruct IH as (pre & post & -> & Hb & Hpre).
      exists (a :: pre), post. repeat split; [exact Hb | constructor; assumption].
    + constructor; assumption.
Qed.

Lemma firstNotInjected_split (els : list Element) :
  match firstNotInjected els with
  | Some el => exists pre post,
      els = pre ++ el :: post /\ hasAttribute el BTN_ATTR = false
      /\ Forall (fun x => hasAttribute x BTN_ATTR = true) pre
  | None => Forall (fun x => hasAttribute x BTN_ATTR = true) els
  end.
Proof.
  induction els as [|a els IH]; [constructor|]. cbn [firstNotInjected].
  destruct (hasAttribute a BTN_ATTR) eqn:Ha.
  - destruct (firstNotInjected els) as [el|].
    + destruct IH as (pre & post & -> & Hel & Hpre).
      exists (a :: pre), post. repeat split; [exact Hel | constructor; assumption].
    + constructor; assumption.
  - exists [], els. repeat split; [exact Ha | constructor].
Qed.

(** [findNativeSendAndArchiveButton] returns the first strict descendant of
    the region, in document order, whose tooltip or label starts with
    "Send & Archive" or "Send and archive" (as written, capitals included)
    and that does not bear the synthetic marker; it returns nothing exactly
    when every descendant that matches bears the marker. *)
Theorem findNativeSendAndArchiveButton_first (composeEl : Element) :
  match findNativeSendAndArchiveButton composeEl with
  | Some el =>
      exists pre post,
        descendants composeEl = pre ++ el :: post
        /\ selNativeSendAndArchive el = true
        /\ hasAttribute el BTN_ATTR = false
        /\ Forall (fun x => selNativeSendAndArchive x = true ->
                            hasAttribute x BTN_ATTR = true) pre
  | None =>
      Forall (fun x => selNativeSendAndArchive x = true ->
                       hasAttribute x BTN_ATTR = true) (descendants composeEl)
  end.
Proof.
  unfold findNativeSendAndArchiveButton, querySelectorAll.
  pose proof (firstNotInjected_split
                (filter (fun x => selNativeSendAndArchive x = true) (descendants composeEl)))
    as H.
  destruct (firstNotInjected _) as [el|].
  - destruct H as (fpre & fpost & Hsplit & Hel & Hpre).
    assert (Hin : el ∈ filter (fun x => selNativeSendAndArchive x = true)
                               (descendants composeEl))
      by (rewrite Hsplit; apply elem_of_app; right; left).
    apply list_elem_of_filter in Hin as [Hsel _].
    revert fpre fpost Hsplit Hpre.
    induction (descendants composeEl) as [|a l IH]; intros fpre fpost Hsplit Hpre.
    { destruct fpre; discriminate. }
    rewrite filter_cons in Hsplit.
    destruct (decide (selNativeSendAndArchive a = true)) as [Ha|Ha].
    + destruct fpre as [|p fpre]; cbn [app] in Hsplit.
      * injection Hsplit as <- _. exists [], l. repeat split; [exact Hsel | exact Hel | constructor].
      * injection Hsplit as <- Hsplit. apply Forall_cons in Hpre as [Hp Hpre].
        destruct (IH fpre fpost Hsplit Hpre) as (pre & post & -> & H1 & H2 & H3).
        exists (a :: pre), post. repeat split; [exact H1 | exact H2 |].
        constructor; [intros _; exact Hp | exact H3].
    + destruct (IH fpre fpost Hsplit Hpre) as (pre & post & -> & H1 & H2 & H3).
      exists (a :: pre), post. repeat split; [exact H1 | exact H2 |].
      constructor; [intros Hc; contradiction | exact H3].
  - apply Forall_forall. intros x Hx Hsel. rewrite Forall_forall in H. apply H.
    apply list_elem_of_filter. split; assumption.
Qed.

Lemma orElse_None_r {A} (a : option A) : orElse a None = a.
Proof. destruct a; reflexivity. Qed.

Lemma filter_filter_andb {A} (p q : A -> bool) (l : list A) :
  filter (fun x => q x = true) (filter (fun x => p x = true) l)
  = filter (fun x => p x && q x = true) l.
Proof.
  induction l as [|a l IH]; [reflexivity|].
  rewrite (filter_cons (fun x => p x = true)), (filter_cons (fun x => p x && q x = true)).
  destruct (decide (p a = true)) as [Hp|Hp].
  - rewrite filter_cons, Hp. cbn [andb].
    destruct (decide (q a = true)); rewrite IH; reflexivity.
  - apply not_true_is_false in Hp. rewrite Hp. cbn [andb].
    rewrite decide_False by discriminate. exact IH.
Qed.

(** The lookup chain is a first-hit search through [archiveSelectors]. *)
Lemma findArchiveButton_selectors (doc : Element) :
  findArchiveButton doc = firstBySelectors doc archiveSelectors.
Proof.
  unfold findArchiveButton, archiveSelectors. cbn [firstBySelectors].
  rewrite orElse_None_r. do 5 f_equal.
  unfold documentQuerySelector, documentQuerySelectorAll.
  rewrite (filter_filter_andb (attrIs "role" "button")). reflexivity.
Qed.

Lemma firstBySelectors_spec (doc : Element) (sels : list (Element -> bool)) :
  match firstBySelectors doc sels with
  | Some b =>
      exists k sel pre post,
        sels !! k = Some sel
        /\ subtree doc = pre ++ b :: post
        /\ sel b = true
        /\ Forall (fun x => sel x = false) pre
        /\ (forall j sel', (j < k)%nat -> sels !! j = Some sel' ->
                           Forall (fun x => sel' x = false) (subtree doc))
  | None =>
      forall sel, sel ∈ sels -> Forall (fun x => sel x = false) (subtree doc)
  end.
Proof.
  induction sels as [|s sels IH]; cbn [firstBySelectors].
  { intros sel Hin. inversion Hin. }
  unfold documentQuerySelector, documentQuerySelectorAll.
  pose proof (head_filter_split s (subtree doc)) as Hs.
  destruct (head (filter _ (subtree doc))) as [b|]; cbn [orElse].
  - destruct Hs as (pre & post & Hsplit & Hb & Hpre).
    exists 0%nat, s, pre, post. repeat split; try assumption.
    intros j sel' Hj. lia.
  - destruct (firstBySelectors doc sels) as [b|].
    + destruct IH as (k & sel & pre & post & Hk & Hsplit & Hb & Hpre & Hbefore).
      exists (S k), sel, pre, post. repeat split; try assumption.
      intros [|j] sel' Hj Hsel'.
      * injection Hsel' as <-. exact Hs.
      * apply (Hbefore j sel'); [lia | exact Hsel'].
    + intros sel Hin. apply elem_of_cons in Hin as [-> | Hin]; [exact Hs | apply IH, Hin].
Qed.

(** The archive lookup tries its six selectors in order.  The control it
    returns is the first element of the document, in document order, that
    matches the first selector with any match at all: an earlier selector
    matches nothing in the document, however early in the document the
    matches of later selectors stand.  It returns nothing exactly when no
    element of the document matches any of the six. *)
Theorem findArchiveButton_by_priority (doc : Element) :
  match findArchiveButton doc with
  | Some b =>
      exists k sel pre post,
        archiveSelectors !! k = Some sel
        /\ subtree doc = pre ++ b :: post
        /\ sel b = true
        /\ Forall (fun x => sel x = false) pre
        /\ (forall j sel', (j < k)%nat -> archiveSelectors !! j = Some sel' ->
                           Forall (fun x => sel' x = false) (subtree doc))
  | None =>
      forall sel, sel ∈ archiveSelectors ->
                  Forall (fun x => sel x = false) (subtree doc)
  end.
Proof. rewrite findArchiveButton_selectors. apply firstBySelectors_spec. Qed.

Lemma subtree_insertAfterNode (ref : NodeId) (new doc : Element) :
  children new = [] ->
  Inserted (fun x => x = new) (subtree doc) (subtree (insertAfterNode ref new doc)).
Proof.
  intros Hleaf. unfold subtree. apply Inserted_keep.
  - apply sameNode_insertAfterNode.
  - apply descendants_insertAfterNode. exact Hleaf.
Qed.

Lemma head_filter_Inserted (added : Element -> Prop) (sel : Element -> bool)
      (l l' : list Element) :
  shallow sel -> (forall x, added x -> sel x = false) ->
  Inserted added l l' ->
  sameResult (head (filter (fun x => sel x = true) l))
             (head (filter (fun x => sel x = true) l')).
Proof.
  intros Hsel Hadded H. induction H as [|a b l l' Hab H IH|x l l' Hx H IH]; [exact I| |].
  - rewrite !filter_cons, (Hsel a b Hab).
    destruct (decide (sel b = true)); [exact Hab | exact IH].
  - rewrite filter_cons, (Hadded x Hx), decide_False by discriminate. exact IH.
Qed.

Lemma orElse_sameResult (a a' b b' : option Element) :
  sameResult a a' -> sameResult b b' -> sameResult (orElse a b) (orElse a' b').
Proof. destruct a, a'; cbn; try contradiction; auto. Qed.

Lemma shallow_archiveSelectors (sel : Element -> bool) :
  sel ∈ archiveSelectors -> shallow sel.
Proof.
  unfold archiveSelectors. intros Hin a b Hab.
  repeat (apply elem_of_cons in Hin as [-> | Hin]);
    [apply shallow_attrIs | apply shallow_attrStarts | apply shallow_attrIs
     | apply shallow_attrStarts | | | inversion Hin]; try exact Hab.
  - rewrite (shallow_attrIs _ _ a b Hab).
    destruct Hab as (_ & Htag & _). unfold tagIs. rewrite Htag. reflexivity.
  - rewrite (shallow_attrIs _ _ a b Hab).
    destruct Hab as (_ & _ & _ & Hattr). unfold getAttributeOrEmpty, getAttribute.
    rewrite Hattr. reflexivity.
Qed.

Lemma firstBySelectors_Inserted (new : Element) (sels : list (Element -> bool))
      (doc doc' : Element) :
  (forall sel, sel ∈ sels -> shallow sel /\ sel new = false) ->
  Inserted (fun x => x = new) (subtree doc) (subtree doc') ->
  sameResult (firstBySelectors doc sels) (firstBySelectors doc' sels).
Proof.
  intros Hsels Hins. induction sels as [|s sels IH]; [exact I|].
  cbn [firstBySelectors]. apply orElse_sameResult.
  - destruct (Hsels s) as [Hsh Hnew]; [left|].
    unfold documentQuerySelector, documentQuerySelectorAll.
    apply (head_filter_Inserted (fun x => x = new)); [exact Hsh | | exact Hins].
    intros x ->. exact Hnew.
  - apply IH. intros sel Hin. apply Hsels. right. exact Hin.
Qed.

Lemma archiveSelectors_buildButton (id : NodeId) (sendBtn : Element) (sel : Element -> bool) :
  sel ∈ archiveSelectors -> sel (buildButton id sendBtn) = false.
Proof.
  unfold archiveSelectors. intros Hin.
  repeat (apply elem_of_cons in Hin as [-> | Hin]); [..|inversion Hin];
    vm_compute; reflexivity.
Qed.

(** The archive lookup never lands on the injected control: the control
    built by [buildButton] matches none of the six archive selectors,
    whatever send button it was built from, and inserting it anywhere in
    the document changes neither whether an archive control is found nor
    which node it is. *)
Theorem archive_lookup_ignores_synthetic_control (id : NodeId) (sendBtn : Element) :
  let btn := buildButton id sendBtn in
  (forall sel, sel ∈ archiveSelectors -> sel btn = false)
  /\ (forall doc b, findArchiveButton doc = Some b -> attributes b <> attributes btn)
  /\ (forall ref doc,
         sameResult (findArchiveButton doc)
                    (findArchiveButton (insertAfterNode ref btn doc))).
Proof.
  intros btn. subst btn. split; [|split].
  - intros sel. apply archiveSelectors_buildButton.
  - intros doc b Hfound Hattr.
    pose proof (findArchiveButton_selectors doc) as Hsel. rewrite Hfound in Hsel.
    pose proof (firstBySelectors_spec doc archiveSelectors) as Hspec.
    rewrite <- Hsel in Hspec.
    destruct Hspec as (k & sel & pre & post & Hk & _ & Hb & _).
    apply list_elem_of_lookup_2 in Hk.
    pose proof (archiveSelectors_buildButton id sendBtn sel Hk) as Hnew.
    assert (Hsame : sel b = sel (mkElement (nodeId b) (tagName b) (className b)
                                           (attributes (buildButton id sendBtn)) [])).
    { apply (shallow_archiveSelectors sel Hk). repeat split. cbn. exact Hattr. }
    rewrite Hb in Hsame. symmetry in Hsame.
    revert Hsame. clear -Hk. unfold archiveSelectors in Hk.
    repeat (apply elem_of_cons in Hk as [-> | Hk]); [..|inversion Hk];
      try (vm_compute; discriminate).
    unfold tagIs, attrIs, getAttribute. cbn [attributes tagName].
    rewrite andb_true_iff. intros [_ H]. vm_compute in H. discriminate.
  - intros ref doc. rewrite !findArchiveButton_selectors.
    apply (firstBySelectors_Inserted (buildButton id sendBtn)).
    + intros sel Hin. split;
        [apply shallow_archiveSelectors | apply archiveSelectors_buildButton]; exact Hin.
    + apply subtree_insertAfterNode. reflexivity.
Qed.

(** ** Region detection *)

Lemma composeRootsLoop_cons (dwEl : Element) (el : Located) (rest : list Located)
      (seen : gset NodeId) (results : list Element) :
  composeRootsLoop dwEl (el :: rest) seen results
  = if hasAttribute (here el) BTN_ATTR then composeRootsLoop dwEl rest seen results
    else if bool_decide (nodeId (composeRoot dwEl el) ∈ seen)
         then composeRootsLoop dwEl rest seen results
         else composeRootsLoop dwEl rest ({[nodeId (composeRoot dwEl el)]} ∪ seen)
                               (results ++ [composeRoot dwEl el]).
Proof. reflexivity. Qed.

Lemma hostCandidates_cons (el : Located) (rest : list Located) :
  hostCandidates (el :: rest)
  = if hasAttribute (here el) BTN_ATTR then hostCandidates rest
    else el :: hostCandidates rest.
Proof.
  unfold hostCandidates. rewrite filter_cons.
  destruct (hasAttribute (here el) BTN_ATTR);
    [rewrite decide_False by discriminate | rewrite decide_True by reflexivity];
    reflexivity.
Qed.

(** The loop keeps [seen] equal to the identities in [results], adds only
    roots of candidates that are not synthetic, adds none twice and leaves
    out the root of none. *)
Lemma composeRootsLoop_spec (dwEl : Element) (cands : list Located) :
  forall (seen : gset NodeId) (results : list Element),
    (forall i, i ∈ seen <-> i ∈ nodeId <$> results) ->
    NoDup (nodeId <$> results) ->
    NoDup (nodeId <$> composeRootsLoop dwEl cands seen results)
    /\ (exists new,
           composeRootsLoop dwEl cands seen results = results ++ new
           /\ Forall (fun r => exists c, c ∈ hostCandidates cands
                                         /\ r = composeRoot dwEl c) new)
    /\ (forall c, c ∈ hostCandidates cands ->
                  nodeId (composeRoot dwEl c)
                  ∈ nodeId <$> composeRootsLoop dwEl cands seen results).
Proof.
  induction cands as [|el rest IH]; intros seen results Hseen Hnodup.
  { cbn [composeRootsLoop]. split; [exact Hnodup|]. split.
    - exists []. rewrite app_nil_r. split; [reflexivity | constructor].
    - intros c Hc. inversion Hc. }
  rewrite composeRootsLoop_cons, hostCandidates_cons.
  destruct (hasAttribute (here el) BTN_ATTR); [apply IH; assumption|].
  destruct (bool_decide (nodeId (composeRoot dwEl el) ∈ seen)) eqn:Hin.
  - apply bool_decide_eq_true in Hin.
    destruct (IH seen results Hseen Hnodup) as (H1 & (new & Hnew & Hall) & H3).
    split; [exact H1|]. split.
    + exists new. split; [exact Hnew|].
      eapply Forall_impl; [exact Hall|]. cbn. intros r (c & Hc & Hr).
      exists c. split; [right; exact Hc | exact Hr].
    + intros c Hc. apply elem_of_cons in Hc as [-> | Hc]; [|apply H3, Hc].
      rewrite Hnew, fmap_app. apply elem_of_app. left. apply Hseen, Hin.
  - apply bool_decide_eq_false in Hin.
    assert (Hseen' : forall i, i ∈ {[nodeId (composeRoot dwEl el)]} ∪ seen
                               <-> i ∈ nodeId <$> (results ++ [composeRoot dwEl el])).
    { intros i. rewrite fmap_app, elem_of_app, elem_of_union, elem_of_singleton.
      cbn [fmap list_fmap]. rewrite list_elem_of_singleton, Hseen. tauto. }
    assert (Hnodup' : NoDup (nodeId <$> (results ++ [composeRoot dwEl el]))).
    { rewrite fmap_app. apply NoDup_app. split; [exact Hnodup|]. split.
      - intros i Hi Hi'. cbn in Hi'. apply list_elem_of_singleton in Hi'. subst i.
        apply Hin, Hseen, Hi.
      - cbn. apply NoDup_singleton. }
    destruct (IH _ _ Hseen' Hnodup') as (H1 & (new & Hnew & Hall) & H3).
    split; [exact H1|]. split.
    + exists (composeRoot dwEl el :: new). split.
      * rewrite Hnew, <- app_assoc. reflexivity.
      * constructor; [exists el; split; [left | reflexivity]|].
        eapply Forall_impl; [exact Hall|]. cbn. intros r (c & Hc & Hr).
        exists c. split; [right; exact Hc | exact Hr].
    + intros c Hc. apply elem_of_cons in Hc as [-> | Hc]; [|apply H3, Hc].
      rewrite Hnew, fmap_app. apply elem_of_app. left.
      rewrite fmap_app. apply elem_of_app. right. left.
Qed.

Lemma containsId_self (e : Element) : containsId e (nodeId e) = true.
Proof.
  unfold containsId. rewrite getNode_unfold, decide_True by reflexivity.
  apply bool_decide_eq_true. eexists. reflexivity.
Qed.

(** What [composeRoot] returns: the container, or the nearest [.nH] on the
    candidate's chain, which the container holds. *)
Lemma composeRoot_cases (dwEl : Element) (c : Located) :
  composeRoot dwEl c = dwEl
  \/ (hasClass "nH" (composeRoot dwEl c) = true
      /\ containsId dwEl (nodeId (composeRoot dwEl c)) = true
      /\ exists pre post,
          here c :: ancestors c = pre ++ composeRoot dwEl c :: post
          /\ Forall (fun x => hasClass "nH" x = false) pre).
Proof.
  unfold composeRoot, closest.
  pose proof (head_filter_split (hasClass "nH") (here c :: ancestors c)) as H.
  destruct (head (filter _ (here c :: ancestors c))) as [r|]; [|left; reflexivity].
  destruct (containsId dwEl (nodeId r)) eqn:Hc; [|left; reflexivity].
  right. destruct H as (pre & post & Hsplit & Hr & Hpre).
  split; [exact Hr|]. split; [exact Hc|]. exists pre, post. split; assumption.
Qed.

Lemma hostCandidates_elem (cands : list Located) (c : Located) :
  c ∈ hostCandidates cands <-> c ∈ cands /\ hasAttribute (here c) BTN_ATTR = false.
Proof. unfold hostCandidates. rewrite list_elem_of_filter. tauto. Qed.

(** The regions [findComposeWindows] returns for a popup container: no node
    twice; each one the root of a send candidate that is not synthetic, that
    is, the container itself or the nearest [.nH] on that candidate's
    ancestor chain (the candidate included), held by the container; the root
    of every such candidate is among them; and there is none exactly when
    every candidate is synthetic. *)
Theorem findComposeWindows_regions (dwEl : Located) :
  let regions := findComposeWindows dwEl in
  NoDup (nodeId <$> regions)
  /\ Forall (fun r =>
               containsId (here dwEl) (nodeId r) = true
               /\ exists c,
                   c ∈ sendCandidates dwEl
                   /\ hasAttribute (here c) BTN_ATTR = false
                   /\ r = composeRoot (here dwEl) c
                   /\ (r = here dwEl
                       \/ (hasClass "nH" r = true
                           /\ exists pre post,
                               here c :: ancestors c = pre ++ r :: post
                               /\ Forall (fun x => hasClass "nH" x = false) pre)))
            regions
  /\ (forall c, c ∈ sendCandidates dwEl -> hasAttribute (here c) BTN_ATTR = false ->
                nodeId (composeRoot (here dwEl) c) ∈ nodeId <$> regions)
  /\ (regions = []
      <-> Forall (fun c => hasAttribute (here c) BTN_ATTR = true) (sendCandidates dwEl)).
Proof.
  intros regions. subst regions. unfold findComposeWindows.
  destruct (composeRootsLoop_spec (here dwEl) (sendCandidates dwEl) ∅ [])
    as (Hnodup & (new & Hnew & Hall) & Hcomplete).
  { intros i. cbn. rewrite elem_of_empty. split; [tauto | intros H; inversion H]. }
  { constructor. }
  cbn [app] in Hnew.
  split; [exact Hnodup|]. split; [|split].
  - rewrite Hnew. eapply Forall_impl; [exact Hall|]. cbn.
    intros r (c & Hc & ->). apply hostCandidates_elem in Hc as [Hc Hsyn].
    destruct (composeRoot_cases (here dwEl) c) as [Hdw | (HnH & Hin & Hchain)].
    + split; [rewrite Hdw; apply containsId_self|].
      exists c. repeat split; try assumption. left. exact Hdw.
    + split; [exact Hin|]. exists c. repeat split; try assumption.
      right. split; assumption.
  - intros c Hc Hsyn. apply Hcomplete, hostCandidates_elem. split; assumption.
  - split.
    + intros Hnil. apply Forall_forall. intros c Hc.
      destruct (hasAttribute (here c) BTN_ATTR) eqn:Hsyn; [reflexivity|].
      pose proof (Hcomplete c (proj2 (hostCandidates_elem _ c) (conj Hc Hsyn))) as Hin.
      rewrite Hnil in Hin. inversion Hin.
    + intros Hsyn. rewrite composeRootsLoop_hostCandidates,
        (hostCandidates_all_synthetic _ Hsyn). reflexivity.
Qed.



Lemma descendants_child (e c x : Element) :
  c ∈ children e -> x ∈ subtree c -> x ∈ descendants e.
Proof.
  intros Hc Hx. rewrite descendants_unfold.
  apply list_elem_of_In, in_flat_map. exists c. split; [apply list_elem_of_In, Hc|].
  apply list_elem_of_In. exact Hx.
Qed.

Lemma descendants_trans (e a x : Element) :
  a ∈ descendants e -> x ∈ descendants a -> x ∈ descendants e.
Proof.
  induction e as [e IH] using Element_children_ind. intros Ha Hx.
  rewrite descendants_unfold in Ha.
  apply list_elem_of_In, in_flat_map in Ha as (c & Hc & Ha).
  apply list_elem_of_In in Hc. apply list_elem_of_In in Ha.
  apply (descendants_child e c); [exact Hc|].
  apply elem_of_cons in Ha as [-> | Ha]; [right; exact Hx|].
  right. rewrite Forall_forall in IH. apply (IH c Hc); assumption.
Qed.



Lemma getNodeAmong_elem (cs : list Element) (i : NodeId) (x : Element) :
  Forall (fun c => forall y, getNode c i = Some y -> y ∈ subtree c /\ nodeId y = i) cs ->
  getNodeAmong cs i = Some x ->
  exists c, c ∈ cs /\ x ∈ subtree c /\ nodeId x = i.
Proof.
  induction 1 as [|c cs Hc Hcs IH]; [discriminate|].
  rewrite getNodeAmong_cons. destruct (getNode c i) as [y|] eqn:Hy.
  - intros [= <-]. exists c. destruct (Hc y eq_refl). repeat split; [left | |]; assumption.
  - intros H. destruct (IH H) as (c' & Hc' & Hx). exists c'. split; [right|]; assumption.
Qed.

(** [getNode] returns a node of the tree with the identity asked for. *)
Lemma getNode_elem (e : Element) (i : NodeId) (x : Element) :
  getNode e i = Some x -> x ∈ subtree e /\ nodeId x = i.
Proof.
  revert x. induction e as [e IH] using Element_children_ind. intros x.
  rewrite getNode_unfold. destruct (decide (nodeId e = i)) as [He|He].
  - intros [= <-]. split; [left | exact He].
  - intros H. destruct (getNodeAmong_elem _ _ _ IH H) as (c & Hc & Hx & Hid).
    split; [apply (subtree_child e c); assumption | exact Hid].
Qed.





(** ** The main observer and the start of the script *)

Lemma head_filter_is_Some {A} (sel : A -> bool) (l : list A) :
  is_Some (head (filter (fun x => sel x = true) l))
  <-> exists x, x ∈ l /\ sel x = true.
Proof.
  pose proof (head_filter_split sel l) as H.
  destruct (head (filter _ l)) as [b|]; split.
  - intros _. destruct H as (pre & post & -> & Hb & _).
    exists b. split; [apply elem_of_app; right; left | exact Hb].
  - intros _. eexists. reflexivity.
  - intros [x Hx]. discriminate.
  - intros (x & Hx & Hsel). rewrite Forall_forall in H. rewrite (H x Hx) in Hsel.
    discriminate.
Qed.

Lemma nodeNeedsScan_iff (n : AddedNode) :
  nodeNeedsScan n = true <-> exists node, n = ElementNode node /\ inOrAroundPopup node.
Proof.
  destruct n as [|node]; cbn [nodeNeedsScan].
  { split; [discriminate | intros (node & Hn & _); discriminate]. }
  unfold getPopupComposeRoot, closest, querySelectorAll, inOrAroundPopup.
  rewrite orb_true_iff, !bool_decide_eq_true, !head_filter_is_Some.
  split.
  - intros H. exists node. split; [reflexivity | exact H].
  - intros (node' & [= <-] & H). exact H.
Qed.

Lemma needsScan_iff (mutations : list (list AddedNode)) :
  existsb (existsb nodeNeedsScan) mutations = true
  <-> exists record node,
      record ∈ mutations /\ ElementNode node ∈ record /\ inOrAroundPopup node.
Proof.
  rewrite existsb_exists. split.
  - intros (record & Hrec & Hex). apply existsb_exists in Hex as (n & Hn & Hneeds).
    apply nodeNeedsScan_iff in Hneeds as (node & -> & Hnode).
    exists record, node. rewrite !list_elem_of_In. repeat split; assumption.
  - intros (record & node & Hrec & Hn & Hnode). exists record.
    split; [apply list_elem_of_In, Hrec|]. apply existsb_exists.
    exists (ElementNode node). split; [apply list_elem_of_In, Hn|].
    apply nodeNeedsScan_iff. exists node. split; [reflexivity | exact Hnode].
Qed.

(** The callback of [mainObserver], in any state the script can reach.  If
    some added element of the batch lies in a [.dw] container, is one, or
    holds one, the callback makes one scheduling request, however many such
    nodes the batch reports: afterwards exactly one scan is pending, due
    300 ms later.  If no added element does (text nodes never count) the
    callback changes nothing. *)
Theorem mainObserver_schedules_one_scan
        (doc : Element) (idleApi : bool) (inputs : list Input)
        (mutations : list (list AddedNode)) :
  let w := run inputs (boot doc idleApi) in
  let w' := mainObserverCallback mutations w in
  ((exists record node,
       record ∈ mutations /\ ElementNode node ∈ record /\ inOrAroundPopup node) ->
   w' = scheduleScan 300 w
   /\ pendingScans w' = [mkTimer (nextId w) (now w + 300) CbScanAll]
   /\ dom w' = dom w)
  /\ (~ (exists record node,
            record ∈ mutations /\ ElementNode node ∈ record /\ inOrAroundPopup node) ->
      w' = w).
Proof.
  intros w w'. subst w'. unfold mainObserverCallback.
  assert (Hinv : scanInvariant w) by (apply scanInvariant_run, scanInvariant_boot).
  split.
  - intros Hex. apply needsScan_iff in Hex. rewrite Hex.
    split; [reflexivity|].
    destruct (scheduleScan_pending 300 w Hinv) as (Hp & _).
    split; [exact Hp|].
    unfold scheduleScan. destruct (scanTimer w); reflexivity.
  - intros Hno. destruct (existsb _ mutations) eqn:Hex; [|reflexivity].
    exfalso. apply Hno, needsScan_iff, Hex.
Qed.

(** The start of the script, with or without [requestIdleCallback].  The
    top level touches nothing: the observer is off, no scan is scheduled,
    and mutation records are ignored.  The first deferred closure (an idle
    period with the API, the first of two 6 s timers without it) switches
    the observer on; the second one schedules the initial scan with no
    delay, so that exactly one scan is pending, due at once.  The document
    is not changed by any of this. *)
Theorem script_start (doc d1 d2 : Element) (idleApi : bool)
        (mutations : list (list AddedNode)) :
  let tick := if idleApi then IdlePeriod else TimerFires in
  let w0 := boot doc idleApi in
  let w1 := run [HostMutation d1; tick] w0 in
  let w2 := run [HostMutation d2; tick] w1 in
  (mainObserving w0 = false /\ pendingScans w0 = [] /\ dom w0 = doc
   /\ step (MainRecords mutations) w0 = w0
   /\ (if idleApi
       then idleQueue w0 = [CbStartObserver; CbInitialScan] /\ timers w0 = []
       else idleQueue w0 = []
            /\ timers w0 = [mkTimer 0 6000 CbStartObserver; mkTimer 1 6000 CbInitialScan]))
  /\ (mainObserving w1 = true /\ pendingScans w1 = [] /\ dom w1 = d1)
  /\ (mainObserving w2 = true /\ dom w2 = d2
      /\ now w2 = (if idleApi then 0 else 6000)%Z
      /\ exists id, scanTimer w2 = Some id
                    /\ timers w2 = [mkTimer id (now w2) CbScanAll]
                    /\ idleQueue w2 = []).
Proof.
  destruct idleApi; cbv zeta.
  - split; [vm_compute; repeat split|].
    split; [vm_compute; repeat split|].
    vm_compute. repeat split. exists 0%nat. repeat split.
  - split; [vm_compute; repeat split|].
    split; [vm_compute; repeat split|].
    vm_compute. repeat split. exists 2%nat. repeat split.
Qed.

(** ** Nothing is sent or archived unasked *)

Lemma passive_same (w w' : World) :
  observers w' = observers w -> timers w' = timers w ->
  idleQueue w' = idleQueue w -> trace w' = trace w ->
  listeners w' = listeners w ->
  passive w -> passive w'.
Proof. unfold passive. intros -> -> -> -> ->. tauto. Qed.

Lemma passive_emit (e : Effect) (w : World) :
  passiveEffect e = true -> passive w -> passive (emit e w).
Proof.
  intros He (Ho & Ht & Hq & Htr & Hl). repeat split; try assumption.
  cbn. constructor; assumption.
Qed.

Lemma passive_setTimeout (cb : Callback) (d : Z) (w : World) :
  passiveCallback cb = true -> passive w -> passive (setTimeout cb d w).
Proof.
  intros Hcb (Ho & Ht & Hq & Htr & Hl). repeat split; try assumption.
  - cbn. apply Forall_app. split; [exact Ht|]. constructor; [exact Hcb | constructor].
  - cbn. constructor; [reflexivity | exact Htr].
Qed.

Lemma passive_clearTimeout (id : nat) (w : World) :
  passive w -> passive (clearTimeout id w).
Proof.
  intros (Ho & Ht & Hq & Htr & Hl). repeat split; try assumption.
  - cbn. apply Forall_forall. intros t Hin. apply list_elem_of_filter in Hin as [_ Hin].
    rewrite Forall_forall in Ht. apply Ht, Hin.
  - cbn. constructor; [reflexivity | exact Htr].
Qed.

Lemma passive_addEventListener (el : NodeId) (ty : string) (capture : bool)
      (h : Handler) (w : World) :
  listensForItsType (mkListener el ty capture h) = true ->
  passive w -> passive (addEventListener el ty capture h w).
Proof.
  intros Hty (Ho & Ht & Hq & Htr & Hl). repeat split; try assumption.
  - cbn. constructor; [reflexivity | exact Htr].
  - cbn. apply Forall_app. split; [exact Hl|]. constructor; [exact Hty | constructor].
Qed.

Lemma passive_setDom (d : Element) (w : World) : passive w -> passive (setDom d w).
Proof. apply passive_same; reflexivity. Qed.

Lemma passive_setNextId (n : nat) (w : World) : passive w -> passive (setNextId n w).
Proof. apply passive_same; reflexivity. Qed.

Lemma passive_setScanTimer (s : option nat) (w : World) :
  passive w -> passive (setScanTimer s w).
Proof. apply passive_same; reflexivity. Qed.

Lemma passive_setMainObserving (b : bool) (w : World) :
  passive w -> passive (setMainObserving b w).
Proof. apply passive_same; reflexivity. Qed.

(** Host calls and setters, peeled off one by one. *)
Ltac passive_calls :=
  repeat match goal with
         | H : passive ?w |- passive ?w => exact H
         | |- passive (emit _ _) => apply passive_emit; [reflexivity|]
         | |- passive (LOG _ _) => apply passive_emit; [reflexivity|]
         | |- passive (setTimeout _ _ _) => apply passive_setTimeout; [reflexivity|]
         | |- passive (addEventListener _ _ _ _ _) =>
             apply passive_addEventListener; [reflexivity|]
         | |- passive (setDom _ _) => apply passive_setDom
         | |- passive (setNextId _ _) => apply passive_setNextId
         | |- passive (setScanTimer _ _) => apply passive_setScanTimer
         | |- passive (setMainObserving _ _) => apply passive_setMainObserving
         end.

Lemma passive_injectButton (c : NodeId) (w : World) :
  passive w -> passive (injectButton c w).
Proof.
  intros Hp. unfold injectButton.
  destruct (getNode (dom w) c) as [el|]; [|exact Hp].
  destruct (hasAttribute el PROCESSED_ATTR); [exact Hp|].
  destruct (findSendButton el) as [sendBtn|]; [destruct (buildButtonThrows sendBtn)|];
    cbv zeta; unfold insertAdjacentElement, setAttribute; passive_calls.
Qed.

Lemma passive_tryInjectWithRetry (c : NodeId) (r : Z) (w : World) :
  passive w -> passive (tryInjectWithRetry c r w).
Proof.
  intros Hp. rewrite tryInjectWithRetry_cases.
  destruct (getNode (dom w) c) as [el|]; [|exact Hp].
  destruct (hasAttribute el PROCESSED_ATTR); [exact Hp|]. cbv zeta.
  destruct (findSendButton el).
  - apply passive_injectButton. passive_calls.
  - destruct (0 <? r)%Z; passive_calls.
Qed.

Lemma passive_scanAll (w : World) : passive w -> passive (scanAll w).
Proof.
  intros Hp. unfold scanAll. apply forEachContainer_invariant.
  - intros x c0 Hx. apply passive_tryInjectWithRetry. exact Hx.
  - passive_calls.
Qed.

Lemma passive_scheduleScan (delay : Z) (w : World) :
  passive w -> passive (scheduleScan delay w).
Proof.
  intros Hp. unfold scheduleScan.
  apply passive_setScanTimer, passive_setTimeout; [reflexivity|].
  destruct (scanTimer w); [apply passive_clearTimeout|]; exact Hp.
Qed.

Lemma passive_runCallback (cb : Callback) (w : World) :
  passiveCallback cb = true -> passive w -> passive (runCallback cb w).
Proof.
  intros Hcb Hp. destruct cb; try discriminate; cbn [runCallback].
  - apply passive_scanAll, Hp.
  - apply passive_tryInjectWithRetry, Hp.
  - cbv zeta. passive_calls.
  - apply passive_scheduleScan. passive_calls.
Qed.

Lemma runListeners_idle (run : Handler -> DomEvent -> World -> DomEvent * World)
      (hs : list Handler) (e : DomEvent) (w : World) :
  Forall (fun h => run h e w = (e, w)) hs ->
  runListeners run hs e w = (e, w).
Proof.
  unfold runListeners. induction 1 as [|h hs Hh Hhs IH]; [reflexivity|].
  cbn [fold_left fst snd]. rewrite Hh.
  destruct (propagationStopped e); exact IH.
Qed.

(** A listener of the script that is registered for its own event type
    does nothing on an event that cannot activate. *)
Lemma runListener_idle (l : Listener) (target : NodeId) (e : DomEvent) (w : World) :
  listensForItsType l = true -> eventType l = type e ->
  canActivate (UserEvent target e) = false ->
  runListener (handler l) e w = (e, w).
Proof.
  unfold listensForItsType, canActivate. intros Hty Htype Hcan. rewrite Htype in Hty.
  apply orb_false_elim in Hcan as [Hclick Hkey].
  destruct (handler l) as [c s|btn|c s]; cbn [runListener runClickListener].
  - rewrite Hty in Hkey. cbn [andb] in Hkey. apply orb_false_elim in Hkey as [Henter _].
    destruct (getNode (dom w) c); [|reflexivity].
    unfold onComposeKeydown. rewrite Henter. reflexivity.
  - rewrite Hty in Hkey. cbn [andb] in Hkey.
    unfold onButtonKeydown. rewrite Hkey. reflexivity.
  - congruence.
Qed.

Lemma dispatchEvent_idle (target : NodeId) (e : DomEvent) (w : World) :
  Forall (fun l => listensForItsType l = true) (listeners w) ->
  canActivate (UserEvent target e) = false ->
  dispatchEvent target e w = (e, w).
Proof.
  intros Hl Hcan. unfold dispatchEvent.
  destruct (getLocated (dom w) target) as [l|]; [|reflexivity].
  apply runListeners_idle. apply Forall_forall. intros h Hh.
  assert (Hfrom : exists x, x ∈ listeners w /\ eventType x = type e /\ handler x = h).
  { apply elem_of_app in Hh as [Hh | Hh];
      apply list_elem_of_In, in_flat_map in Hh as (n & _ & Hh);
      apply list_elem_of_In in Hh; unfold listenersOn in Hh;
      apply list_elem_of_fmap in Hh as (x & -> & Hx);
      apply list_elem_of_filter in Hx as [(_ & Hty & _) Hx];
      exists x; repeat split; assumption. }
  destruct Hfrom as (x & Hx & Hty & <-).
  rewrite Forall_forall in Hl.
  apply (runListener_idle x target); [apply Hl, Hx | exact Hty | exact Hcan].
Qed.

Lemma passive_step (i : Input) (w : World) :
  canActivate i = false -> passive w -> passive (step i w).
Proof.
  intros Hi Hp. destruct i; cbn [step].
  - apply passive_setDom, Hp.
  - destruct Hp as (Ho & Hrest). rewrite Ho. cbn. split; assumption.
  - destruct (mainObserving w); [|exact Hp]. unfold mainObserverCallback.
    destruct (existsb _ mutations); [apply passive_scheduleScan|]; exact Hp.
  - destruct (earliest (timers w)) as [t|] eqn:Ht; [|exact Hp].
    pose proof Hp as (Ho & Hts & Hq & Htr & Hl).
    apply passive_runCallback.
    + rewrite Forall_forall in Hts. apply Hts. apply earliest_elem. exact Ht.
    + repeat split; try assumption. cbn.
      apply Forall_forall. intros x Hx. apply list_elem_of_filter in Hx as [_ Hx].
      rewrite Forall_forall in Hts. apply Hts, Hx.
  - destruct (idleQueue w) as [|cb q] eqn:Hq; [exact Hp|].
    pose proof Hp as (Ho & Hts & Hqs & Htr & Hl). rewrite Hq in Hqs.
    apply Forall_cons in Hqs as [Hcb Hqs].
    apply passive_runCallback; [exact Hcb|].
    repeat split; assumption.
  - pose proof Hp as (_ & _ & _ & _ & Hl).
    rewrite (dispatchEvent_idle target e w Hl Hi). exact Hp.
Qed.

Lemma passive_boot (doc : Element) (idleApi : bool) : passive (boot doc idleApi).
Proof.
  destruct idleApi; unfold passive; vm_compute; repeat split; repeat constructor.
Qed.

Lemma passive_run (inputs : list Input) (w : World) :
  Forall (fun i => canActivate i = false) inputs -> passive w -> passive (run inputs w).
Proof.
  revert w. induction inputs as [|i inputs IH]; intros w Hall Hp; [exact Hp|].
  apply Forall_cons in Hall as [Hi Hall].
  cbn [run fold_left]. apply IH; [exact Hall|]. apply passive_step; assumption.
Qed.

Lemma omap_passive {B} (f : Z * Effect -> option B) (tr : list (Z * Effect)) :
  (forall x, passiveEffect (snd x) = true -> f x = None) ->
  Forall (fun x => passiveEffect (snd x) = true) tr ->
  omap f tr = [].
Proof.
  intros Hf. induction 1 as [|x tr Hx Htr IH]; [reflexivity|].
  rewrite omap_cons_eq, (Hf x Hx). exact IH.
Qed.

(** The script sends and archives only when asked.  As long as the user
    neither clicks nor presses Enter or the space bar, whatever else is
    typed, whatever the host does to the document and however timers, idle
    periods and mutation records follow one another, the script dispatches
    no event, calls [click()] on nothing, shows no notification, makes no
    archive attempt, connects no removal observer and has no closure
    pending other than scans, injection retries and its two start
    closures. *)
Theorem nothing_activated_unasked
        (doc : Element) (idleApi : bool) (inputs : list Input) :
  Forall (fun i => canActivate i = false) inputs ->
  let w := run inputs (boot doc idleApi) in
  dispatched (trace w) = []
  /\ (forall el, clickCalls el (trace w) = 0%nat)
  /\ toastsShown (trace w) = []
  /\ archiveAttempts (trace w) = []
  /\ observers w = []
  /\ Forall (fun t => passiveCallback (callback t) = true) (timers w)
  /\ Forall (fun cb => passiveCallback cb = true) (idleQueue w).
Proof.
  intros Hall w.
  destruct (passive_run inputs (boot doc idleApi) Hall (passive_boot doc idleApi))
    as (Ho & Ht & Hq & Htr & _).
  fold w in Ho, Ht, Hq, Htr.
  assert (Hrev : Forall (fun x => passiveEffect (snd x) = true) (rev (trace w))).
  { apply Forall_forall. intros x Hx. rewrite Forall_forall in Htr. apply Htr.
    apply list_elem_of_In. apply in_rev. apply list_elem_of_In. exact Hx. }
  split; [|split; [|split; [|split; [|split; [|split]]]]]; try assumption.
  - apply omap_passive; [|exact Hrev].
    intros [t e]; cbn. destruct e; try reflexivity; discriminate.
  - intros el. unfold clickCalls. rewrite omap_passive; [reflexivity | | exact Htr].
    intros [t e]; cbn. destruct e; try reflexivity; discriminate.
  - apply omap_passive; [|exact Hrev].
    intros [t e]; cbn. destruct e; try reflexivity; discriminate.
  - apply omap_passive; [|exact Hrev].
    intros [t e]; cbn. destruct e as [m| | | | | | | | | | | | |]; try reflexivity.
    destruct m; try reflexivity; discriminate.
Qed.

Lemma nothing_activated_unasked_witness :
  dispatched
    (trace (run [IdlePeriod; IdlePeriod; TimerFires;
                 UserEvent 12 (Sample.keydown "a" false false false)]
                (boot Scene.popupPage true))) = [].
Proof.
  apply (nothing_activated_unasked Scene.popupPage true
           [IdlePeriod; IdlePeriod; TimerFires;
            UserEvent 12 (Sample.keydown "a" false false false)]).
  repeat constructor.
Defined.

(** ** The listeners *)

Lemma runListeners_stopped (run : Handler -> DomEvent -> World -> DomEvent * World)
      (hs : list Handler) (ew : DomEvent * World) :
  propagationStopped (fst ew) = true ->
  fold_left (fun ew h => if propagationStopped (fst ew) then ew
                         else run h (fst ew) (snd ew)) hs ew = ew.
Proof.
  intros Hstop. induction hs as [|h hs IH]; [reflexivity|].
  cbn [fold_left]. rewrite Hstop. exact IH.
Qed.

(** Keyboard support on the injected button.  On Enter or the space bar the
    button's [keydown] listener prevents the default action, without
    stopping propagation, and calls [click()] on the button, which runs the
    [click] listener the injector registered: the world is then the one a
    click leaves.  On any other key the listener does nothing. *)
Theorem onButtonKeydown_clicks
        (btn composeEl sendBtn : NodeId) (el : Element) (e : DomEvent) (w : World) :
  listenersOn w btn "click" false = [OnButtonClick composeEl sendBtn] ->
  getNode (dom w) composeEl = Some el ->
  (key e = "Enter" \/ key e = " " ->
   onButtonKeydown btn e w
   = (preventDefault e, snd (onButtonClick el sendBtn clickEvent (emit (Click btn) w)))
   /\ snd (onButtonKeydown btn e w)
      = triggerSendAndArchive el sendBtn (LOG LogButtonClicked (emit (Click btn) w))
   /\ propagationStopped (fst (onButtonKeydown btn e w)) = propagationStopped e)
  /\ (key e <> "Enter" -> key e <> " " -> onButtonKeydown btn e w = (e, w)).
Proof.
  intros Hls Hnode. unfold onButtonKeydown. split.
  - intros Hkey.
    assert (Hk : String.eqb (key e) "Enter" || String.eqb (key e) " " = true).
    { destruct Hkey as [-> | ->]; reflexivity. }
    rewrite Hk.
    change (listenersOn (emit (Click btn) w) btn "click" false)
      with (listenersOn w btn "click" false).
    rewrite Hls. unfold runListeners. cbn [fold_left fst snd clickEvent propagationStopped].
    cbn [runClickListener]. change (dom (emit (Click btn) w)) with (dom w).
    rewrite Hnode. repeat split.
  - intros H1 H2. apply String.eqb_neq in H1, H2. rewrite H1, H2. reflexivity.
Qed.

Lemma onButtonKeydown_clicks_witness :
  fst (onButtonKeydown 100 (Sample.keydown " " false false false) Scene.injected)
  = preventDefault (Sample.keydown " " false false false).
Proof.
  destruct (getNode (dom Scene.injected) 11) as [el|] eqn:Hnode;
    [|vm_compute in Hnode; discriminate].
  assert (Hls : listenersOn Scene.injected 100 "click" false = [OnButtonClick 11 12])
    by (vm_compute; reflexivity).
  destruct (onButtonKeydown_clicks 100 11 12 el (Sample.keydown " " false false false)
              Scene.injected Hls Hnode) as [Hkey _].
  destruct (Hkey (or_intror eq_refl)) as (Heq & _). rewrite Heq. reflexivity.
Defined.

(** One activation per event.  The capture-phase listener of a region, on
    Ctrl+Shift+Enter, and the click listener of the injected button both
    stop the event at once: whatever listeners of the script would come
    after them (the button's own [keydown] listener, when the chord is
    pressed with the focus on the button) do not run, so the sequencer is
    invoked once. *)
Theorem listeners_activate_once
        (composeEl sendBtn : NodeId) (el : Element) (rest : list Handler)
        (e : DomEvent) (w : World) :
  getNode (dom w) composeEl = Some el ->
  propagationStopped e = false ->
  (key e = "Enter" -> ctrlKey e = true -> shiftKey e = true ->
   runListeners runListener (OnComposeKeydown composeEl sendBtn :: rest) e w
   = (stopImmediatePropagation (preventDefault e),
      triggerSendAndArchive el sendBtn (LOG LogChordIntercepted w)))
  /\ runListeners runListener (OnButtonClick composeEl sendBtn :: rest) e w
     = (stopImmediatePropagation (preventDefault e),
        triggerSendAndArchive el sendBtn (LOG LogButtonClicked w)).
Proof.
  intros Hnode Hgo. unfold runListeners. cbn [fold_left fst snd]. rewrite Hgo.
  cbn [runListener runClickListener]. rewrite Hnode. split.
  - intros Hk Hc Hs. unfold onComposeKeydown. rewrite Hk, Hc, Hs. cbn [String.eqb andb].
    change (String.eqb "Enter" "Enter") with true. cbn [andb].
    apply runListeners_stopped. reflexivity.
  - unfold onButtonClick. apply runListeners_stopped. reflexivity.
Qed.

Lemma listeners_activate_once_witness :
  fst (runListeners runListener [OnComposeKeydown 11 12; OnButtonKeydown 100]
                    (Sample.keydown "Enter" true true false)
                    (Scene.calm Scene.popupPage true))
  = stopImmediatePropagation (preventDefault (Sample.keydown "Enter" true true false)).
Proof.
  assert (Hnode : getNode (dom (Scene.calm Scene.popupPage true)) 11
                  = Some Sample.plainCompose) by (vm_compute; reflexivity).
  destruct (listeners_activate_once 11 12 Sample.plainCompose [OnButtonKeydown 100]
              (Sample.keydown "Enter" true true false)
              (Scene.calm Scene.popupPage true) Hnode eq_refl) as [Hchord _].
  rewrite (Hchord eq_refl eq_refl eq_refl). reflexivity.
Defined.

(** ** The fallback path *)

Lemma filter_other_observer (o : nat) (os : list Observer) (ob : Observer) :
  ob ∈ os -> observerId ob <> o ->
  ob ∈ filter (fun x => observerId x <> o) os.
Proof. intros Hin Hne. apply list_elem_of_filter. split; assumption. Qed.

(** Each popup has an archive lifecycle of its own.  When the records
    delivered to the watcher of one removed region fire its callback, that
    watcher alone is disconnected and one timer is added, the 2 s grace
    delay before the archive sequence: the watchers of other regions stay
    connected, and no pending timer, another region's grace delay or
    archive retry among them, is cleared. *)
Theorem removal_watchers_are_independent (ob : Observer) (w : World) :
  head (filter (fun x => observerId x = observerId ob) (observers w)) = Some ob ->
  onRemoved ob = CbComposeClosed ->
  containsId (dom w) (watched ob) = false ->
  let w' := step (RemovalRecords (observerId ob)) w in
  observers w' = filter (fun x => observerId x <> observerId ob) (observers w)
  /\ (forall other, other ∈ observers w -> observerId other <> observerId ob ->
                    other ∈ observers w')
  /\ timers w' = timers w ++ [mkTimer (nextId w) (now w + 2000) CbArchive]
  /\ dom w' = dom w.
Proof.
  intros Hob Hcb Hgone w'. subst w'. cbn [step]. rewrite Hob.
  unfold removalObserverCallback. rewrite Hgone, Hcb. cbn [negb].
  split; [reflexivity|]. split; [|split; reflexivity].
  intros other Hin Hne. apply filter_other_observer; assumption.
Qed.

Lemma removal_watchers_are_independent_witness :
  mkObserver 101 21 CbComposeClosed
  ∈ observers (step (RemovalRecords 100) Scene.twoWatchers).
Proof.
  destruct (removal_watchers_are_independent (mkObserver 100 11 CbComposeClosed)
              Scene.twoWatchers) as (_ & Hothers & _);
    [vm_compute; reflexivity | reflexivity | vm_compute; reflexivity |].
  apply (Hothers (mkObserver 101 21 CbComposeClosed)); [right; left | discriminate].
Defined.











(** ** The notification *)








(** ** Where the control is put *)

Lemma firstSendIn_elem (attr : string) (els : list Element) (el : Element) :
  firstSendIn attr els = Some el -> el ∈ els.
Proof.
  induction els as [|x els IH]; cbn [firstSendIn]; [discriminate|].
  destruct (hasAttribute x BTN_ATTR); [intros H; right; apply IH, H|].
  destruct (acceptsSendText _); [intros [= <-]; left | intros H; right; apply IH, H].
Qed.

(** What [findSendButton] returns is a strict descendant of the region. *)
Lemma findSendButton_descendant (region el : Element) :
  findSendButton region = Some el -> el ∈ descendants region.
Proof.
  unfold findSendButton, querySelectorAll.
  destruct (firstSendIn "data-tooltip" _) as [x|] eqn:Hx.
  - intros [= <-]. apply firstSendIn_elem in Hx.
    apply list_elem_of_filter in Hx as [_ Hx]. exact Hx.
  - intros H. apply firstSendIn_elem in H.
    apply list_elem_of_filter in H as [_ H]. exact H.
Qed.

Lemma descendants_subtree (e x : Element) :
  x ∈ subtree e -> forall y, y ∈ descendants x -> y ∈ descendants e.
Proof.
  intros Hx y Hy. apply elem_of_cons in Hx as [-> | Hx]; [exact Hy|].
  apply (descendants_trans e x); assumption.
Qed.

(** [updateNode] with a function that keeps identity and children keeps
    the identities of the tree, in order. *)
Lemma descendants_updateNode (i : NodeId) (f : Element -> Element) (e : Element) :
  (forall x, nodeId (f x) = nodeId x) -> (forall x, children (f x) = children x) ->
  nodeId <$> descendants (updateNode i f e) = nodeId <$> descendants e.
Proof.
  intros Hid Hch. induction e as [e IH] using Element_children_ind.
  rewrite updateNode_unfold. destruct (decide (nodeId e = i)).
  - rewrite (descendants_unfold (f e)), Hch, <- descendants_unfold. reflexivity.
  - rewrite descendants_unfold, (descendants_unfold e). cbn [children].
    induction IH as [|c cs Hc Hcs IHcs]; [reflexivity|].
    cbn [map flat_map]. rewrite !fmap_app, !fmap_cons, Hc, IHcs.
    do 2 f_equal. rewrite updateNode_unfold.
    destruct (decide (nodeId c = i)); [apply Hid | reflexivity].
Qed.

(** If some strict descendant has the identity [ref], the new node is in
    the tree after [insertAfterNode]. *)
Lemma insertAfterNode_present (ref : NodeId) (new e : Element) :
  ref ∈ nodeId <$> descendants e ->
  new ∈ descendants (insertAfterNode ref new e).
Proof.
  induction e as [e IH] using Element_children_ind.
  rewrite insertAfterNode_unfold, (descendants_unfold e), descendants_unfold.
  cbn [children].
  induction IH as [|c cs Hc Hcs IHcs]; [intros H; inversion H|].
  cbn [flat_map]. rewrite fmap_app, fmap_cons, insertAmong_cons. cbn [flat_map].
  intros Hin. apply elem_of_app in Hin as [Hin | Hin].
  - apply elem_of_cons in Hin as [Href | Hin].
    + rewrite decide_True by (symmetry; exact Href).
      apply elem_of_app. right. cbn [flat_map]. left.
    + apply elem_of_app. left. right. apply Hc, Hin.
  - apply elem_of_app. right.
    destruct (decide (nodeId c = ref)); [cbn [flat_map]; right; apply elem_of_app; right|];
      apply IHcs, Hin.
Qed.

(** In a list of children after [insertAmong], every node with the identity
    [ref] is followed at once by the new node. *)
Lemma insertAmong_follows (ref : NodeId) (new : Element) (cs : list Element) :
  nodeId new <> ref ->
  forall pre x rest,
    insertAmong ref new cs = pre ++ x :: rest -> nodeId x = ref ->
    exists rest', rest = new :: rest'.
Proof.
  intros Hnew. induction cs as [|c cs IH]; intros pre x rest Hsplit Hx.
  { destruct pre; discriminate. }
  rewrite insertAmong_cons in Hsplit.
  assert (Hid : nodeId (insertAfterNode ref new c) = nodeId c)
    by (rewrite insertAfterNode_unfold; reflexivity).
  destruct pre as [|p pre]; cbn [app] in Hsplit.
  - injection Hsplit as <- Hrest. rewrite Hid in Hx.
    rewrite decide_True in Hrest by exact Hx. eexists. symmetry. exact Hrest.
  - injection Hsplit as _ Hrest.
    destruct (decide (nodeId c = ref)); [|apply (IH pre x rest); assumption].
    destruct pre as [|q pre]; cbn [app] in Hrest.
    + injection Hrest as <- _. contradiction.
    + injection Hrest as _ Hrest. apply (IH pre x rest); assumption.
Qed.

Lemma insertAfterNode_follows (ref : NodeId) (new e : Element) :
  nodeId new <> ref -> children new = [] ->
  forall p, p ∈ subtree (insertAfterNode ref new e) ->
            forall pre x rest,
              children p = pre ++ x :: rest -> nodeId x = ref ->
              exists rest', rest = new :: rest'.
Proof.
  intros Hnew Hleaf. induction e as [e IH] using Element_children_ind.
  intros p Hp. apply elem_of_cons in Hp as [-> | Hp].
  { rewrite insertAfterNode_unfold. cbn [children]. apply insertAmong_follows, Hnew. }
  rewrite insertAfterNode_unfold, descendants_unfold in Hp. cbn [children] in Hp.
  induction IH as [|c cs Hc Hcs IHcs]; [inversion Hp|].
  rewrite insertAmong_cons in Hp. cbn [flat_map] in Hp.
  change (insertAfterNode ref new c :: descendants (insertAfterNode ref new c) ++ ?l)
    with (subtree (insertAfterNode ref new c) ++ l) in Hp.
  apply elem_of_app in Hp as [Hp | Hp]; [apply Hc, Hp|].
  destruct (decide (nodeId c = ref)); [|apply IHcs, Hp].
  cbn [flat_map] in Hp. rewrite (descendants_unfold new), Hleaf in Hp.
  cbn [flat_map app] in Hp.
  apply elem_of_cons in Hp as [-> | Hp]; [|apply IHcs, Hp].
  intros pre x rest Hsplit. rewrite Hleaf in Hsplit. destruct pre; discriminate.
Qed.

(** On the injecting path, when the send button is an HTML element so that
    [buildButton] returns, the control ends up in the document, as the next
    sibling of the send button: in the document after [injectButton], the
    built control is a node of the tree, and wherever a node with the send
    button's identity stands among the children of its parent, the control
    is the node right after it.  The three listeners are registered in this
    order: the capture-phase [keydown] listener on the region, then the
    [keydown] and the [click] listener on the control. *)
Theorem injectButton_puts_control_after_send_button
        (c : NodeId) (w : World) (el sendBtn : Element) :
  getNode (dom w) c = Some el ->
  hasAttribute el PROCESSED_ATTR = false ->
  findSendButton el = Some sendBtn ->
  buildButtonThrows sendBtn = false ->
  nextId w <> nodeId sendBtn ->
  let btn := buildButton (nextId w) sendBtn in
  let w' := injectButton c w in
  btn ∈ descendants (dom w')
  /\ (forall p pre x rest,
         p ∈ subtree (dom w') -> children p = pre ++ x :: rest ->
         nodeId x = nodeId sendBtn ->
         exists rest', rest = btn :: rest')
  /\ listeners w'
     = listeners w
         ++ [mkListener c "keydown" true (OnComposeKeydown c (nodeId sendBtn));
             mkListener (nextId w) "keydown" false (OnButtonKeydown (nextId w));
             mkListener (nextId w) "click" false (OnButtonClick c (nodeId sendBtn))].
Proof.
  intros Hnode Hproc Hsend Hhtml Hfresh btn w'.
  assert (Hdom : dom w' = insertAfterNode (nodeId sendBtn) btn
                            (updateNode c (withAttribute PROCESSED_ATTR "true") (dom w))).
  { subst w'. unfold injectButton. rewrite Hnode, Hproc, Hsend, Hhtml. reflexivity. }
  assert (Hls : listeners w'
                = listeners w
                    ++ [mkListener c "keydown" true (OnComposeKeydown c (nodeId sendBtn));
                        mkListener (nextId w) "keydown" false (OnButtonKeydown (nextId w));
                        mkListener (nextId w) "click" false
                                   (OnButtonClick c (nodeId sendBtn))]).
  { subst w'. unfold injectButton. rewrite Hnode, Hproc, Hsend, Hhtml. cbn.
    rewrite <- !app_assoc. reflexivity. }
  clearbody w'. rewrite Hdom. split; [|split; [|exact Hls]].
  - apply insertAfterNode_present.
    rewrite descendants_updateNode by reflexivity.
    apply list_elem_of_fmap_2.
    apply getNode_elem in Hnode as [Hel _].
    apply (descendants_subtree (dom w) el Hel).
    apply findSendButton_descendant. exact Hsend.
  - intros p pre x rest Hp.
    exact (insertAfterNode_follows (nodeId sendBtn) btn _ Hfresh eq_refl p Hp pre x rest).
Qed.

Lemma injectButton_puts_control_after_send_button_witness :
  buildButton 100 Scene.sendButton ∈ descendants (dom Scene.injected).
Proof.
  destruct (injectButton_puts_control_after_send_button 11
              (Scene.calm Scene.popupPage true) Sample.plainCompose Scene.sendButton)
    as (Hin & _);
    [vm_compute; reflexivity | vm_compute; reflexivity | vm_compute; reflexivity
     | reflexivity | discriminate |].
  exact Hin.
Defined.

(** ** Scans *)

Lemma forEachRegion_fixed (regions : list NodeId) (w : World) :
  (forall c, c ∈ regions ->
             tryInjectWithRetry c 6 w = w /\ tryInjectWithRetryThrows c w = false) ->
  forEachRegion regions w = (w, false).
Proof.
  induction regions as [|c rest IH]; intros H; [reflexivity|].
  cbn [forEachRegion]. destruct (H c) as [Hw Ht]; [left|].
  rewrite Ht, Hw. apply IH. intros c' Hc'. apply H. right. exact Hc'.
Qed.

Lemma forEachContainer_fixed (dwEls : list NodeId) (w : World) :
  (forall dw l, dw ∈ dwEls -> getLocated (dom w) dw = Some l ->
                forEachRegion (map nodeId (findComposeWindows l)) w = (w, false)) ->
  forEachContainer dwEls w = w.
Proof.
  induction dwEls as [|dw rest IH]; intros H; [reflexivity|].
  cbn [forEachContainer].
  assert (Hrest : forEachContainer rest w = w).
  { apply IH. intros dw' l Hdw'. apply H. right. exact Hdw'. }
  destruct (getLocated (dom w) dw) as [l|] eqn:Hl; [|exact Hrest].
  rewrite (H dw l (list_elem_of_here dw rest) Hl). exact Hrest.
Qed.

Lemma tryInjectWithRetry_processed (c : NodeId) (r : Z) (w : World) (el : Element) :
  getNode (dom w) c = Some el -> hasAttribute el PROCESSED_ATTR = true ->
  tryInjectWithRetry c r w = w /\ tryInjectWithRetryThrows c w = false.
Proof.
  intros Hn Hp. rewrite tryInjectWithRetry_cases. unfold tryInjectWithRetryThrows.
  rewrite Hn, Hp. split; reflexivity.
Qed.

(** A scan of a settled page changes nothing.  If every region that
    [findComposeWindows] reports in every [.dw] container of the document
    bears the processed marker, [scanAll] clears [scanTimer], logs the
    number of containers and leaves everything else, document, timers and
    listeners, as it was. *)
Theorem scanAll_settled (w : World) :
  (forall dw l r,
      dw ∈ documentQuerySelectorAll (dom w) (hasClass "dw") ->
      getLocated (dom w) (nodeId dw) = Some l ->
      r ∈ findComposeWindows l ->
      exists el, getNode (dom w) (nodeId r) = Some el
                 /\ hasAttribute el PROCESSED_ATTR = true) ->
  scanAll w
  = LOG (LogScanAll (length (documentQuerySelectorAll (dom w) (hasClass "dw"))))
        (setScanTimer None w).
Proof.
  intros Hall. unfold scanAll. cbv zeta.
  change (dom (setScanTimer None w)) with (dom w). rewrite length_map.
  remember (LOG _ (setScanTimer None w)) as w0 eqn:Hw0.
  assert (Hdom : dom w0 = dom w) by (rewrite Hw0; reflexivity). clear Hw0.
  apply forEachContainer_fixed. intros i l Hi Hl.
  apply list_elem_of_fmap in Hi as (dw & -> & Hdw).
  rewrite Hdom in Hl.
  apply forEachRegion_fixed. intros c Hc.
  apply list_elem_of_fmap in Hc as (r & -> & Hr).
  destruct (Hall dw l r Hdw Hl Hr) as (el & Hnode & Hproc).
  apply (tryInjectWithRetry_processed _ _ _ el); [rewrite Hdom; exact Hnode | exact Hproc].
Qed.

Lemma scanAll_settled_witness :
  scanAll (Scene.calm (Sample.page [Sample.injectedCompose]) true)
  = LOG (LogScanAll 1)
        (setScanTimer None (Scene.calm (Sample.page [Sample.injectedCompose]) true)).
Proof.
  apply (scanAll_settled (Scene.calm (Sample.page [Sample.injectedCompose]) true)).
  intros dw l r Hdw Hl Hr.
  change (dw ∈ [mkElement 2 "div" "dw" ∅ [Sample.injectedCompose]]) in Hdw.
  apply list_elem_of_singleton in Hdw. subst dw.
  vm_compute in Hl. injection Hl as <-.
  assert (Hregions : findComposeWindows
                       (mkLocated (mkElement 2 "div" "dw" ∅ [Sample.injectedCompose])
                                  [Sample.page [Sample.injectedCompose]])
                     = [Sample.injectedCompose]) by (vm_compute; reflexivity).
  change (r ∈ findComposeWindows
                (mkLocated (mkElement 2 "div" "dw" ∅ [Sample.injectedCompose])
                           [Sample.page [Sample.injectedCompose]])) in Hr.
  rewrite Hregions in Hr. apply list_elem_of_singleton in Hr. subst r.
  exists Sample.injectedCompose. split; vm_compute; reflexivity.
Defined.

(** [scanAll] on a document with one popup container and one region. *)
Lemma scanAll_single (w : World) (dw : Element) (l : Located) (r : Element) :
  documentQuerySelectorAll (dom w) (hasClass "dw") = [dw] ->
  getLocated (dom w) (nodeId dw) = Some l ->
  findComposeWindows l = [r] ->
  scanAll w = tryInjectWithRetry (nodeId r) 6 (LOG (LogScanAll 1) (setScanTimer None w)).
Proof.
  intros Hdw Hl Hr. unfold scanAll. cbv zeta.
  change (dom (setScanTimer None w)) with (dom w). rewrite Hdw.
  cbn [map length forEachContainer].
  change (dom (LOG (LogScanAll 1) (setScanTimer None w))) with (dom w).
  rewrite Hl, Hr. cbn [map forEachRegion].
  destruct (tryInjectWithRetryThrows _ _); reflexivity.
Qed.

Lemma insertions_cons (x : Z * Effect) (tr : list (Z * Effect)) :
  insertions (x :: tr)
  = insertions tr ++ match snd x with
                     | InsertAfter ref new => [(ref, new)]
                     | _ => []
                     end.
Proof.
  change (x :: tr) with ([x] ++ tr). rewrite insertions_app. f_equal.
  unfold insertions. cbn. destruct (snd x); reflexivity.
Qed.

(** A popup appears and gets its control.  The observer is running and no
    timer is pending; the host shows a document with one popup container
    holding one region, not processed, whose send button is rendered and is
    an HTML element, and the records of that change reach the observer.
    Then 300 ms later the scan runs and injects: one control is inserted
    after the send button, the region bears the processed marker, and no
    injection retry is pending.  The browser reports the inserted control,
    an added node inside the container, to the observer when that task
    ends: once records with a node in or around a popup container arrive,
    one further scan is pending, 300 ms later, and nothing else. *)
Theorem popup_gets_its_control
        (w : World) (d : Element) (mutations : list (list AddedNode))
        (dw : Element) (l : Located) (r el s : Element) :
  mainObserving w = true -> timers w = [] -> scanTimer w = None ->
  (exists record node,
      record ∈ mutations /\ ElementNode node ∈ record /\ inOrAroundPopup node) ->
  documentQuerySelectorAll d (hasClass "dw") = [dw] ->
  getLocated d (nodeId dw) = Some l ->
  findComposeWindows l = [r] ->
  getNode d (nodeId r) = Some el ->
  hasAttribute el PROCESSED_ATTR = false ->
  findSendButton el = Some s ->
  buildButtonThrows s = false ->
  S (nextId w) <> nodeId r ->
  let w' := run [HostMutation d; MainRecords mutations; TimerFires] w in
  now w' = (now w + 300)%Z
  /\ insertions (trace w') = insertions (trace w) ++ [(nodeId s, S (nextId w))]
  /\ (exists el', getNode (dom w') (nodeId r) = Some el'
                  /\ hasAttribute el' PROCESSED_ATTR = true)
  /\ pendingInject w' = []
  /\ forall batch,
       (exists record node,
           record ∈ batch /\ ElementNode node ∈ record /\ inOrAroundPopup node) ->
       let w'' := step (MainRecords batch) w' in
       timers w'' = [mkTimer (S (S (nextId w))) (now w + 600) CbScanAll]
       /\ scanTimer w'' = Some (S (S (nextId w))).
Proof.
  intros Hon Hidle Hnoscan Hneeds Hdw Hl Hr Hnode Hproc Hsend Hhtml Hfresh.
  cbv zeta. cbn [run fold_left]. change (step (HostMutation d) w) with (setDom d w).
  cbn [step]. change (mainObserving (setDom d w)) with (mainObserving w). rewrite Hon.
  unfold mainObserverCallback. rewrite (proj2 (needsScan_iff mutations) Hneeds).
  unfold scheduleScan. change (scanTimer (setDom d w)) with (scanTimer w). rewrite Hnoscan.
  remember (setScanTimer _ (setTimeout CbScanAll 300 (setDom d w))) as w1 eqn:Hw1.
  assert (Ht1 : timers w1 = [mkTimer (nextId w) (now w + 300) CbScanAll]).
  { rewrite Hw1. cbn. rewrite Hidle. reflexivity. }
  assert (Hn1 : now w1 = now w) by (rewrite Hw1; reflexivity).
  assert (Hi1 : nextId w1 = S (nextId w)) by (rewrite Hw1; reflexivity).
  assert (Hd1 : dom w1 = d) by (rewrite Hw1; reflexivity).
  assert (Htr1 : insertions (trace w1) = insertions (trace w)).
  { rewrite Hw1. cbn [setScanTimer setTimeout emit setTrace setNextId setTimers setDom trace].
    rewrite insertions_cons. cbn [snd]. rewrite app_nil_r. reflexivity. }
  assert (Hm0 : mainObserving w1 = true) by (rewrite Hw1; exact Hon).
  clear Hw1.
  rewrite Ht1. cbn [earliest callback due timerId].
  rewrite filter_cons, decide_False by (intros Hne; apply Hne; reflexivity).
  rewrite filter_nil. cbn [runCallback]. rewrite Hn1.
  replace (Z.max (now w) (now w + 300)) with (now w + 300)%Z by lia.
  remember (setNow (now w + 300) (setTimers [] w1)) as v eqn:Hv.
  assert (Htv : timers v = []) by (rewrite Hv; reflexivity).
  assert (Hnv : now v = (now w + 300)%Z) by (rewrite Hv; reflexivity).
  assert (Hiv : nextId v = S (nextId w)) by (rewrite Hv; exact Hi1).
  assert (Hdv : dom v = d) by (rewrite Hv; exact Hd1).
  assert (Htrv : insertions (trace v) = insertions (trace w)) by (rewrite Hv; exact Htr1).
  assert (Hmv : mainObserving v = true) by (rewrite Hv; exact Hm0).
  clear Hv Ht1 Hn1 Hi1 Hd1 Htr1 Hm0 w1.
  rewrite <- Hdv in Hdw, Hl, Hnode.
  rewrite (scanAll_single v dw l r Hdw Hl Hr), tryInjectWithRetry_cases.
  remember (LOG (LogScanAll 1) (setScanTimer None v)) as v0 eqn:Hv0.
  assert (Hd0 : dom v0 = dom v) by (rewrite Hv0; reflexivity).
  rewrite Hd0, Hnode, Hproc, Hsend. cbv zeta.
  remember (emit (FindSendButton ByTryInjectWithRetry (nodeId r)) v0) as v1 eqn:Hv1.
  assert (Hd1 : dom v1 = dom v) by (rewrite Hv1; exact Hd0).
  assert (Ht1 : timers v1 = []) by (rewrite Hv1, Hv0; exact Htv).
  assert (Hn1 : now v1 = (now w + 300)%Z) by (rewrite Hv1, Hv0; exact Hnv).
  assert (Hi1 : nextId v1 = S (nextId w)) by (rewrite Hv1, Hv0; exact Hiv).
  assert (Hs1 : scanTimer v1 = None) by (rewrite Hv1, Hv0; reflexivity).
  assert (Htr1 : insertions (trace v1) = insertions (trace w)).
  { rewrite Hv1, Hv0. cbn [LOG emit setTrace setScanTimer trace].
    rewrite !insertions_cons. cbn [snd]. rewrite !app_nil_r. exact Htrv. }
  assert (Hm1 : mainObserving v1 = true) by (rewrite Hv1, Hv0; exact Hmv).
  clear Hv0 Hv1 Hd0 v0.
  rewrite <- Hd1 in Hnode.
  destruct (injectButton_injects _ v1 el s Hnode Hproc Hsend Hhtml) as [Htr Hti].
  assert (Hfresh1 : nextId v1 <> nodeId r) by (rewrite Hi1; exact Hfresh).
  destruct (injectButton_marks _ v1 el s Hnode Hproc Hsend Hfresh1) as (el' & Hnode' & Hproc').
  assert (Hfields : now (injectButton (nodeId r) v1) = now v1
                    /\ nextId (injectButton (nodeId r) v1) = S (nextId v1)
                    /\ scanTimer (injectButton (nodeId r) v1) = scanTimer v1
                    /\ mainObserving (injectButton (nodeId r) v1) = mainObserving v1).
  { unfold injectButton. rewrite Hnode, Hproc, Hsend, Hhtml. repeat split. }
  destruct Hfields as (Hnf & Hif & Hsf & Hmf).
  remember (injectButton (nodeId r) v1) as wf eqn:Hwf. clear Hwf.
  split; [rewrite Hnf; exact Hn1|].
  split; [rewrite Htr, insertions_app, Htr1, Hi1; reflexivity|].
  split; [exists el'; split; assumption|].
  split; [unfold pendingInject; rewrite Hti, Ht1; reflexivity|].
  intros batch Hbatch. cbv zeta. cbn [step]. rewrite Hmf, Hm1.
  unfold mainObserverCallback. rewrite (proj2 (needsScan_iff batch) Hbatch).
  unfold scheduleScan. rewrite Hsf, Hs1. cbn. rewrite Hti, Ht1, Hif, Hi1, Hnf, Hn1.
  split; [|reflexivity]. cbn. do 2 f_equal. lia.
Qed.

Lemma popup_gets_its_control_witness :
  insertions
    (trace (run [HostMutation Scene.popupPage;
                 MainRecords [[TextNode;
                               ElementNode (mkLocated Sample.plainCompose
                                                      [Scene.dw; Scene.popupPage])]];
                 TimerFires]
                (Scene.calm (Sample.page []) true)))
  = [(12, 101)]%nat.
Proof.
  destruct (popup_gets_its_control
              (Scene.calm (Sample.page []) true) Scene.popupPage
              [[TextNode;
                ElementNode (mkLocated Sample.plainCompose [Scene.dw; Scene.popupPage])]]
              Scene.dw Scene.dwLocated Sample.plainCompose Sample.plainCompose
              Scene.sendButton)
    as (_ & Hins & _).
  - reflexivity.
  - reflexivity.
  - reflexivity.
  - eexists _, _. split; [left|]. split; [right; left|].
    left. exists Scene.dw. split; [right; left | vm_compute; reflexivity].
  - vm_compute. reflexivity.
  - vm_compute. reflexivity.
  - vm_compute. reflexivity.
  - vm_compute. reflexivity.
  - vm_compute. reflexivity.
  - vm_compute. reflexivity.
  - reflexivity.
  - discriminate.
  - exact Hins.
Defined.

(** ** What the script leaves alone *)

(** A property of the world that reads the document, the handle supply
    and the record of injections, and that [injectButton] keeps, is kept by
    everything the script runs. *)
Section ScriptFrame.
Variable P : World -> Prop.
Hypothesis P_frame :
  forall w w', dom w' = dom w -> (nextId w <= nextId w')%nat ->
               injectLog (trace w') = injectLog (trace w) -> P w -> P w'.
Hypothesis P_injectButton : forall c w, P w -> P (injectButton c w).

Lemma frame_emit (e : Effect) (w : World) :
  (forall c, e <> Log (LogInjecting c)) -> P w -> P (emit e w).
Proof.
  intros He. apply P_frame; [reflexivity | reflexivity |].
  cbn [emit trace setTrace]. unfold injectLog. rewrite omap_cons_eq. cbn [snd].
  destruct e as [m| | | | | | | | | | | | |]; try reflexivity.
  destruct m; try reflexivity. exfalso. apply (He composeEl). reflexivity.
Qed.

Lemma frame_setTimeout (cb : Callback) (d : Z) (w : World) : P w -> P (setTimeout cb d w).
Proof.
  apply P_frame; [reflexivity | cbn; lia |].
  cbn [setTimeout emit trace setTrace]. unfold injectLog. rewrite omap_cons_eq. reflexivity.
Qed.

Lemma frame_setNextId (k : nat) (w : World) :
  (nextId w <= k)%nat -> P w -> P (setNextId k w).
Proof. intros Hk. apply P_frame; [reflexivity | exact Hk | reflexivity]. Qed.

Lemma frame_setNow (t : Z) (w : World) : P w -> P (setNow t w).
Proof. apply P_frame; reflexivity. Qed.

Lemma frame_setTimers (ts : list Timer) (w : World) : P w -> P (setTimers ts w).
Proof. apply P_frame; reflexivity. Qed.

Lemma frame_setIdleQueue (q : list Callback) (w : World) : P w -> P (setIdleQueue q w).
Proof. apply P_frame; reflexivity. Qed.

Lemma frame_setObservers (os : list Observer) (w : World) : P w -> P (setObservers os w).
Proof. apply P_frame; reflexivity. Qed.

Lemma frame_setMainObserving (b : bool) (w : World) : P w -> P (setMainObserving b w).
Proof. apply P_frame; reflexivity. Qed.

Lemma frame_setListeners (ls : list Listener) (w : World) : P w -> P (setListeners ls w).
Proof. apply P_frame; reflexivity. Qed.

Lemma frame_setScanTimer (s : option nat) (w : World) : P w -> P (setScanTimer s w).
Proof. apply P_frame; reflexivity. Qed.

Lemma frame_setToast (t : option Toast) (w : World) : P w -> P (setToast t w).
Proof. apply P_frame; reflexivity. Qed.

(** Host calls that touch neither the document nor the record of
    injections, peeled off one by one. *)
Ltac frame_calls :=
  repeat match goal with
         | H : P ?w |- P ?w => exact H
         | |- P (emit _ _) => apply frame_emit; [intros ?; discriminate|]
         | |- P (LOG _ _) => apply frame_emit; [intros ?; discriminate|]
         | |- P (setTimeout _ _ _) => apply frame_setTimeout
         | |- P (clearTimeout _ _) => unfold clearTimeout
         | |- P (disconnect _ _) => unfold disconnect
         | |- P (setNextId _ _) => apply frame_setNextId; [cbn; lia|]
         | |- P (setNow _ _) => apply frame_setNow
         | |- P (setTimers _ _) => apply frame_setTimers
         | |- P (setIdleQueue _ _) => apply frame_setIdleQueue
         | |- P (setObservers _ _) => apply frame_setObservers
         | |- P (setMainObserving _ _) => apply frame_setMainObserving
         | |- P (setListeners _ _) => apply frame_setListeners
         | |- P (setScanTimer _ _) => apply frame_setScanTimer
         | |- P (setToast _ _) => apply frame_setToast
         end.

Lemma frame_simulateClick (el : NodeId) (w : World) : P w -> P (simulateClick el w).
Proof. intros H. unfold simulateClick. cbn [fold_left]. frame_calls. Qed.

Lemma frame_showToast (msg : string) (w : World) : P w -> P (showToast msg w).
Proof. intros H. unfold showToast. destruct (toast w); cbv zeta; frame_calls. Qed.

Lemma frame_archive (r : Z) (w : World) : P w -> P (archiveCurrentConversation r w).
Proof.
  intros H. rewrite archiveCurrentConversation_cases. cbv zeta.
  destruct (findArchiveButton (dom w)).
  - apply frame_simulateClick. frame_calls.
  - destruct (0 <? r)%Z; [frame_calls|]. apply frame_showToast. frame_calls.
Qed.

Lemma frame_trigger (composeEl : Element) (sendBtn : NodeId) (w : World) :
  P w -> P (triggerSendAndArchive composeEl sendBtn w).
Proof.
  intros H. unfold triggerSendAndArchive.
  destruct (findNativeSendAndArchiveButton composeEl).
  - cbv zeta. apply frame_simulateClick. frame_calls.
  - cbv zeta. unfold watchComposeForRemoval. cbv zeta. frame_calls.
Qed.

Lemma frame_tryInject (c : NodeId) (r : Z) (w : World) :
  P w -> P (tryInjectWithRetry c r w).
Proof.
  intros H. rewrite tryInjectWithRetry_cases.
  destruct (getNode (dom w) c) as [el|]; [|exact H].
  destruct (hasAttribute el PROCESSED_ATTR); [exact H|]. cbv zeta.
  destruct (findSendButton el).
  - apply P_injectButton. frame_calls.
  - destruct (0 <? r)%Z; frame_calls.
Qed.

Lemma frame_scanAll (w : World) : P w -> P (scanAll w).
Proof.
  intros H. unfold scanAll. apply forEachContainer_invariant.
  - intros x c0 Hx. apply frame_tryInject. exact Hx.
  - frame_calls.
Qed.

Lemma frame_scheduleScan (delay : Z) (w : World) : P w -> P (scheduleScan delay w).
Proof. intros H. unfold scheduleScan. destruct (scanTimer w); cbv zeta; frame_calls. Qed.

Lemma frame_runCallback (cb : Callback) (w : World) : P w -> P (runCallback cb w).
Proof.
  intros H. destruct cb as [| |rl|sb|ce rl| |tf|tr| |]; cbn [runCallback].
  - apply frame_scanAll, H.
  - apply frame_archive, H.
  - apply frame_archive, H.
  - frame_calls.
  - apply frame_tryInject, H.
  - cbv zeta. frame_calls.
  - destruct (toast w) as [x|]; [destruct (decide (toastId x = tf))|];
      cbv zeta; frame_calls.
  - destruct (toast w) as [x|]; [destruct (decide (toastId x = tr))|]; frame_calls.
  - cbv zeta. frame_calls.
  - cbv zeta. apply frame_scheduleScan. frame_calls.
Qed.

Lemma frame_runListeners (run : Handler -> DomEvent -> World -> DomEvent * World) :
  (forall h e w, P w -> P (snd (run h e w))) ->
  forall hs e w, P w -> P (snd (runListeners run hs e w)).
Proof.
  intros Hrun hs e w H. unfold runListeners.
  change w with (snd (e, w)) in H. revert H. generalize (e, w).
  induction hs as [|h hs IH]; intros ew H; [exact H|].
  cbn [fold_left]. apply IH.
  destruct (propagationStopped (fst ew)); [exact H|]. apply Hrun. exact H.
Qed.

Lemma frame_runClickListener (h : Handler) (e : DomEvent) (w : World) :
  P w -> P (snd (runClickListener h e w)).
Proof.
  intros H. destruct h; cbn [runClickListener snd]; try exact H.
  destruct (getNode (dom w) composeEl) as [el|]; [|exact H].
  cbn [onButtonClick snd]. apply frame_trigger. frame_calls.
Qed.

Lemma frame_runListener (h : Handler) (e : DomEvent) (w : World) :
  P w -> P (snd (runListener h e w)).
Proof.
  intros H. destruct h; cbn [runListener].
  - destruct (getNode (dom w) composeEl) as [el|]; [|exact H].
    unfold onComposeKeydown.
    destruct (String.eqb (key e) "Enter" && ctrlKey e && shiftKey e); [|exact H].
    cbn [snd]. apply frame_trigger. frame_calls.
  - unfold onButtonKeydown.
    destruct (String.eqb (key e) "Enter" || String.eqb (key e) " "); [|exact H].
    cbn [snd]. apply frame_runListeners; [apply frame_runClickListener|].
    frame_calls.
  - apply frame_runClickListener. exact H.
Qed.

Lemma frame_step (i : Input) (w : World) :
  isHostMutation i = false -> P w -> P (step i w).
Proof.
  intros Hi H. destruct i; try discriminate; cbn [step].
  - destruct (head (filter _ (observers w))) as [ob|]; [|exact H].
    unfold removalObserverCallback.
    destruct (negb (containsId (dom w) (watched ob))); [|exact H].
    cbv zeta. apply frame_runCallback. frame_calls.
  - destruct (mainObserving w); [|exact H]. unfold mainObserverCallback.
    destruct (existsb _ mutations); [apply frame_scheduleScan|]; exact H.
  - destruct (earliest (timers w)) as [t|]; [|exact H].
    apply frame_runCallback. frame_calls.
  - destruct (idleQueue w) as [|cb q]; [exact H|].
    apply frame_runCallback. frame_calls.
  - unfold dispatchEvent. destruct (getLocated (dom w) target) as [l|]; [|exact H].
    apply frame_runListeners; [apply frame_runListener | exact H].
Qed.

Lemma frame_run (inputs : list Input) (w : World) :
  Forall (fun i => isHostMutation i = false) inputs -> P w -> P (run inputs w).
Proof.
  revert w. induction inputs as [|i inputs IH]; intros w Hall H; [exact H|].
  apply Forall_cons in Hall as [Hi Hall]. cbn [run fold_left].
  apply IH; [exact Hall|]. apply frame_step; assumption.
Qed.

End ScriptFrame.

(** Changing another node leaves the node that [getNode] finds, and its
    attributes, as they were. *)
Lemma getNode_updateNode_other (i j : NodeId) (f : Element -> Element) (e : Element) :
  j <> i ->
  (forall x, nodeId (f x) = nodeId x) -> (forall x, children (f x) = children x) ->
  attributes <$> getNode (updateNode j f e) i = attributes <$> getNode e i.
Proof.
  intros Hne Hid Hch. induction e as [e IH] using Element_children_ind.
  rewrite updateNode_unfold. destruct (decide (nodeId e = j)) as [Hj|Hj].
  - rewrite (getNode_unfold (f e)), (getNode_unfold e), Hid, Hch.
    rewrite !decide_False by (rewrite Hj; exact Hne). reflexivity.
  - rewrite getNode_unfold, (getNode_unfold e). cbn [nodeId children].
    destruct (decide (nodeId e = i)); [reflexivity|].
    induction IH as [|c cs Hc Hcs IHcs]; [reflexivity|].
    cbn [map]. rewrite !getNodeAmong_cons.
    destruct (getNode (updateNode j f c) i) as [x|] eqn:Hx;
      destruct (getNode c i) as [y|] eqn:Hy; cbn in Hc; try discriminate.
    + exact Hc.
    + exact IHcs.
Qed.

Lemma injectLog_cons (t : Z) (e : Effect) (tr : list (Z * Effect)) :
  injectLog ((t, e) :: tr)
  = match e with
    | Log (LogInjecting c) => c :: injectLog tr
    | _ => injectLog tr
    end.
Proof.
  unfold injectLog. rewrite omap_cons_eq. cbn [snd].
  destruct e as [m| | | | | | | | | | | | |]; try reflexivity.
  destruct m; reflexivity.
Qed.

(** The document, handle supply and record of injections after the
    injecting path, whether [buildButton] returns or throws. *)
Lemma injectButton_injecting (c : NodeId) (w : World) (el s : Element) :
  getNode (dom w) c = Some el ->
  hasAttribute el PROCESSED_ATTR = false ->
  findSendButton el = Some s ->
  dom (injectButton c w)
  = (if buildButtonThrows s
     then updateNode c (withAttribute PROCESSED_ATTR "true") (dom w)
     else insertAfterNode (nodeId s) (buildButton (nextId w) s)
            (updateNode c (withAttribute PROCESSED_ATTR "true") (dom w)))
  /\ nextId (injectButton c w) = S (nextId w)
  /\ injectLog (trace (injectButton c w)) = c :: injectLog (trace w).
Proof.
  intros Hnode Hproc Hsend. destruct (buildButtonThrows s) eqn:Hthrows.
  - destruct (injectButton_throws c w el s Hnode Hproc Hsend Hthrows) as (Htr & _ & _ & Hdom).
    rewrite Htr, Hdom. cbn [app]. rewrite !injectLog_cons.
    unfold injectButton. rewrite Hnode, Hproc, Hsend, Hthrows. repeat split.
  - destruct (injectButton_injects c w el s Hnode Hproc Hsend Hthrows) as [Htr _].
    rewrite Htr. cbn [app]. rewrite !injectLog_cons.
    unfold injectButton. rewrite Hnode, Hproc, Hsend, Hthrows. repeat split.
Qed.

(** The paths of [injectButton] that inject nothing. *)
Lemma injectButton_idle (c : NodeId) (w : World) :
  (forall el s, getNode (dom w) c = Some el -> hasAttribute el PROCESSED_ATTR = false ->
                findSendButton el = Some s -> False) ->
  dom (injectButton c w) = dom w
  /\ nextId (injectButton c w) = nextId w
  /\ injectLog (trace (injectButton c w)) = injectLog (trace w).
Proof.
  intros Hno. unfold injectButton.
  destruct (getNode (dom w) c) as [el|]; [|repeat split].
  destruct (hasAttribute el PROCESSED_ATTR) eqn:Hproc; [repeat split|].
  destruct (findSendButton el) as [s|] eqn:Hsend; [|repeat split].
  exfalso. apply (Hno el s); [reflexivity | exact Hproc | exact Hsend].
Qed.

(** The attributes of another node after the injecting path. *)
Lemma injected_other_attributes (c c' : NodeId) (doc s : Element) (id : NodeId) :
  c' <> c -> id <> c ->
  attributes
    <$> getNode (if buildButtonThrows s
                 then updateNode c' (withAttribute PROCESSED_ATTR "true") doc
                 else insertAfterNode (nodeId s) (buildButton id s)
                        (updateNode c' (withAttribute PROCESSED_ATTR "true") doc)) c
  = attributes <$> getNode doc c.
Proof.
  intros Hne Hfresh. destruct (buildButtonThrows s).
  - apply getNode_updateNode_other; [exact Hne | reflexivity | reflexivity].
  - rewrite getNode_insertAfterNode by (apply getNode_buildButton; exact Hfresh).
    apply getNode_updateNode_other; [exact Hne | reflexivity | reflexivity].
Qed.

Lemma settled_frame (c : NodeId) (n : nat) (w w' : World) :
  dom w' = dom w -> (nextId w <= nextId w')%nat ->
  injectLog (trace w') = injectLog (trace w) ->
  settled c n w -> settled c n w'.
Proof.
  unfold settled, processed, injectionsInto. intros -> Hn -> (Hc & Hp & Hi).
  repeat split; [lia | |]; assumption.
Qed.

Lemma settled_injectButton (c : NodeId) (n : nat) (c' : NodeId) (w : World) :
  settled c n w -> settled c n (injectButton c' w).
Proof.
  intros H.
  destruct (getNode (dom w) c') as [el|] eqn:Hnode;
    [|unfold injectButton; rewrite Hnode; exact H].
  destruct (hasAttribute el PROCESSED_ATTR) eqn:Hproc;
    [unfold injectButton; rewrite Hnode, Hproc; exact H|].
  destruct (findSendButton el) as [s|] eqn:Hsend.
  - destruct H as (Hc & (el0 & Hnode0 & Hproc0) & Hi).
    assert (Hne : c' <> c).
    { intros ->. rewrite Hnode0 in Hnode. injection Hnode as ->. congruence. }
    destruct (injectButton_injecting c' w el s Hnode Hproc Hsend) as (Hdom & Hnext & Hlog).
    unfold settled, processed, injectionsInto. rewrite Hdom, Hnext, Hlog.
    split; [lia|]. split.
    + assert (Hfresh : nextId w <> c) by lia.
      pose proof (injected_other_attributes c c' (dom w) s (nextId w) Hne Hfresh) as Hins.
      rewrite Hnode0 in Hins.
      destruct (getNode (if buildButtonThrows s then _ else _) c) as [el'|];
        [|discriminate].
      exists el'. split; [reflexivity|]. cbn in Hins. injection Hins as Hattr.
      rewrite (hasAttribute_attributes _ el0 _ Hattr). exact Hproc0.
    + rewrite filter_cons, decide_False by exact Hne. exact Hi.
  - destruct (injectButton_idle c' w) as (Hdom & Hnext & Hlog).
    { intros el' s' Hn' Hp' Hs'. rewrite Hnode in Hn'. injection Hn' as <-. congruence. }
    apply (settled_frame c n w); [exact Hdom | lia | exact Hlog | exact H].
Qed.

(** Once processed, a region is left alone.  Whatever the script runs
    after a region got the processed marker, scans, injections into other
    regions, retries, the sequencer, the archive sequence, in any order and
    any number, the region keeps the marker and the injecting path is not
    taken for it again; only the host, rewriting the document, can undo
    that. *)
Theorem processed_region_is_left_alone
        (c : NodeId) (w : World) (inputs : list Input) :
  (c < nextId w)%nat ->
  processed c w ->
  Forall (fun i => isHostMutation i = false) inputs ->
  processed c (run inputs w)
  /\ injectionsInto c (trace (run inputs w)) = injectionsInto c (trace w).
Proof.
  intros Hc Hp Hall.
  assert (H : settled c (injectionsInto c (trace w)) (run inputs w)).
  { apply frame_run; [apply settled_frame | apply settled_injectButton | exact Hall|].
    repeat split; assumption. }
  destruct H as (_ & Hp' & Hi'). split; assumption.
Qed.

Lemma processed_region_is_left_alone_witness :
  processed 41
    (run [MainRecords [[ElementNode (mkLocated Sample.injectedCompose [])]];
          TimerFires;
          UserEvent 43 clickEvent]
         (Scene.calm (Sample.page [Sample.injectedCompose]) true)).
Proof.
  apply (processed_region_is_left_alone 41
           (Scene.calm (Sample.page [Sample.injectedCompose]) true)).
  - cbn. lia.
  - exists Sample.injectedCompose. split; vm_compute; reflexivity.
  - repeat constructor.
Defined.

(** [hostView] after the two changes [injectButton] makes to the
    document. *)
Lemma hostView_mark (i j : NodeId) (e : Element) :
  hostView i (updateNode j (withAttribute PROCESSED_ATTR "true") e) = hostView i e.
Proof.
  unfold hostView. induction e as [e IH] using Element_children_ind.
  rewrite updateNode_unfold. destruct (decide (nodeId e = j)) as [Hj|Hj].
  - rewrite (getNode_unfold (withAttribute _ _ e)), (getNode_unfold e).
    cbn [withAttribute nodeId children].
    destruct (decide (nodeId e = i)); [|reflexivity].
    cbn [fmap option_fmap option_map]. unfold withAttribute.
    cbn [tagName className attributes]. rewrite delete_insert_eq. reflexivity.
  - rewrite getNode_unfold, (getNode_unfold e). cbn [nodeId children].
    destruct (decide (nodeId e = i)); [reflexivity|].
    induction IH as [|c cs Hc Hcs IHcs]; [reflexivity|].
    cbn [map]. rewrite !getNodeAmong_cons.
    destruct (getNode (updateNode j _ c) i) as [x|] eqn:Hx;
      destruct (getNode c i) as [y|] eqn:Hy; cbn in Hc; try discriminate.
    + exact Hc.
    + exact IHcs.
Qed.

Lemma hostView_insertAfterNode (i ref : NodeId) (new e : Element) :
  getNode new i = None ->
  hostView i (insertAfterNode ref new e) = hostView i e.
Proof.
  intros Hnew. unfold hostView. induction e as [e IH] using Element_children_ind.
  rewrite insertAfterNode_unfold, (getNode_unfold e), getNode_unfold.
  cbn [nodeId children].
  destruct (decide (nodeId e = i)); [reflexivity|].
  induction IH as [|c cs Hc Hcs IHcs]; [reflexivity|].
  rewrite insertAmong_cons, !getNodeAmong_cons.
  destruct (getNode (insertAfterNode ref new c) i) as [x|] eqn:Hx;
    destruct (getNode c i) as [y|] eqn:Hy; cbn in Hc; try discriminate.
  - exact Hc.
  - destruct (decide (nodeId c = ref)); [|exact IHcs].
    rewrite getNodeAmong_cons, Hnew. exact IHcs.
Qed.

Lemma untouched_frame (i : NodeId) (w0 w w' : World) :
  dom w' = dom w -> (nextId w <= nextId w')%nat ->
  injectLog (trace w') = injectLog (trace w) ->
  untouched i w0 w -> untouched i w0 w'.
Proof. unfold untouched. intros -> Hn _ (Hle & Hv). split; [lia | exact Hv]. Qed.

Lemma untouched_injectButton (i : NodeId) (w0 : World) (c : NodeId) (w : World) :
  (i < nextId w0)%nat -> untouched i w0 w -> untouched i w0 (injectButton c w).
Proof.
  intros Hi H.
  destruct (getNode (dom w) c) as [el|] eqn:Hnode;
    [|unfold injectButton; rewrite Hnode; exact H].
  destruct (hasAttribute el PROCESSED_ATTR) eqn:Hproc;
    [unfold injectButton; rewrite Hnode, Hproc; exact H|].
  destruct (findSendButton el) as [s|] eqn:Hsend.
  - destruct H as (Hle & Hv).
    destruct (injectButton_injecting c w el s Hnode Hproc Hsend) as (Hdom & Hnext & _).
    unfold untouched. rewrite Hdom, Hnext. split; [lia|].
    destruct (buildButtonThrows s); [rewrite hostView_mark; exact Hv|].
    rewrite hostView_insertAfterNode, hostView_mark; [exact Hv|].
    apply getNode_buildButton. lia.
  - destruct (injectButton_idle c w) as (Hdom & Hnext & Hlog).
    { intros el' s' Hn' Hp' Hs'. rewrite Hnode in Hn'. injection Hn' as <-. congruence. }
    apply (untouched_frame i w0 w); [exact Hdom | lia | exact Hlog | exact H].
Qed.

(** The script alters no node of the host.  No element of the host's
    document has the [id] of the notification, so that the element
    [showToast] removes is the script's own.  Then, whatever the script
    runs, every node of the host's document stays in the document with its
    tag, its classes and all its attributes except the processed marker:
    the script adds that marker and inserts its own control, and changes
    nothing else of what the host put there. *)
Theorem script_alters_no_host_node (i : NodeId) (w : World) (inputs : list Input) :
  (i < nextId w)%nat ->
  noToastId (dom w) ->
  Forall (fun x => isHostMutation x = false) inputs ->
  hostView i (dom (run inputs w)) = hostView i (dom w).
Proof.
  intros Hi _ Hall.
  assert (H : untouched i w (run inputs w)).
  { apply frame_run; [apply untouched_frame | | exact Hall | split; [lia | reflexivity]].
    intros c x. apply untouched_injectButton. exact Hi. }
  apply H.
Qed.

Lemma script_alters_no_host_node_witness :
  hostView 12
    (dom (run [MainRecords [[ElementNode (mkLocated Sample.plainCompose
                                                      [Scene.dw; Scene.popupPage])]];
               TimerFires]
              (Scene.calm Scene.popupPage true)))
  = hostView 12 Scene.popupPage.
Proof.
  apply (script_alters_no_host_node 12 (Scene.calm Scene.popupPage true)).
  - cbn. lia.
  - unfold noToastId. vm_compute. repeat constructor; discriminate.
  - repeat constructor.
Defined.

(** ** Scans of a page with many regions *)

(** *** Marking a region *)

Lemma sameMod_refl (a : Element) : sameMod a a.
Proof. repeat split. Qed.

Lemma sameMod_sameNode (a b : Element) : sameNode a b -> sameMod a b.
Proof. intros (Hid & Htag & Hcls & Hattr). repeat split; try assumption. rewrite Hattr. reflexivity. Qed.

Lemma sameMod_mark (e : Element) : sameMod e (withAttribute PROCESSED_ATTR "true" e).
Proof.
  repeat split. intros name Hne. cbn [withAttribute attributes].
  rewrite lookup_insert_ne by (intros Heq; apply Hne; symmetry; exact Heq). reflexivity.
Qed.

Lemma sameMod_updateNode (c : NodeId) (e : Element) :
  sameMod e (updateNode c (withAttribute PROCESSED_ATTR "true") e).
Proof.
  rewrite updateNode_unfold. destruct (decide (nodeId e = c)); [apply sameMod_mark|].
  repeat split.
Qed.

Lemma Forall2_sameMod_refl (l : list Element) : Forall2 sameMod l l.
Proof. induction l; constructor; [apply sameMod_refl | assumption]. Qed.

Lemma shallowMod_hasClass (cls : string) : shallowMod (hasClass cls).
Proof. intros a b (_ & _ & Hcls & _). unfold hasClass. rewrite Hcls. reflexivity. Qed.

Lemma shallowMod_hasAttribute (name : string) :
  name <> PROCESSED_ATTR -> shallowMod (fun e => hasAttribute e name).
Proof.
  intros Hne a b (_ & _ & _ & Hattr). unfold hasAttribute. rewrite (Hattr name Hne).
  reflexivity.
Qed.

Lemma sameMod_getAttribute (a b : Element) (name : string) :
  name <> PROCESSED_ATTR -> sameMod a b -> getAttribute a name = getAttribute b name.
Proof. intros Hne (_ & _ & _ & Hattr). apply Hattr, Hne. Qed.

Lemma shallowMod_attrIs (name v : string) :
  name <> PROCESSED_ATTR -> shallowMod (attrIs name v).
Proof.
  intros Hne a b H. unfold attrIs. rewrite (sameMod_getAttribute a b name Hne H). reflexivity.
Qed.

Lemma shallowMod_attrStarts (name p : string) :
  name <> PROCESSED_ATTR -> shallowMod (attrStarts name p).
Proof.
  intros Hne a b H. unfold attrStarts. rewrite (sameMod_getAttribute a b name Hne H).
  reflexivity.
Qed.

Lemma shallowMod_selSendLabel : shallowMod selSendLabel.
Proof.
  intros a b H. unfold selSendLabel.
  rewrite (shallowMod_attrIs "aria-label" "Send" ltac:(discriminate) a b H),
    (shallowMod_attrStarts "aria-label" "Send " ltac:(discriminate) a b H).
  reflexivity.
Qed.

Lemma Forall2_filter_shallowMod (sel : Element -> bool) (l l' : list Element) :
  shallowMod sel -> Forall2 sameMod l l' ->
  Forall2 sameMod (filter (fun x => sel x = true) l) (filter (fun x => sel x = true) l').
Proof.
  intros Hsel. induction 1 as [|a b l l' Hab H IH]; [constructor|].
  rewrite !filter_cons, (Hsel a b Hab).
  destruct (decide (sel b = true)); [constructor; assumption | exact IH].
Qed.

Lemma firstSendIn_sameMod (attr : string) (l l' : list Element) :
  attr <> PROCESSED_ATTR -> Forall2 sameMod l l' ->
  nodeId <$> firstSendIn attr l = nodeId <$> firstSendIn attr l'.
Proof.
  intros Hne. induction 1 as [|a b l l' Hab H IH]; [reflexivity|].
  cbn [firstSendIn].
  rewrite (shallowMod_hasAttribute BTN_ATTR ltac:(discriminate) a b Hab).
  destruct (hasAttribute b BTN_ATTR); [exact IH|].
  unfold getAttributeOrEmpty. rewrite (sameMod_getAttribute a b attr Hne Hab).
  destruct (acceptsSendText _); [|exact IH].
  cbn. f_equal. apply Hab.
Qed.

(** [findSendButton] finds the same node in two trees whose descendants
    agree. *)
Lemma findSendButton_sameMod (e e' : Element) :
  Forall2 sameMod (descendants e) (descendants e') ->
  nodeId <$> findSendButton e = nodeId <$> findSendButton e'.
Proof.
  intros H. unfold findSendButton, querySelectorAll.
  pose proof (firstSendIn_sameMod "data-tooltip" _ _ ltac:(discriminate)
                (Forall2_filter_shallowMod selSendClass _ _ (shallowMod_hasClass "aoO") H))
    as H1.
  pose proof (firstSendIn_sameMod "aria-label" _ _ ltac:(discriminate)
                (Forall2_filter_shallowMod selSendLabel _ _ shallowMod_selSendLabel H))
    as H2.
  unfold selSendClass in *.
  destruct (firstSendIn "data-tooltip" (filter _ (descendants e)));
    destruct (firstSendIn "data-tooltip" (filter _ (descendants e')));
    try discriminate; [exact H1 | exact H2].
Qed.

Lemma descendants_mark (c : NodeId) (e : Element) :
  Forall2 sameMod (descendants e)
          (descendants (updateNode c (withAttribute PROCESSED_ATTR "true") e)).
Proof.
  induction e as [e IH] using Element_children_ind.
  rewrite updateNode_unfold. destruct (decide (nodeId e = c)).
  - rewrite (descendants_unfold (withAttribute _ _ e)). cbn [withAttribute children].
    rewrite <- descendants_unfold. apply Forall2_sameMod_refl.
  - rewrite (descendants_unfold e), (descendants_unfold (mkNode _ _ _ _ _ _)).
    cbn [children].
    induction IH as [|x cs Hx Hcs IHcs]; [constructor|].
    cbn [map flat_map]. constructor; [apply sameMod_updateNode|].
    apply Forall2_app; [exact Hx | exact IHcs].
Qed.

(** The node [getNode] finds after a region was marked is the one it found
    before, marked perhaps, with descendants that agree. *)
Lemma getNode_mark (c i : NodeId) (e : Element) :
  match getNode e i, getNode (updateNode c (withAttribute PROCESSED_ATTR "true") e) i with
  | Some x, Some x' => sameMod x x' /\ Forall2 sameMod (descendants x) (descendants x')
  | None, None => True
  | _, _ => False
  end.
Proof.
  induction e as [e IH] using Element_children_ind.
  pose proof (descendants_mark c e) as Hdesc.
  pose proof (sameMod_updateNode c e) as Hroot.
  rewrite updateNode_unfold in *. destruct (decide (nodeId e = c)) as [Hc|Hc].
  - rewrite (getNode_unfold (withAttribute _ _ e)), (getNode_unfold e).
    cbn [withAttribute nodeId children] in *.
    destruct (decide (nodeId e = i)); [split; assumption|].
    destruct (getNodeAmong (children e) i) as [x|]; [|exact I].
    split; [apply sameMod_refl | apply Forall2_sameMod_refl].
  - rewrite (getNode_unfold e), (getNode_unfold (mkNode _ _ _ _ _ _)).
    cbn [nodeId children] in *.
    destruct (decide (nodeId e = i)); [split; assumption|].
    clear Hdesc Hroot.
    induction IH as [|x cs Hx Hcs IHcs]; [exact I|].
    cbn [map]. rewrite !getNodeAmong_cons.
    destruct (getNode x i) as [y|];
      destruct (getNode (updateNode c _ x) i) as [y'|]; try contradiction.
    + exact Hx.
    + exact IHcs.
Qed.

Lemma sendIdIn_mark (c i : NodeId) (doc : Element) :
  sendIdIn (updateNode c (withAttribute PROCESSED_ATTR "true") doc) i = sendIdIn doc i.
Proof.
  unfold sendIdIn. pose proof (getNode_mark c i doc) as H.
  destruct (getNode doc i) as [x|];
    destruct (getNode (updateNode c _ doc) i) as [x'|]; try contradiction; [|reflexivity].
  symmetry. apply findSendButton_sameMod. apply H.
Qed.

Lemma containsId_mark (c j : NodeId) (e : Element) :
  containsId e j = containsId (updateNode c (withAttribute PROCESSED_ATTR "true") e) j.
Proof.
  unfold containsId. pose proof (getNode_mark c j e) as H.
  destruct (getNode e j); destruct (getNode (updateNode c _ e) j); try contradiction;
    reflexivity.
Qed.

Lemma closest_sameMod (sel : Element -> bool) (a b : Located) :
  shallowMod sel -> sameModLocated a b ->
  match closest sel a, closest sel b with
  | Some x, Some y => sameMod x y
  | None, None => True
  | _, _ => False
  end.
Proof.
  intros Hsel [Hhere Hanc]. unfold closest.
  assert (Hchain : Forall2 sameMod (here a :: ancestors a) (here b :: ancestors b))
    by (constructor; assumption).
  induction Hchain as [|x y xs ys Hxy Hrest IH]; [exact I|].
  rewrite !filter_cons, (Hsel x y Hxy).
  destruct (decide (sel y = true)); [exact Hxy | exact IH].
Qed.

(** The loop of [findComposeWindows] on candidates that agree pairwise. *)
Lemma composeRootsLoop_sameMod (dwEl dwEl' : Element) (cands cands' : list Located) :
  sameMod dwEl dwEl' ->
  (forall i, containsId dwEl i = containsId dwEl' i) ->
  Forall2 sameModLocated cands cands' ->
  forall seen results results',
    nodeId <$> results = nodeId <$> results' ->
    nodeId <$> composeRootsLoop dwEl cands seen results
    = nodeId <$> composeRootsLoop dwEl' cands' seen results'.
Proof.
  intros Hdw Hcontains Hcands.
  induction Hcands as [|a b l l' Hab H IH]; intros seen results results' Hres;
    [exact Hres|].
  cbn [composeRootsLoop].
  rewrite (shallowMod_hasAttribute BTN_ATTR ltac:(discriminate) _ _ (proj1 Hab)).
  destruct (hasAttribute (here b) BTN_ATTR); [apply IH; exact Hres|].
  pose proof (closest_sameMod (hasClass "nH") a b (shallowMod_hasClass "nH") Hab) as Hc.
  assert (Hroot : nodeId (match closest (hasClass "nH") a with
                          | Some c => if containsId dwEl (nodeId c) then c else dwEl
                          | None => dwEl
                          end)
                  = nodeId (match closest (hasClass "nH") b with
                            | Some c => if containsId dwEl' (nodeId c) then c else dwEl'
                            | None => dwEl'
                            end)).
  { destruct (closest (hasClass "nH") a) as [c|];
      destruct (closest (hasClass "nH") b) as [c'|]; try contradiction.
    - rewrite <- (proj1 Hc), <- Hcontains.
      destruct (containsId dwEl (nodeId c)); [apply Hc | apply Hdw].
    - apply Hdw. }
  rewrite <- Hroot.
  destruct (bool_decide (_ ∈ seen)); [apply IH; exact Hres|].
  apply IH. rewrite !fmap_app, Hres. cbn. rewrite Hroot. reflexivity.
Qed.

Lemma locatedDescendants_subtrees (anc : list Element) (e : Element) :
  locatedDescendants anc e = flat_map (locatedSubtree (e :: anc)) (children e).
Proof. apply locatedDescendants_unfold. Qed.

Lemma Forall2_flat_map_same {A B} (R : B -> B -> Prop) (f g : A -> list B) (l : list A) :
  Forall (fun x => Forall2 R (f x) (g x)) l ->
  Forall2 R (flat_map f l) (flat_map g l).
Proof.
  induction 1 as [|x l Hx Hl IH]; [constructor|].
  cbn [flat_map]. apply Forall2_app; assumption.
Qed.

(** The located descendants of one tree, hung on two chains that agree. *)
Lemma locatedSubtree_sameMod (e : Element) :
  forall anc anc',
    Forall2 sameMod anc anc' ->
    Forall2 sameModLocated (locatedSubtree anc e) (locatedSubtree anc' e).
Proof.
  induction e as [e IH] using Element_children_ind. intros anc anc' Hanc.
  unfold locatedSubtree at 1 2.
  constructor; [split; [apply sameMod_refl | exact Hanc]|].
  rewrite !locatedDescendants_subtrees.
  apply Forall2_flat_map_same.
  eapply Forall_impl; [exact IH|]. intros c Hc. apply Hc.
  constructor; [apply sameMod_refl | exact Hanc].
Qed.

(** The same with the root shown by another handle that has its children. *)
Lemma locatedDescendants_sameMod_root (e e' : Element) (anc anc' : list Element) :
  sameMod e e' -> children e' = children e ->
  Forall2 sameMod anc anc' ->
  Forall2 sameModLocated (locatedDescendants anc e) (locatedDescendants anc' e').
Proof.
  intros Hee Hch Hanc. rewrite !locatedDescendants_subtrees, Hch.
  apply Forall2_flat_map_same. apply Forall_forall. intros c _.
  apply locatedSubtree_sameMod. constructor; assumption.
Qed.

Lemma Forall2_flat_map_map {A B} (R : B -> B -> Prop) (f g : A -> list B)
      (h : A -> A) (l : list A) :
  Forall (fun x => Forall2 R (f x) (g (h x))) l ->
  Forall2 R (flat_map f l) (flat_map g (map h l)).
Proof.
  induction 1 as [|x l Hx Hl IH]; [constructor|].
  cbn [map flat_map]. apply Forall2_app; assumption.
Qed.

Lemma locatedSubtree_mark (c : NodeId) (e : Element) :
  forall anc anc',
    Forall2 sameMod anc anc' ->
    Forall2 sameModLocated
            (locatedSubtree anc e)
            (locatedSubtree anc' (updateNode c (withAttribute PROCESSED_ATTR "true") e)).
Proof.
  induction e as [e IH] using Element_children_ind. intros anc anc' Hanc.
  pose proof (sameMod_updateNode c e) as Hroot.
  unfold locatedSubtree at 1 2.
  constructor; [split; [exact Hroot | exact Hanc]|].
  rewrite updateNode_unfold in *. destruct (decide (nodeId e = c)).
  - apply locatedDescendants_sameMod_root; [exact Hroot | reflexivity | exact Hanc].
  - rewrite !locatedDescendants_subtrees. cbn [children].
    apply Forall2_flat_map_map.
    eapply Forall_impl; [exact IH|]. intros x Hx. apply Hx.
    constructor; [exact Hroot | exact Hanc].
Qed.

Lemma Forall2_tail {A B} (R : A -> B -> Prop) (x : A) (y : B) (l : list A) (l' : list B) :
  Forall2 R (x :: l) (y :: l') -> Forall2 R l l'.
Proof. intros H. apply Forall2_cons_1 in H. apply H. Qed.

Lemma TreeMod_refl (e : Element) : TreeMod e e.
Proof.
  split; [reflexivity|]. intros anc anc' Hanc.
  apply (Forall2_tail _ _ _ _ _ (locatedSubtree_sameMod e anc anc' Hanc)).
Qed.

Lemma TreeMod_updateNode (c : NodeId) (e : Element) :
  TreeMod e (updateNode c (withAttribute PROCESSED_ATTR "true") e).
Proof.
  split; [intros j; apply containsId_mark|]. intros anc anc' Hanc.
  apply (Forall2_tail _ _ _ _ _ (locatedSubtree_mark c e anc anc' Hanc)).
Qed.

Lemma LocMod_refl_chain (e : Element) (anc anc' : list Element) :
  Forall2 sameMod anc anc' -> LocMod (mkLocated e anc) (mkLocated e anc').
Proof.
  intros Hanc. split; [split; [apply sameMod_refl | exact Hanc] | apply TreeMod_refl].
Qed.

(** The strong forms: every pair of located nodes also spans trees that
    agree. *)
Lemma locatedSubtree_LocMod_same (e : Element) :
  forall anc anc',
    Forall2 sameMod anc anc' ->
    Forall2 LocMod (locatedSubtree anc e) (locatedSubtree anc' e).
Proof.
  induction e as [e IH] using Element_children_ind. intros anc anc' Hanc.
  unfold locatedSubtree at 1 2.
  constructor; [apply LocMod_refl_chain, Hanc|].
  rewrite !locatedDescendants_subtrees.
  apply Forall2_flat_map_same.
  eapply Forall_impl; [exact IH|]. intros c Hc. apply Hc.
  constructor; [apply sameMod_refl | exact Hanc].
Qed.

Lemma locatedSubtree_LocMod_mark (c : NodeId) (e : Element) :
  forall anc anc',
    Forall2 sameMod anc anc' ->
    Forall2 LocMod
            (locatedSubtree anc e)
            (locatedSubtree anc' (updateNode c (withAttribute PROCESSED_ATTR "true") e)).
Proof.
  induction e as [e IH] using Element_children_ind. intros anc anc' Hanc.
  pose proof (sameMod_updateNode c e) as Hroot.
  pose proof (TreeMod_updateNode c e) as Htree.
  unfold locatedSubtree at 1 2.
  constructor; [split; [split; [exact Hroot | exact Hanc] | exact Htree]|].
  rewrite updateNode_unfold in *. destruct (decide (nodeId e = c)).
  - rewrite !locatedDescendants_subtrees. cbn [withAttribute children].
    apply Forall2_flat_map_same. apply Forall_forall. intros x _.
    apply locatedSubtree_LocMod_same. constructor; [exact Hroot | exact Hanc].
  - rewrite !locatedDescendants_subtrees. cbn [children].
    apply Forall2_flat_map_map.
    eapply Forall_impl; [exact IH|]. intros x Hx. apply Hx.
    constructor; [exact Hroot | exact Hanc].
Qed.

Lemma head_filter_Forall2 {A} (R : A -> A -> Prop) (P : A -> Prop)
      `{!forall x, Decision (P x)} (l l' : list A) :
  (forall a b, R a b -> P a <-> P b) ->
  Forall2 R l l' ->
  match head (filter P l), head (filter P l') with
  | Some a, Some b => R a b
  | None, None => True
  | _, _ => False
  end.
Proof.
  intros HP. induction 1 as [|a b l l' Hab Hl IH]; [exact I|].
  rewrite !filter_cons. pose proof (HP a b Hab) as Hiff.
  destruct (decide (P a)), (decide (P b)); [exact Hab | tauto | tauto | exact IH].
Qed.

(** The container that a scan reads again after a region was marked. *)
Lemma getLocated_mark (c i : NodeId) (doc : Element) :
  match getLocated doc i,
        getLocated (updateNode c (withAttribute PROCESSED_ATTR "true") doc) i with
  | Some l, Some l' => LocMod l l'
  | None, None => True
  | _, _ => False
  end.
Proof.
  unfold getLocated.
  apply (head_filter_Forall2 LocMod (fun l => nodeId (here l) = i)).
  - intros a b ((Hab & _) & _). destruct Hab as (Hid & _). rewrite Hid. reflexivity.
  - apply locatedSubtree_LocMod_mark. constructor.
Qed.

Lemma Forall2_filter_sameModLocated (sel : Element -> bool) (l l' : list Located) :
  shallowMod sel -> Forall2 sameModLocated l l' ->
  Forall2 sameModLocated (filter (fun x => sel (here x) = true) l)
          (filter (fun x => sel (here x) = true) l').
Proof.
  intros Hsel. induction 1 as [|a b l l' Hab H IH]; [constructor|].
  rewrite !filter_cons, (Hsel _ _ (proj1 Hab)).
  destruct (decide (sel (here b) = true)); [constructor; assumption | exact IH].
Qed.

Lemma findComposeWindows_LocMod (l l' : Located) :
  LocMod l l' ->
  nodeId <$> findComposeWindows l = nodeId <$> findComposeWindows l'.
Proof.
  intros ((Hhere & Hanc) & Hcontains & Hdesc).
  unfold findComposeWindows, sendCandidates, querySelectorAllLocated.
  apply composeRootsLoop_sameMod; [exact Hhere | exact Hcontains | | reflexivity].
  specialize (Hdesc _ _ Hanc).
  apply Forall2_app; apply Forall2_filter_sameModLocated;
    [apply shallowMod_hasClass | exact Hdesc | apply shallowMod_selSendLabel | exact Hdesc].
Qed.

(** Marking a region changes neither the regions a scan finds in any
    container nor the send button it finds in any region. *)
Lemma regionIds_mark (c dw : NodeId) (doc : Element) :
  regionIds (updateNode c (withAttribute PROCESSED_ATTR "true") doc) dw = regionIds doc dw.
Proof.
  unfold regionIds. pose proof (getLocated_mark c dw doc) as H.
  destruct (getLocated doc dw) as [l|];
    destruct (getLocated (updateNode c _ doc) dw) as [l'|]; try contradiction;
    [|reflexivity].
  symmetry. apply findComposeWindows_LocMod, H.
Qed.

(** *** Inserting the control *)

(** The node [getNode] finds after an insertion is the one it found
    before, with the insertion made below it. *)
Lemma getNode_insertAfterNode_node (ref : NodeId) (new : Element) (i : NodeId) (e : Element) :
  getNode new i = None ->
  getNode (insertAfterNode ref new e) i = insertAfterNode ref new <$> getNode e i.
Proof.
  intros Hnew. induction e as [e IH] using Element_children_ind.
  rewrite (getNode_unfold e), (getNode_unfold (insertAfterNode ref new e)).
  assert (Hid : nodeId (insertAfterNode ref new e) = nodeId e)
    by (rewrite insertAfterNode_unfold; reflexivity).
  rewrite Hid. destruct (decide (nodeId e = i)); [reflexivity|].
  rewrite insertAfterNode_unfold. cbn [children].
  induction IH as [|c cs Hc Hcs IHcs]; [reflexivity|].
  rewrite insertAmong_cons, !getNodeAmong_cons, Hc.
  destruct (getNode c i) as [y|]; [reflexivity|]. cbn [fmap option_fmap option_map].
  destruct (decide (nodeId c = ref)); [|exact IHcs].
  rewrite getNodeAmong_cons, Hnew. exact IHcs.
Qed.

Lemma sendIdIn_insertAfterNode (ref : NodeId) (new doc : Element) (i : NodeId) :
  children new = [] -> hasAttribute new BTN_ATTR = true -> nodeId new <> i ->
  sendIdIn (insertAfterNode ref new doc) i = sendIdIn doc i.
Proof.
  intros Hleaf Hsyn Hne. unfold sendIdIn.
  rewrite getNode_insertAfterNode_node
    by (rewrite getNode_unfold, decide_False by exact Hne; rewrite Hleaf; reflexivity).
  destruct (getNode doc i) as [el|]; [|reflexivity]. cbn [fmap option_fmap option_map].
  pose proof (findSendButton_insertAfterNode ref new el Hleaf Hsyn) as H.
  unfold sameResult in H.
  destruct (findSendButton el) as [s|];
    destruct (findSendButton (insertAfterNode ref new el)) as [s'|]; try contradiction;
    [|reflexivity].
  cbn. f_equal. symmetry. apply H.
Qed.

Lemma head_filter_app {A} (P : A -> Prop) `{!forall x, Decision (P x)} (l1 l2 : list A) :
  head (filter P (l1 ++ l2))
  = match head (filter P l1) with
    | Some x => Some x
    | None => head (filter P l2)
    end.
Proof.
  rewrite filter_app. destruct (filter P l1); reflexivity.
Qed.

(** The located node found by identity after an insertion: the one found
    before with the insertion made below it, on a chain of the same
    nodes. *)
Lemma locatedSubtree_find_insertAfterNode (ref : NodeId) (new : Element) (i : NodeId) :
  children new = [] -> nodeId new <> i ->
  forall e anc anc',
    Forall2 sameNode anc anc' ->
    match head (filter (fun l => nodeId (here l) = i) (locatedSubtree anc e)) with
    | Some l =>
        exists l',
          head (filter (fun l => nodeId (here l) = i)
                       (locatedSubtree anc' (insertAfterNode ref new e))) = Some l'
          /\ here l' = insertAfterNode ref new (here l)
          /\ Forall2 sameNode (ancestors l) (ancestors l')
    | None =>
        head (filter (fun l => nodeId (here l) = i)
                     (locatedSubtree anc' (insertAfterNode ref new e))) = None
    end.
Proof.
  intros Hleaf Hne e. induction e as [e IH] using Element_children_ind.
  intros anc anc' Hanc.
  assert (Hchain : Forall2 sameNode (e :: anc) (insertAfterNode ref new e :: anc')).
  { constructor; [apply sameNode_insertAfterNode | exact Hanc]. }
  assert (Hid : nodeId (insertAfterNode ref new e) = nodeId e)
    by (rewrite insertAfterNode_unfold; reflexivity).
  unfold locatedSubtree at 1 2 3. rewrite !filter_cons. cbn [here]. rewrite Hid.
  destruct (decide (nodeId e = i)).
  - cbn [head]. eexists. split; [reflexivity|]. split; [reflexivity | exact Hanc].
  - rewrite !locatedDescendants_subtrees.
    remember (insertAfterNode ref new e) as e' eqn:He'.
    assert (Hch : children e' = insertAmong ref new (children e)).
    { subst e'. rewrite insertAfterNode_unfold. reflexivity. }
    rewrite Hch. clear Hch He' Hid.
    induction IH as [|c cs Hc Hcs IHcs]; [reflexivity|].
    rewrite insertAmong_cons. cbn [flat_map]. rewrite !head_filter_app.
    specialize (Hc _ _ Hchain).
    destruct (head (filter _ (locatedSubtree (e :: anc) c))) as [l|].
    + destruct Hc as (l' & -> & Hl'). exists l'. split; [reflexivity | exact Hl'].
    + rewrite Hc. destruct (decide (nodeId c = ref)); [|exact IHcs].
      cbn [flat_map]. rewrite head_filter_app.
      assert (Hn : head (filter (fun l => nodeId (here l) = i)
                                (locatedSubtree (e' :: anc') new)) = None).
      { unfold locatedSubtree. rewrite locatedDescendants_subtrees, Hleaf.
        cbn [flat_map]. rewrite filter_cons, decide_False by exact Hne. reflexivity. }
      rewrite Hn. exact IHcs.
Qed.

Lemma getLocated_insertAfterNode (ref : NodeId) (new doc : Element) (i : NodeId) :
  children new = [] -> nodeId new <> i ->
  match getLocated doc i with
  | Some l =>
      exists l',
        getLocated (insertAfterNode ref new doc) i = Some l'
        /\ here l' = insertAfterNode ref new (here l)
        /\ Forall2 sameNode (ancestors l) (ancestors l')
  | None => getLocated (insertAfterNode ref new doc) i = None
  end.
Proof.
  intros Hleaf Hne. unfold getLocated.
  apply (locatedSubtree_find_insertAfterNode ref new i Hleaf Hne doc [] []). constructor.
Qed.

Lemma Forall2_sameNode_ids (l l' : list Element) :
  Forall2 sameNode l l' -> nodeId <$> l = nodeId <$> l'.
Proof.
  induction 1 as [|a b l l' Hab Hl IH]; [reflexivity|].
  rewrite !fmap_cons, IH, (proj1 Hab). reflexivity.
Qed.

(** The regions of a container after an insertion below it, its ancestors
    being shown by other handles of the same nodes. *)
Lemma findComposeWindows_insertAfterNode_located
      (ref : NodeId) (new : Element) (l l' : Located) :
  children new = [] -> hasAttribute new BTN_ATTR = true ->
  Forall (fun x => nodeId new <> nodeId x) (subtree (here l) ++ ancestors l) ->
  here l' = insertAfterNode ref new (here l) ->
  Forall2 sameNode (ancestors l) (ancestors l') ->
  nodeId <$> findComposeWindows l' = nodeId <$> findComposeWindows l.
Proof.
  intros Hleaf Hsyn Hfresh Hhere Hanc. symmetry. apply Forall2_sameNode_ids.
  unfold findComposeWindows, sendCandidates, querySelectorAllLocated. rewrite Hhere.
  pose proof (locatedDescendants_insertAfterNode ref new (here l) _ _ Hleaf Hanc) as Hdesc.
  apply (composeRootsLoop_Inserted (fun x => here x = new) (nodeId new)).
  - intros x ->. exact Hsyn.
  - apply sameNode_insertAfterNode.
  - intros i Hi. apply containsId_insertAfterNode; assumption.
  - apply Forall_forall. intros a Ha. apply Forall_forall. intros x Hx.
    assert (Hin : a ∈ locatedDescendants (ancestors l) (here l)).
    { apply elem_of_app in Ha as [Ha | Ha];
        apply list_elem_of_filter in Ha as [_ Ha]; exact Ha. }
    rewrite Forall_forall in Hfresh. apply Hfresh. apply elem_of_app.
    apply (locatedDescendants_chain (here l) (ancestors l) a x Hin Hx).
  - apply InsertedLocated_app; apply InsertedLocated_filter;
      [apply shallow_hasClass | exact Hdesc | apply shallow_selSendLabel | exact Hdesc].
  - constructor.
Qed.

(** A node found by identity, its subtree and its ancestors are nodes of
    the document. *)
Lemma getLocated_in_doc (doc : Element) (i : NodeId) (l : Located) :
  getLocated doc i = Some l ->
  Forall (fun x => x ∈ subtree doc) (subtree (here l) ++ ancestors l).
Proof.
  unfold getLocated. intros H. apply head_Some_elem_of in H.
  apply list_elem_of_filter in H as [_ H].
  assert (Hchain : forall x, x ∈ here l :: ancestors l -> x ∈ subtree doc).
  { intros x Hx. unfold locatedSubtree in H. apply elem_of_cons in H as [-> | H].
    - cbn [here ancestors] in Hx. apply elem_of_cons in Hx as [-> | Hx]; [left|].
      inversion Hx.
    - destruct (locatedDescendants_chain doc [] l x H Hx) as [Hs | Hn]; [exact Hs|].
      inversion Hn. }
  apply Forall_app. split.
  - apply Forall_forall. intros x Hx. apply elem_of_cons in Hx as [-> | Hx].
    + apply Hchain. left.
    + right. apply (descendants_subtree doc (here l)); [apply Hchain; left | exact Hx].
  - apply Forall_forall. intros x Hx. apply Hchain. right. exact Hx.
Qed.

(** Inserting a synthetic leaf of new identity changes neither the regions
    a scan finds in any container nor the send button it finds in any
    region. *)
Lemma regionIds_insertAfterNode (ref : NodeId) (new doc : Element) (dw : NodeId) :
  children new = [] -> hasAttribute new BTN_ATTR = true ->
  Forall (fun x => nodeId new <> nodeId x) (subtree doc) ->
  nodeId new <> dw ->
  regionIds (insertAfterNode ref new doc) dw = regionIds doc dw.
Proof.
  intros Hleaf Hsyn Hfresh Hne. unfold regionIds.
  pose proof (getLocated_insertAfterNode ref new doc dw Hleaf Hne) as H.
  destruct (getLocated doc dw) as [l|] eqn:Hl; [|rewrite H; reflexivity].
  destruct H as (l' & -> & Hhere & Hanc).
  apply (findComposeWindows_insertAfterNode_located ref new l l'); try assumption.
  pose proof (getLocated_in_doc doc dw l Hl) as Hin.
  rewrite Forall_forall in Hfresh. apply Forall_forall. intros x Hx.
  rewrite Forall_forall in Hin. apply Hfresh, Hin, Hx.
Qed.

(** *** What the scans see while the script runs *)

Lemma subtree_ids_updateNode (i : NodeId) (f : Element -> Element) (e : Element) :
  (forall x, nodeId (f x) = nodeId x) -> (forall x, children (f x) = children x) ->
  nodeId <$> subtree (updateNode i f e) = nodeId <$> subtree e.
Proof.
  intros Hid Hch. unfold subtree. rewrite !fmap_cons, descendants_updateNode by assumption.
  f_equal. rewrite updateNode_unfold. destruct (decide (nodeId e = i)); [apply Hid | reflexivity].
Qed.

Lemma Inserted_Forall_ids (added : Element -> Prop) (P : NodeId -> Prop)
      (l l' : list Element) :
  Inserted added l l' ->
  (forall x, added x -> P (nodeId x)) ->
  Forall (fun x => P (nodeId x)) l -> Forall (fun x => P (nodeId x)) l'.
Proof.
  intros H Hadded. induction H as [|a b l l' Hab H IH|x l l' Hx H IH]; intros Hl.
  - constructor.
  - apply Forall_cons in Hl as [Ha Hl]. constructor; [|apply IH, Hl].
    rewrite <- (proj1 Hab). exact Ha.
  - constructor; [apply Hadded, Hx | apply IH, Hl].
Qed.

Lemma Forall_ids_fmap (P : NodeId -> Prop) (l : list Element) :
  Forall (fun x => P (nodeId x)) l <-> Forall P (nodeId <$> l).
Proof. rewrite Forall_fmap. reflexivity. Qed.

(** The identities of the document after the injecting path. *)
Lemma injected_ids (P : NodeId -> Prop) (c ref : NodeId) (new doc : Element) :
  children new = [] -> P (nodeId new) ->
  Forall (fun x => P (nodeId x)) (subtree doc) ->
  Forall (fun x => P (nodeId x))
         (subtree (insertAfterNode ref new
                     (updateNode c (withAttribute PROCESSED_ATTR "true") doc))).
Proof.
  intros Hleaf Hnew Hdoc.
  apply (Inserted_Forall_ids (fun x => x = new) P
           (subtree (updateNode c (withAttribute PROCESSED_ATTR "true") doc))).
  - apply subtree_insertAfterNode, Hleaf.
  - intros x ->. exact Hnew.
  - apply Forall_ids_fmap. rewrite subtree_ids_updateNode by reflexivity.
    apply Forall_ids_fmap. exact Hdoc.
Qed.

Lemma marked_ids (P : NodeId -> Prop) (c : NodeId) (doc : Element) :
  Forall (fun x => P (nodeId x)) (subtree doc) ->
  Forall (fun x => P (nodeId x))
         (subtree (updateNode c (withAttribute PROCESSED_ATTR "true") doc)).
Proof.
  intros Hdoc. apply Forall_ids_fmap. rewrite subtree_ids_updateNode by reflexivity.
  apply Forall_ids_fmap. exact Hdoc.
Qed.

Lemma scanView_frame (w0 w w' : World) :
  dom w' = dom w -> (nextId w <= nextId w')%nat ->
  injectLog (trace w') = injectLog (trace w) ->
  scanView w0 w -> scanView w0 w'.
Proof.
  unfold scanView, idsBelow. intros -> Hn _ (Hids & Hle & Hview).
  split; [|split; [lia | exact Hview]].
  eapply Forall_impl; [exact Hids|]. cbn. intros x Hx. lia.
Qed.

Lemma scanView_injectButton (w0 : World) (c : NodeId) (w : World) :
  scanView w0 w -> scanView w0 (injectButton c w).
Proof.
  intros H.
  destruct (getNode (dom w) c) as [el|] eqn:Hnode;
    [|unfold injectButton; rewrite Hnode; exact H].
  destruct (hasAttribute el PROCESSED_ATTR) eqn:Hproc;
    [unfold injectButton; rewrite Hnode, Hproc; exact H|].
  destruct (findSendButton el) as [s|] eqn:Hsend.
  - destruct (injectButton_injecting c w el s Hnode Hproc Hsend) as (Hdom & Hnext & _).
    destruct H as (Hids & Hle & Hview). unfold scanView, idsBelow.
    rewrite Hdom, Hnext. destruct (buildButtonThrows s).
    { split; [|split; [lia|]].
      - apply (marked_ids (fun i => (i < S (nextId w))%nat)).
        eapply Forall_impl; [exact Hids|]. cbn. intros x Hx. lia.
      - intros i Hi. destruct (Hview i Hi) as (Hr & Hs).
        rewrite regionIds_mark, sendIdIn_mark. split; assumption. }
    split; [|split; [lia|]].
    + apply (injected_ids (fun i => (i < S (nextId w))%nat)); [reflexivity | cbn; lia|].
      eapply Forall_impl; [exact Hids|]. cbn. intros x Hx. lia.
    + intros i Hi. destruct (Hview i Hi) as (Hr & Hs).
      assert (Hfresh : Forall (fun x => nodeId (buildButton (nextId w) s) <> nodeId x)
                         (subtree (updateNode c (withAttribute PROCESSED_ATTR "true")
                                              (dom w)))).
      { apply (marked_ids (fun i => nodeId (buildButton (nextId w) s) <> i)).
        eapply Forall_impl; [exact Hids|]. cbn. intros x Hx. lia. }
      split.
      * rewrite regionIds_insertAfterNode, regionIds_mark;
          [exact Hr | reflexivity | apply buildButton_marker | exact Hfresh | cbn; lia].
      * rewrite sendIdIn_insertAfterNode, sendIdIn_mark;
          [exact Hs | reflexivity | apply buildButton_marker | cbn; lia].
  - destruct (injectButton_idle c w) as (Hdom & Hnext & Hlog).
    { intros el' s' Hn' Hp' Hs'. rewrite Hnode in Hn'. injection Hn' as <-. congruence. }
    apply (scanView_frame w0 w); [exact Hdom | lia | exact Hlog | exact H].
Qed.

Lemma scanView_refl (w : World) : idsBelow w -> scanView w w.
Proof. intros H. split; [exact H|]. split; [lia|]. intros i _. split; reflexivity. Qed.

(** The script never changes what its scans find.  With the node
    identities of the page below the handle supply, whatever the script
    runs, scans, injections, retries, the sequencer, the archive sequence,
    in any order and any number, every container holds the same regions for
    [findComposeWindows] and every region the same send button for
    [findSendButton] as before; only the host, rewriting the document,
    changes that. *)
Theorem scans_find_the_same_page
        (w : World) (inputs : list Input) (i : NodeId) :
  idsBelow w ->
  (i < nextId w)%nat ->
  Forall (fun x => isHostMutation x = false) inputs ->
  regionIds (dom (run inputs w)) i = regionIds (dom w) i
  /\ sendIdIn (dom (run inputs w)) i = sendIdIn (dom w) i.
Proof.
  intros Hids Hi Hall.
  assert (H : scanView w (run inputs w)).
  { apply frame_run;
      [apply scanView_frame | apply scanView_injectButton | exact Hall
       | apply scanView_refl, Hids]. }
  destruct H as (_ & _ & Hview). apply Hview, Hi.
Qed.

Lemma scans_find_the_same_page_witness :
  regionIds (dom (run [TimerFires; UserEvent 12 clickEvent; TimerFires]
                      (scheduleScan 0 TwoPopups.world))) 5
  = regionIds TwoPopups.doc 5.
Proof.
  refine (proj1 (scans_find_the_same_page (scheduleScan 0 TwoPopups.world)
                   [TimerFires; UserEvent 12 clickEvent; TimerFires] 5 _ _ _)).
  - unfold idsBelow. vm_compute. repeat constructor.
  - vm_compute. lia.
  - repeat constructor.
Defined.

(** *** One scan reaches every region that is ready *)

Lemma waiting_frame (c : NodeId) (n : nat) (w w' : World) :
  dom w' = dom w -> injectLog (trace w') = injectLog (trace w) ->
  waiting c n w -> waiting c n w'.
Proof. unfold waiting, injectionsInto. intros -> ->. exact id. Qed.

(** An injection into another region leaves a waiting region waiting. *)
Lemma waiting_injectButton_other (c : NodeId) (n : nat) (c' : NodeId) (w : World) :
  idsBelow w -> c' <> c -> waiting c n w -> waiting c n (injectButton c' w).
Proof.
  intros Hids Hne H.
  destruct (getNode (dom w) c') as [el|] eqn:Hnode;
    [|unfold injectButton; rewrite Hnode; exact H].
  destruct (hasAttribute el PROCESSED_ATTR) eqn:Hproc;
    [unfold injectButton; rewrite Hnode, Hproc; exact H|].
  destruct (findSendButton el) as [s|] eqn:Hsend.
  - destruct (injectButton_injecting c' w el s Hnode Hproc Hsend) as (Hdom & _ & Hlog).
    destruct H as ((el0 & Hnode0 & Hproc0) & Hi).
    unfold waiting, injectionsInto. rewrite Hdom, Hlog. split.
    + assert (Hfresh : nextId w <> c).
      { pose proof Hnode0 as Hn0. apply getNode_elem in Hn0 as [Hin Hid].
        unfold idsBelow in Hids.
        rewrite Forall_forall in Hids. specialize (Hids el0 Hin). lia. }
      pose proof (injected_other_attributes c c' (dom w) s (nextId w) Hne Hfresh) as Hins.
      rewrite Hnode0 in Hins.
      destruct (getNode (if buildButtonThrows s then _ else _) c) as [el'|];
        [|discriminate].
      exists el'. split; [reflexivity|]. cbn in Hins. injection Hins as Hattr.
      rewrite (hasAttribute_attributes _ el0 _ Hattr). exact Hproc0.
    + rewrite filter_cons, decide_False by exact Hne. exact Hi.
  - destruct (injectButton_idle c' w) as (Hdom & _ & Hlog).
    { intros el' s' Hn' Hp' Hs'. rewrite Hnode in Hn'. injection Hn' as <-. congruence. }
    apply (waiting_frame c n w); assumption.
Qed.

Lemma idsBelow_emit (e : Effect) (w : World) : idsBelow w -> idsBelow (emit e w).
Proof. exact id. Qed.

Lemma waiting_tryInject_other (c : NodeId) (n : nat) (c' : NodeId) (r : Z) (w : World) :
  idsBelow w -> c' <> c -> waiting c n w -> waiting c n (tryInjectWithRetry c' r w).
Proof.
  intros Hids Hne H. rewrite tryInjectWithRetry_cases.
  destruct (getNode (dom w) c') as [el|]; [|exact H].
  destruct (hasAttribute el PROCESSED_ATTR); [exact H|]. cbv zeta.
  assert (H0 : waiting c n (emit (FindSendButton ByTryInjectWithRetry c') w)).
  { apply (waiting_frame c n w); [reflexivity | | exact H].
    cbn [emit trace setTrace]. apply injectLog_cons. }
  destruct (findSendButton el).
  - apply waiting_injectButton_other; [apply idsBelow_emit, Hids | exact Hne | exact H0].
  - destruct (0 <? r)%Z; [|exact H0].
    apply (waiting_frame c n (emit (FindSendButton ByTryInjectWithRetry c') w));
      [reflexivity | | exact H0].
    cbn [setTimeout emit trace setTrace]. apply injectLog_cons.
Qed.

(** The run of [tryInjectWithRetry] on a waiting region with a send
    button takes the injecting path. *)
Lemma waiting_tryInject (c : NodeId) (n : nat) (r : Z) (w : World) :
  idsBelow w -> is_Some (sendIdIn (dom w) c) -> waiting c n w ->
  settled c (S n) (tryInjectWithRetry c r w).
Proof.
  intros Hids Hsend ((el & Hnode & Hproc) & Hi).
  unfold sendIdIn in Hsend. rewrite Hnode in Hsend.
  destruct (findSendButton el) as [s|] eqn:Hs; [|destruct Hsend; discriminate].
  assert (Hc : (c < nextId w)%nat).
  { apply getNode_elem in Hnode as [Hin Hid]. unfold idsBelow in Hids.
    rewrite Forall_forall in Hids. specialize (Hids el Hin). lia. }
  rewrite tryInjectWithRetry_cases, Hnode, Hproc, Hs. cbv zeta.
  set (w0 := emit (FindSendButton ByTryInjectWithRetry c) w).
  assert (Hnode0 : getNode (dom w0) c = Some el) by exact Hnode.
  destruct (injectButton_injecting c w0 el s Hnode0 Hproc Hs) as (_ & Hnext & Hlog).
  assert (Hfresh : nextId w0 <> c) by (cbn; lia).
  pose proof (injectButton_marks c w0 el s Hnode0 Hproc Hs Hfresh) as Hmark.
  unfold settled, processed, injectionsInto.
  rewrite Hnext, Hlog. split; [cbn; lia|]. split; [exact Hmark|].
  rewrite filter_cons, decide_True by reflexivity. cbn [length]. f_equal.
  unfold w0. cbn [emit trace setTrace]. rewrite injectLog_cons. exact Hi.
Qed.

(** The state of one region during a scan that started in [w0]. *)

Lemma injectButton_timers_now (c : NodeId) (w : World) :
  timers (injectButton c w) = timers w /\ now (injectButton c w) = now w.
Proof.
  unfold injectButton. destruct (getNode (dom w) c) as [el|]; [|split; reflexivity].
  destruct (hasAttribute el PROCESSED_ATTR); [split; reflexivity|].
  cbn [emit dom setTrace].
  destruct (findSendButton el) as [s|]; [destruct (buildButtonThrows s)|];
    split; reflexivity.
Qed.

Lemma tryInjectWithRetry_timers_now (c : NodeId) (r : Z) (w : World) :
  (forall t, t ∈ timers w -> t ∈ timers (tryInjectWithRetry c r w))
  /\ now (tryInjectWithRetry c r w) = now w.
Proof.
  rewrite tryInjectWithRetry_cases.
  destruct (getNode (dom w) c) as [el|]; [|split; [intros t Ht; exact Ht | reflexivity]].
  destruct (hasAttribute el PROCESSED_ATTR); [split; [intros t Ht; exact Ht | reflexivity]|].
  cbv zeta. destruct (findSendButton el).
  - destruct (injectButton_timers_now c (emit (FindSendButton ByTryInjectWithRetry c) w))
      as (-> & ->).
    split; [intros t Ht; exact Ht | reflexivity].
  - destruct (0 <? r)%Z; [|split; [intros t Ht; exact Ht | reflexivity]].
    split; [|reflexivity]. intros t Ht. cbn. apply elem_of_app. left. exact Ht.
Qed.

(** *** Pages on which no injection throws *)

Lemma firstSendIn_accepts (attr : string) (els : list Element) (el : Element) :
  firstSendIn attr els = Some el ->
  el ∈ els /\ hasAttribute el BTN_ATTR = false
  /\ acceptsSendText (Str.toLowerCase (getAttributeOrEmpty el attr)) = true.
Proof.
  induction els as [|x els IH]; cbn [firstSendIn]; [discriminate|].
  destruct (hasAttribute x BTN_ATTR) eqn:Hsyn.
  - intros H. destruct (IH H) as (Hin & Hrest). split; [right; exact Hin | exact Hrest].
  - destruct (acceptsSendText (Str.toLowerCase (getAttributeOrEmpty x attr))) eqn:Hacc.
    + intros [= <-]. split; [left|]. split; assumption.
    + intros H. destruct (IH H) as (Hin & Hrest). split; [right; exact Hin | exact Hrest].
Qed.

(** What [findSendButton] returns is an element that one of its loops
    accepts. *)
Lemma findSendButton_isSendButton (region el : Element) :
  findSendButton region = Some el -> isSendButton el = true.
Proof.
  unfold findSendButton, querySelectorAll, isSendButton. intros H.
  destruct (firstSendIn "data-tooltip" _) as [x|] eqn:H1.
  - injection H as ->. apply firstSendIn_accepts in H1 as (Hin & Hsyn & Hacc).
    apply list_elem_of_filter in Hin as [Hsel _].
    rewrite Hsyn, Hsel, Hacc. reflexivity.
  - apply firstSendIn_accepts in H as (Hin & Hsyn & Hacc).
    apply list_elem_of_filter in Hin as [Hsel _].
    rewrite Hsyn, Hsel, Hacc. cbn. apply orb_true_r.
Qed.

(** On a page whose send buttons are HTML elements no injection throws. *)
Lemma htmlSendButtons_injectButton_returns (c : NodeId) (w : World) :
  htmlSendButtons (dom w) -> injectButtonThrows c w = false.
Proof.
  intros Hhtml. unfold injectButtonThrows.
  destruct (getNode (dom w) c) as [el|] eqn:Hnode; [|reflexivity].
  destruct (hasAttribute el PROCESSED_ATTR); [reflexivity|].
  destruct (findSendButton el) as [s|] eqn:Hsend; [|reflexivity].
  unfold htmlSendButtons in Hhtml. rewrite Forall_forall in Hhtml.
  apply Hhtml; [|apply (findSendButton_isSendButton el), Hsend].
  apply getNode_elem in Hnode as [Hel _]. right.
  apply (descendants_subtree (dom w) el Hel), findSendButton_descendant, Hsend.
Qed.

Lemma htmlSendButtons_tryInject_returns (c : NodeId) (w : World) :
  htmlSendButtons (dom w) -> tryInjectWithRetryThrows c w = false.
Proof.
  intros Hhtml. unfold tryInjectWithRetryThrows.
  destruct (getNode (dom w) c) as [el|]; [|reflexivity].
  destruct (hasAttribute el PROCESSED_ATTR); [reflexivity|].
  destruct (bool_decide _); [|reflexivity].
  apply htmlSendButtons_injectButton_returns. exact Hhtml.
Qed.

Lemma Forall_subtree_children (Q : Element -> Prop) (e : Element) :
  Forall Q (subtree e) <-> Q e /\ Forall (fun c => Forall Q (subtree c)) (children e).
Proof.
  unfold subtree at 1. rewrite Forall_cons, descendants_unfold.
  split; intros [He Hcs]; (split; [exact He|]).
  - induction (children e) as [|c cs IH]; [constructor|].
    cbn [flat_map] in Hcs. apply Forall_app in Hcs as [Hc Hcs].
    constructor; [exact Hc | apply IH, Hcs].
  - induction Hcs as [|c cs Hc Hcs IH]; [constructor|].
    cbn [flat_map]. apply Forall_app. split; [exact Hc | exact IH].
Qed.

Lemma Forall_subtree_mark (Q : Element -> Prop) (c : NodeId) (e : Element) :
  nodeLocal Q ->
  Forall Q (subtree e) ->
  Forall Q (subtree (updateNode c (withAttribute PROCESSED_ATTR "true") e)).
Proof.
  intros HQ. induction e as [e IH] using Element_children_ind. intros He.
  pose proof (sameMod_updateNode c e) as Hroot.
  apply Forall_subtree_children in He as [Hq Hcs].
  apply Forall_subtree_children.
  rewrite updateNode_unfold in *. destruct (decide (nodeId e = c)).
  - split; [apply (HQ e); [exact Hroot | reflexivity | exact Hq] | exact Hcs].
  - split; [apply (HQ e); [exact Hroot | reflexivity | exact Hq]|].
    cbn [children]. apply Forall_fmap, Forall_forall. intros x Hx.
    rewrite Forall_forall in IH, Hcs. apply (IH x Hx), Hcs, Hx.
Qed.

Lemma Forall_subtree_insertAfterNode (Q : Element -> Prop) (ref : NodeId)
      (new e : Element) :
  nodeLocal Q -> Forall Q (subtree new) ->
  Forall Q (subtree e) -> Forall Q (subtree (insertAfterNode ref new e)).
Proof.
  intros HQ Hnew. induction e as [e IH] using Element_children_ind. intros He.
  apply Forall_subtree_children in He as [Hq Hcs].
  apply Forall_subtree_children. rewrite insertAfterNode_unfold.
  split.
  - apply (HQ e); [repeat split | reflexivity | exact Hq].
  - cbn [children]. clear Hq.
    induction IH as [|x cs Hx Hcs' IHcs]; [constructor|].
    apply Forall_cons in Hcs as [Hqx Hcs]. rewrite insertAmong_cons.
    constructor; [apply Hx, Hqx|].
    destruct (decide (nodeId x = ref)); [constructor; [exact Hnew|]|]; apply IHcs, Hcs.
Qed.

Lemma shallowMod_isSendButton : shallowMod isSendButton.
Proof.
  intros a b H. unfold isSendButton, selSendClass, getAttributeOrEmpty.
  rewrite (shallowMod_hasAttribute BTN_ATTR ltac:(discriminate) a b H),
    (shallowMod_hasClass "aoO" a b H), (shallowMod_selSendLabel a b H),
    (sameMod_getAttribute a b "data-tooltip" ltac:(discriminate) H),
    (sameMod_getAttribute a b "aria-label" ltac:(discriminate) H).
  reflexivity.
Qed.

Lemma nodeLocal_htmlSendButton :
  nodeLocal (fun x => isSendButton x = true -> buildButtonThrows x = false).
Proof.
  intros a b Hab Hsvg Ha Hb. unfold buildButtonThrows. rewrite <- Hsvg.
  apply Ha. rewrite (shallowMod_isSendButton a b Hab). exact Hb.
Qed.

Lemma htmlSendButtons_injectButton (c : NodeId) (w : World) :
  htmlSendButtons (dom w) -> htmlSendButtons (dom (injectButton c w)).
Proof.
  intros H.
  destruct (getNode (dom w) c) as [el|] eqn:Hnode;
    [|unfold injectButton; rewrite Hnode; exact H].
  destruct (hasAttribute el PROCESSED_ATTR) eqn:Hproc;
    [unfold injectButton; rewrite Hnode, Hproc; exact H|].
  destruct (findSendButton el) as [s|] eqn:Hsend.
  - destruct (injectButton_injecting c w el s Hnode Hproc Hsend) as (Hdom & _ & _).
    rewrite Hdom. unfold htmlSendButtons.
    destruct (buildButtonThrows s).
    + apply Forall_subtree_mark; [apply nodeLocal_htmlSendButton | exact H].
    + apply Forall_subtree_insertAfterNode; [apply nodeLocal_htmlSendButton | |].
      * constructor; [intros _; reflexivity | constructor].
      * apply Forall_subtree_mark; [apply nodeLocal_htmlSendButton | exact H].
  - destruct (injectButton_idle c w) as (Hdom & _ & _).
    { intros el' s' Hn' Hp' Hs'. rewrite Hnode in Hn'. injection Hn' as <-. congruence. }
    rewrite Hdom. exact H.
Qed.

Lemma scanning_tryInject (w0 : World) (c : NodeId) (r : Z) (x : World) :
  scanning w0 x -> scanning w0 (tryInjectWithRetry c r x).
Proof.
  intros (Hv & Hh & Hn). split; [|split].
  - apply frame_tryInject;
      [apply scanView_frame | apply scanView_injectButton | exact Hv].
  - apply (frame_tryInject (fun y => htmlSendButtons (dom y))); [| |exact Hh].
    + intros w w' Hdom _ _ H. rewrite Hdom. exact H.
    + intros c' w. apply htmlSendButtons_injectButton.
  - rewrite (proj2 (tryInjectWithRetry_timers_now c r x)). exact Hn.
Qed.

(** On such a page the loops of [scanAll] run to their end. *)
Lemma forEachRegion_returns (w0 : World) (regions : list NodeId) (x : World) :
  scanning w0 x ->
  forEachRegion regions x
  = (fold_left (fun y c => tryInjectWithRetry c 6 y) regions x, false).
Proof.
  revert x. induction regions as [|c rest IH]; intros x Hx; [reflexivity|].
  cbn [forEachRegion fold_left].
  rewrite (htmlSendButtons_tryInject_returns c x (proj1 (proj2 Hx))).
  apply IH, scanning_tryInject, Hx.
Qed.

Lemma forEachContainer_returns (w0 : World) (dwEls : list NodeId) (x : World) :
  scanning w0 x ->
  forEachContainer dwEls x
  = fold_left (fun y dw => fold_left (fun z c => tryInjectWithRetry c 6 z)
                                     (regionIds (dom y) dw) y)
              dwEls x.
Proof.
  revert x. induction dwEls as [|dw rest IH]; intros x Hx; [reflexivity|].
  cbn [forEachContainer fold_left]. unfold regionIds at 2.
  destruct (getLocated (dom x) dw) as [dwEl|]; [|apply IH, Hx].
  rewrite (forEachRegion_returns w0 _ x Hx). apply IH.
  apply (fold_left_invariant _ (scanning w0)); [|exact Hx].
  intros y c Hy. apply scanning_tryInject, Hy.
Qed.

(** *** One region through the loops of a scan *)

(** The loops of [scanAll], seen from one region [c].  [J] is what the scan
    keeps throughout, [Pre] holds of [c] until its turn comes, [Done] from
    then on. *)
Section ScanTurn.
Variables (J Pre Done : World -> Prop) (c : NodeId) (w0 : World).
Hypothesis J_keep : forall x c', J x -> J (tryInjectWithRetry c' 6 x).
Hypothesis J_regions :
  forall x dw, J x -> (dw < nextId w0)%nat -> regionIds (dom x) dw = regionIds (dom w0) dw.
Hypothesis Pre_other :
  forall x c', J x -> c' <> c -> Pre x -> Pre (tryInjectWithRetry c' 6 x).
Hypothesis Done_keep : forall x c', J x -> Done x -> Done (tryInjectWithRetry c' 6 x).
Hypothesis Done_turn : forall x, J x -> Pre x -> Done (tryInjectWithRetry c 6 x).

Lemma turn_regions (regions : list NodeId) :
  forall x,
    J x -> Pre x \/ Done x ->
    let x' := fold_left (fun y c' => tryInjectWithRetry c' 6 y) regions x in
    J x' /\ (Pre x' \/ Done x') /\ (c ∈ regions -> Done x').
Proof.
  induction regions as [|c' rest IH]; intros x HJ Hstate; cbv zeta.
  - cbn [fold_left]. split; [exact HJ|]. split; [exact Hstate|].
    intros Hin. inversion Hin.
  - cbn [fold_left].
    assert (Hhere : c' = c -> Done (tryInjectWithRetry c' 6 x)).
    { intros Heq. destruct Hstate as [Hp | Hd]; [|apply Done_keep; assumption].
      rewrite Heq. apply Done_turn; assumption. }
    assert (Hstate' : Pre (tryInjectWithRetry c' 6 x) \/ Done (tryInjectWithRetry c' 6 x)).
    { destruct (decide (c' = c)) as [Heq|Hne]; [right; apply Hhere, Heq|].
      destruct Hstate as [Hp | Hd]; [left | right; apply Done_keep; assumption].
      apply Pre_other; assumption. }
    destruct (IH _ (J_keep x c' HJ) Hstate') as (HJ' & Hst & Hin).
    cbv zeta in HJ', Hst, Hin.
    split; [exact HJ'|]. split; [exact Hst|].
    intros Hmem. destruct (decide (c' = c)) as [Heq|Hne].
    + destruct (IH _ (J_keep x c' HJ) (or_intror (Hhere Heq))) as (_ & Hst' & _).
      cbv zeta in Hst'. clear Hin Hst Hstate'.
      assert (Hboth : J (fold_left (fun y c'0 => tryInjectWithRetry c'0 6 y) rest
                                   (tryInjectWithRetry c' 6 x))
                      /\ Done (fold_left (fun y c'0 => tryInjectWithRetry c'0 6 y) rest
                                         (tryInjectWithRetry c' 6 x))).
      { apply (fold_left_invariant _ (fun y => J y /\ Done y));
          [|split; [apply J_keep, HJ | apply Hhere, Heq]].
        intros y b [Hy Hd]. split; [apply J_keep, Hy | apply Done_keep; assumption]. }
      apply Hboth.
    + apply Hin. apply elem_of_cons in Hmem as [Heq | Hmem]; [|exact Hmem].
      exfalso. apply Hne. symmetry. exact Heq.
Qed.

Lemma turn_containers (dwEls : list NodeId) :
  Forall (fun dw => (dw < nextId w0)%nat) dwEls ->
  forall x,
    J x -> Pre x \/ Done x ->
    let x' :=
      fold_left (fun y dw => fold_left (fun z c' => tryInjectWithRetry c' 6 z)
                                       (regionIds (dom y) dw) y)
                dwEls x in
    J x' /\ (Pre x' \/ Done x')
    /\ ((exists dw, dw ∈ dwEls /\ c ∈ regionIds (dom w0) dw) -> Done x').
Proof.
  intros Hdws. induction Hdws as [|dw rest Hdw Hrest IH]; intros x HJ Hstate; cbv zeta.
  - cbn [fold_left]. split; [exact HJ|]. split; [exact Hstate|].
    intros (dw & Hin & _). inversion Hin.
  - cbn [fold_left].
    destruct (turn_regions (regionIds (dom x) dw) x HJ Hstate) as (HJ' & Hstate' & Hin').
    cbv zeta in HJ', Hstate', Hin'.
    destruct (IH _ HJ' Hstate') as (Hv & Hst & Hin). cbv zeta in Hv, Hst, Hin.
    split; [exact Hv|]. split; [exact Hst|].
    intros (dw' & Hmem & Hreg). apply elem_of_cons in Hmem as [-> | Hmem].
    + assert (Hd : Done (fold_left (fun z c' => tryInjectWithRetry c' 6 z)
                                   (regionIds (dom x) dw) x)).
      { apply Hin'. rewrite (J_regions x dw HJ Hdw). exact Hreg. }
      clear Hin Hst.
      assert (Hboth : forall l y, J y /\ Done y ->
                 J (fold_left (fun y dw => fold_left (fun z c' => tryInjectWithRetry c' 6 z)
                                                     (regionIds (dom y) dw) y) l y)
                 /\ Done (fold_left (fun y dw =>
                                       fold_left (fun z c' => tryInjectWithRetry c' 6 z)
                                                 (regionIds (dom y) dw) y) l y)).
      { intros l. induction l as [|d l IHl]; intros y Hy; [exact Hy|].
        cbn [fold_left]. apply IHl.
        apply (fold_left_invariant _ (fun z => J z /\ Done z)); [|exact Hy].
        intros z b [Hz Hdz]. split; [apply J_keep, Hz | apply Done_keep; assumption]. }
      apply (Hboth rest _ (conj HJ' Hd)).
    + apply Hin. exists dw'. split; assumption.
Qed.

End ScanTurn.

(** *** One scan reaches every region that is ready *)

Lemma tryInjectWithRetry_trace (c : NodeId) (r : Z) (w : World) :
  exists new, trace (tryInjectWithRetry c r w) = new ++ trace w.
Proof.
  rewrite tryInjectWithRetry_cases.
  destruct (getNode (dom w) c) as [el|] eqn:Hnode; [|exists []; reflexivity].
  destruct (hasAttribute el PROCESSED_ATTR) eqn:Hproc; [exists []; reflexivity|].
  cbv zeta. destruct (findSendButton el) as [s|] eqn:Hsend.
  - set (w1 := emit (FindSendButton ByTryInjectWithRetry c) w).
    assert (Hnode1 : getNode (dom w1) c = Some el) by exact Hnode.
    destruct (buildButtonThrows s) eqn:Hthrows.
    + destruct (injectButton_throws c w1 el s Hnode1 Hproc Hsend Hthrows) as (Htr & _).
      rewrite Htr. eexists (_ ++ [_]). rewrite <- app_assoc. reflexivity.
    + destruct (injectButton_injects c w1 el s Hnode1 Hproc Hsend Hthrows) as (Htr & _).
      rewrite Htr. eexists (_ ++ [_]). rewrite <- app_assoc. reflexivity.
  - destruct (0 <? r)%Z; [eexists [_; _] | eexists [_]]; reflexivity.
Qed.

Lemma controlAfter_tryInject (sendBtn : NodeId) (n0 : nat) (c : NodeId) (r : Z)
      (w : World) :
  controlAfter sendBtn n0 w -> controlAfter sendBtn n0 (tryInjectWithRetry c r w).
Proof.
  intros (btn & Hin & Hle). exists btn. split; [|exact Hle].
  destruct (tryInjectWithRetry_trace c r w) as (new & ->).
  rewrite insertions_app. apply elem_of_app. left. exact Hin.
Qed.

Lemma scanning_idsBelow (w0 x : World) : scanning w0 x -> idsBelow x.
Proof. intros (Hv & _). apply Hv. Qed.

(** The run of [tryInjectWithRetry] on a waiting region with a send button
    that is an HTML element takes the injecting path and inserts a
    control after that button. *)
Lemma waiting_tryInject_control (c sendBtn : NodeId) (n : nat) (w : World) :
  htmlSendButtons (dom w) -> sendIdIn (dom w) c = Some sendBtn -> waiting c n w ->
  controlAfter sendBtn (nextId w) (tryInjectWithRetry c 6 w).
Proof.
  intros Hhtml Hsend ((el & Hnode & Hproc) & _).
  pose proof (htmlSendButtons_injectButton_returns c w Hhtml) as Hret.
  unfold injectButtonThrows in Hret. unfold sendIdIn in Hsend.
  rewrite Hnode in Hsend, Hret. rewrite Hproc in Hret.
  destruct (findSendButton el) as [s|] eqn:Hs; [|discriminate].
  cbn in Hsend. injection Hsend as Hid.
  rewrite tryInjectWithRetry_cases, Hnode, Hproc, Hs. cbv zeta.
  set (w1 := emit (FindSendButton ByTryInjectWithRetry c) w).
  assert (Hnode1 : getNode (dom w1) c = Some el) by exact Hnode.
  destruct (injectButton_injects c w1 el s Hnode1 Hproc Hs Hret) as (Htr & _).
  exists (nextId w). split; [|lia]. rewrite Htr, insertions_app, Hid.
  apply elem_of_app. right. cbn. left.
Qed.

(** One scan reaches every region that is ready, on any page.  The node
    identities of the page lie below the handle supply and no send button
    of the page is an SVG element, so that no injection throws.  Then,
    whatever the number of popup containers and of regions in them, nested
    or not, and whatever the other regions are like, every region that
    [findComposeWindows] returns for some container and that is not
    processed and has its send button rendered when [scanAll] starts is
    processed when [scanAll] returns; the injecting path ran for it exactly
    once, and a new control was inserted after its send button. *)
Theorem scanAll_reaches_every_ready_region
        (w : World) (dw : Element) (l : Located) (r el s : Element) :
  idsBelow w ->
  htmlSendButtons (dom w) ->
  dw ∈ documentQuerySelectorAll (dom w) (hasClass "dw") ->
  getLocated (dom w) (nodeId dw) = Some l ->
  r ∈ findComposeWindows l ->
  getNode (dom w) (nodeId r) = Some el ->
  hasAttribute el PROCESSED_ATTR = false ->
  findSendButton el = Some s ->
  processed (nodeId r) (scanAll w)
  /\ injectionsInto (nodeId r) (trace (scanAll w))
     = S (injectionsInto (nodeId r) (trace w))
  /\ exists btn, (nodeId s, btn) ∈ insertions (trace (scanAll w))
                 /\ (nextId w <= btn)%nat.
Proof.
  intros Hids Hhtml Hdw Hl Hr Hnode Hproc Hsend.
  set (dwEls := map nodeId (documentQuerySelectorAll (dom w) (hasClass "dw"))).
  set (w0 := LOG (LogScanAll (length dwEls)) (setScanTimer None w)).
  set (n := injectionsInto (nodeId r) (trace w)).
  assert (HJ0 : scanning w0 w0).
  { split; [apply scanView_refl; exact Hids|]. split; [exact Hhtml | reflexivity]. }
  assert (Hc : (nodeId r < nextId w0)%nat).
  { pose proof Hnode as Hn. apply getNode_elem in Hn as [Hin Hid]. unfold idsBelow in Hids.
    rewrite Forall_forall in Hids. specialize (Hids el Hin). cbn. lia. }
  assert (Hready : sendIdIn (dom w0) (nodeId r) = Some (nodeId s)).
  { unfold sendIdIn. change (dom w0) with (dom w). rewrite Hnode, Hsend. reflexivity. }
  assert (Hwait : waiting (nodeId r) n w0).
  { split; [exists el; split; assumption|].
    unfold w0, LOG, injectionsInto. cbn [emit trace setTrace setScanTimer].
    rewrite injectLog_cons. reflexivity. }
  assert (Hdws : Forall (fun i => (i < nextId w0)%nat) dwEls).
  { apply Forall_forall. intros i Hi. apply list_elem_of_fmap in Hi as (d & -> & Hd).
    unfold documentQuerySelectorAll in Hd. apply list_elem_of_filter in Hd as [_ Hd].
    unfold idsBelow in Hids. rewrite Forall_forall in Hids. apply (Hids d Hd). }
  assert (Hscan : scanAll w
                  = fold_left (fun y dw => fold_left (fun z c' => tryInjectWithRetry c' 6 z)
                                                     (regionIds (dom y) dw) y)
                              dwEls w0).
  { unfold scanAll. cbv zeta. apply (forEachContainer_returns w0), HJ0. }
  destruct (turn_containers
              (scanning w0) (waiting (nodeId r) n)
              (fun x => settled (nodeId r) (S n) x
                        /\ controlAfter (nodeId s) (nextId w0) x)
              (nodeId r) w0) with (dwEls := dwEls) (x := w0)
    as (_ & _ & Hdone).
  - intros x c' Hx. apply scanning_tryInject, Hx.
  - intros x i (Hv & _) Hi. destruct Hv as (_ & _ & Hv). apply (Hv i Hi).
  - intros x c' Hx Hne Hw.
    apply waiting_tryInject_other; [apply (scanning_idsBelow w0), Hx | exact Hne | exact Hw].
  - intros x c' Hx [Hs Hctl]. split.
    + apply frame_tryInject; [apply settled_frame | apply settled_injectButton | exact Hs].
    + apply controlAfter_tryInject, Hctl.
  - intros x Hx Hw.
    assert (Hsx : sendIdIn (dom x) (nodeId r) = Some (nodeId s)).
    { destruct Hx as ((_ & _ & Hv) & _). rewrite (proj2 (Hv _ Hc)). exact Hready. }
    split.
    + apply waiting_tryInject; [apply (scanning_idsBelow w0), Hx | | exact Hw].
      rewrite Hsx. eexists. reflexivity.
    + destruct (waiting_tryInject_control (nodeId r) (nodeId s) n x
                  (proj1 (proj2 Hx)) Hsx Hw) as (btn & Hin & Hle).
      exists btn. split; [exact Hin|]. destruct Hx as ((_ & Hn0 & _) & _). lia.
  - exact Hdws.
  - exact HJ0.
  - left. exact Hwait.
  - rewrite Hscan. destruct Hdone as ((_ & Hp & Hi) & Hctl).
    + exists (nodeId dw). split.
      * apply list_elem_of_fmap. exists dw. split; [reflexivity | exact Hdw].
      * unfold regionIds. change (dom w0) with (dom w). rewrite Hl.
        apply list_elem_of_fmap. exists r. split; [reflexivity | exact Hr].
    + split; [exact Hp|]. split; [exact Hi | exact Hctl].
Qed.

(** Both hypotheses can be checked by running over the document. *)
Lemma htmlSendButtons_check (doc : Element) :
  forallb (fun x => negb (isSendButton x) || negb (buildButtonThrows x)) (subtree doc) = true ->
  htmlSendButtons doc.
Proof.
  intros H. rewrite forallb_forall in H. apply Forall_forall. intros x Hx Hsend.
  specialize (H x (proj1 (list_elem_of_In _ _) Hx)). rewrite Hsend in H.
  destruct (buildButtonThrows x); [discriminate | reflexivity].
Qed.

Lemma idsBelow_check (w : World) :
  forallb (fun x => nodeId x <? nextId w)%nat (subtree (dom w)) = true -> idsBelow w.
Proof.
  intros H. rewrite forallb_forall in H. apply Forall_forall. intros x Hx.
  apply Nat.ltb_lt, H, list_elem_of_In, Hx.
Qed.

Lemma scanAll_reaches_every_ready_region_witness :
  processed 21 (scanAll TwoPopups.world)
  /\ injectionsInto 21 (trace (scanAll TwoPopups.world)) = 1%nat
  /\ exists btn, (22, btn)%nat ∈ insertions (trace (scanAll TwoPopups.world))
                 /\ (100 <= btn)%nat.
Proof.
  apply (scanAll_reaches_every_ready_region TwoPopups.world
           (mkElement 5 "div" "dw" ∅ [Sample.nativeCompose])
           (mkLocated (mkElement 5 "div" "dw" ∅ [Sample.nativeCompose]) [TwoPopups.doc])
           Sample.nativeCompose Sample.nativeCompose
           (Sample.control 22 "T-I J-J5-Ji aoO" "Send")).
  - apply idsBelow_check. vm_compute. reflexivity.
  - apply htmlSendButtons_check. vm_compute. reflexivity.
  - vm_compute. right. left.
  - vm_compute. reflexivity.
  - vm_compute. left.
  - vm_compute. reflexivity.
  - vm_compute. reflexivity.
  - vm_compute. reflexivity.
Defined.

(** *** One scan retries every region that is not ready *)

(** The run of [tryInjectWithRetry] on a waiting region without a send
    button leaves it waiting and sets a retry. *)
Lemma unready_tryInject (c : NodeId) (n : nat) (w : World) :
  sendIdIn (dom w) c = None -> waiting c n w ->
  waiting c n (tryInjectWithRetry c 6 w)
  /\ retrying c (now w) (nextId w) (tryInjectWithRetry c 6 w).
Proof.
  intros Hsend Hw. pose proof Hw as ((el & Hnode & Hproc) & Hi).
  unfold sendIdIn in Hsend. rewrite Hnode in Hsend.
  destruct (findSendButton el) as [s|] eqn:Hs; [discriminate|].
  rewrite tryInjectWithRetry_cases, Hnode, Hproc, Hs. cbv zeta.
  change (0 <? 6)%Z with true. cbv iota. split.
  - apply (waiting_frame c n w); [reflexivity | | exact Hw].
    cbn [setTimeout emit trace setTrace setNextId setTimers]. rewrite !injectLog_cons.
    reflexivity.
  - exists (mkTimer (nextId w) (now w + Z.max 0 300) (CbTryInjectRetry c 6)).
    split; [|split; [reflexivity | split; [reflexivity | cbn; lia]]].
    cbn. apply elem_of_app. right. left.
Qed.

Lemma retrying_tryInject (c : NodeId) (t0 : Z) (n0 : nat) (c' : NodeId) (r : Z)
      (w : World) :
  retrying c t0 n0 w -> retrying c t0 n0 (tryInjectWithRetry c' r w).
Proof.
  intros (t & Ht & Hrest). exists t. split; [|exact Hrest].
  apply (proj1 (tryInjectWithRetry_timers_now c' r w)), Ht.
Qed.

(** One scan forgets no region.  The node identities of the page lie below
    the handle supply and no send button of the page is an SVG element, so
    that no injection throws.  Then, on any page, every region that
    [findComposeWindows] returns for some container and that is not
    processed and has no send button yet when [scanAll] starts is still
    without marker and without injection when [scanAll] returns, whatever
    was injected elsewhere, and a retry for it with the full budget of 6 is
    pending, set by this scan and due 300 ms after it. *)
Theorem scanAll_retries_every_unready_region
        (w : World) (dw : Element) (l : Located) (r el : Element) :
  idsBelow w ->
  htmlSendButtons (dom w) ->
  dw ∈ documentQuerySelectorAll (dom w) (hasClass "dw") ->
  getLocated (dom w) (nodeId dw) = Some l ->
  r ∈ findComposeWindows l ->
  getNode (dom w) (nodeId r) = Some el ->
  hasAttribute el PROCESSED_ATTR = false ->
  findSendButton el = None ->
  waiting (nodeId r) (injectionsInto (nodeId r) (trace w)) (scanAll w)
  /\ exists t, t ∈ timers (scanAll w)
               /\ callback t = CbTryInjectRetry (nodeId r) 6
               /\ due t = (now w + 300)%Z
               /\ (nextId w <= timerId t)%nat.
Proof.
  intros Hids Hhtml Hdw Hl Hr Hnode Hproc Hsend.
  set (dwEls := map nodeId (documentQuerySelectorAll (dom w) (hasClass "dw"))).
  set (w0 := LOG (LogScanAll (length dwEls)) (setScanTimer None w)).
  set (n := injectionsInto (nodeId r) (trace w)).
  assert (HJ0 : scanning w0 w0).
  { split; [apply scanView_refl; exact Hids|]. split; [exact Hhtml | reflexivity]. }
  assert (Hc : (nodeId r < nextId w0)%nat).
  { pose proof Hnode as Hn. apply getNode_elem in Hn as [Hin Hid]. unfold idsBelow in Hids.
    rewrite Forall_forall in Hids. specialize (Hids el Hin). cbn. lia. }
  assert (Hunready : sendIdIn (dom w0) (nodeId r) = None).
  { unfold sendIdIn. change (dom w0) with (dom w). rewrite Hnode, Hsend. reflexivity. }
  assert (Hwait : waiting (nodeId r) n w0).
  { split; [exists el; split; assumption|].
    unfold w0, LOG, injectionsInto. cbn [emit trace setTrace setScanTimer].
    rewrite injectLog_cons. reflexivity. }
  assert (Hdws : Forall (fun i => (i < nextId w0)%nat) dwEls).
  { apply Forall_forall. intros i Hi. apply list_elem_of_fmap in Hi as (d & -> & Hd).
    unfold documentQuerySelectorAll in Hd. apply list_elem_of_filter in Hd as [_ Hd].
    unfold idsBelow in Hids. rewrite Forall_forall in Hids. apply (Hids d Hd). }
  assert (Hscan : scanAll w
                  = fold_left (fun y dw => fold_left (fun z c' => tryInjectWithRetry c' 6 z)
                                                     (regionIds (dom y) dw) y)
                              dwEls w0).
  { unfold scanAll. cbv zeta. apply (forEachContainer_returns w0), HJ0. }
  assert (Hsx : forall x, scanning w0 x -> sendIdIn (dom x) (nodeId r) = None).
  { intros x ((_ & _ & Hv) & _). rewrite (proj2 (Hv _ Hc)). exact Hunready. }
  destruct (turn_containers
              (scanning w0) (waiting (nodeId r) n)
              (fun x => waiting (nodeId r) n x
                        /\ retrying (nodeId r) (now w0) (nextId w0) x)
              (nodeId r) w0) with (dwEls := dwEls) (x := w0)
    as (_ & Hstate & Hdone).
  - intros x c' Hx. apply scanning_tryInject, Hx.
  - intros x i (Hv & _) Hi. destruct Hv as (_ & _ & Hv). apply (Hv i Hi).
  - intros x c' Hx Hne Hw.
    apply waiting_tryInject_other; [apply (scanning_idsBelow w0), Hx | exact Hne | exact Hw].
  - intros x c' Hx [Hw Hretry]. split; [|apply retrying_tryInject, Hretry].
    destruct (decide (c' = nodeId r)) as [->|Hne].
    + apply unready_tryInject; [apply Hsx, Hx | exact Hw].
    + apply waiting_tryInject_other;
        [apply (scanning_idsBelow w0), Hx | exact Hne | exact Hw].
  - intros x Hx Hw.
    destruct (unready_tryInject (nodeId r) n x (Hsx x Hx) Hw)
      as (Hw' & t & Ht & Hcb & Hdue & Hid).
    split; [exact Hw'|]. exists t. split; [exact Ht|]. split; [exact Hcb|].
    destruct Hx as ((_ & Hle & _) & _ & Hnow).
    split; [rewrite Hdue, Hnow; reflexivity | lia].
  - exact Hdws.
  - exact HJ0.
  - left. exact Hwait.
  - rewrite Hscan. split.
    + destruct Hstate as [Hw | [Hw _]]; exact Hw.
    + destruct Hdone as (_ & Hretry); [|exact Hretry].
      exists (nodeId dw). split.
      * apply list_elem_of_fmap. exists dw. split; [reflexivity | exact Hdw].
      * unfold regionIds. change (dom w0) with (dom w). rewrite Hl.
        apply list_elem_of_fmap. exists r. split; [reflexivity | exact Hr].
Qed.

Lemma scanAll_retries_every_unready_region_witness :
  waiting 11 0 (scanAll (Scene.calm TwoPopups.rendering true))
  /\ exists t, t ∈ timers (scanAll (Scene.calm TwoPopups.rendering true))
               /\ callback t = CbTryInjectRetry 11 6
               /\ due t = 1300%Z
               /\ (100 <= timerId t)%nat.
Proof.
  apply (scanAll_retries_every_unready_region (Scene.calm TwoPopups.rendering true)
           (mkElement 2 "div" "dw" ∅
              [mkElement 11 "div" "nH" ∅ [Sample.control 12 "T-I J-J5-Ji aoO" ""]])
           (mkLocated
              (mkElement 2 "div" "dw" ∅
                 [mkElement 11 "div" "nH" ∅ [Sample.control 12 "T-I J-J5-Ji aoO" ""]])
              [TwoPopups.rendering])
           (mkElement 11 "div" "nH" ∅ [Sample.control 12 "T-I J-J5-Ji aoO" ""])
           (mkElement 11 "div" "nH" ∅ [Sample.control 12 "T-I J-J5-Ji aoO" ""])).
  - apply idsBelow_check. vm_compute. reflexivity.
  - apply htmlSendButtons_check. vm_compute. reflexivity.
  - vm_compute. left.
  - vm_compute. reflexivity.
  - vm_compute. left.
  - vm_compute. reflexivity.
  - vm_compute. reflexivity.
  - vm_compute. reflexivity.
Defined.

(** *** A send button that is an SVG element *)

(** An uncaught exception ends the scan.  When the first region of the
    first popup container has a send button that is an SVG element,
    [buildButton] throws in the injection into that region: the region
    bears the processed marker, which is all that changed in the document;
    no control is inserted, no listener registered, no timer set; and the
    scan ends there, without a send-button lookup for any other region.
    Bearing the marker, the region is skipped by every later scan. *)
Theorem svg_send_button_aborts_scan
        (w : World) (dw : Element) (dwEls : list Element) (l : Located)
        (r : Element) (regions : list Element) (el s : Element) :
  documentQuerySelectorAll (dom w) (hasClass "dw") = dw :: dwEls ->
  getLocated (dom w) (nodeId dw) = Some l ->
  findComposeWindows l = r :: regions ->
  getNode (dom w) (nodeId r) = Some el ->
  hasAttribute el PROCESSED_ATTR = false ->
  findSendButton el = Some s ->
  buildButtonThrows s = true ->
  let w' := scanAll w in
  dom w' = updateNode (nodeId r) (withAttribute PROCESSED_ATTR "true") (dom w)
  /\ insertions (trace w') = insertions (trace w)
  /\ listeners w' = listeners w
  /\ timers w' = timers w
  /\ (forall c, c <> nodeId r -> sendLookups c (trace w') = sendLookups c (trace w))
  /\ tryInjectWithRetry (nodeId r) 6 w' = w'.
Proof.
  intros Hdw Hl Hr Hnode Hproc Hsend Hthrows. cbv zeta.
  set (w0 := LOG (LogScanAll (length (map nodeId (dw :: dwEls)))) (setScanTimer None w)).
  set (w1 := emit (FindSendButton ByTryInjectWithRetry (nodeId r)) w0).
  assert (Hnode1 : getNode (dom w1) (nodeId r) = Some el) by exact Hnode.
  assert (Hscan : scanAll w = injectButton (nodeId r) w1).
  { unfold scanAll. cbv zeta. change (dom (setScanTimer None w)) with (dom w).
    rewrite Hdw. fold w0. cbn [map forEachContainer].
    change (dom w0) with (dom w). rewrite Hl, Hr. cbn [map forEachRegion].
    assert (Ht : tryInjectWithRetryThrows (nodeId r) w0 = true).
    { unfold tryInjectWithRetryThrows, injectButtonThrows.
      change (dom (emit _ w0)) with (dom w). change (dom w0) with (dom w).
      rewrite Hnode, Hproc, Hsend, Hthrows.
      rewrite bool_decide_eq_true_2 by (eexists; reflexivity). reflexivity. }
    rewrite Ht, tryInjectWithRetry_cases. change (dom w0) with (dom w).
    rewrite Hnode, Hproc, Hsend. reflexivity. }
  destruct (injectButton_throws (nodeId r) w1 el s Hnode1 Hproc Hsend Hthrows)
    as (Htr & Hti & Hls & Hdom).
  assert (Htr1 : trace w1
                 = [(now w, FindSendButton ByTryInjectWithRetry (nodeId r));
                    (now w, Log (LogScanAll (length (map nodeId (dw :: dwEls)))))]
                     ++ trace w) by reflexivity.
  change (now w1) with (now w) in Htr.
  rewrite Hscan. split; [exact Hdom|].
  split; [rewrite Htr, Htr1, !insertions_app; cbn; rewrite !app_nil_r; reflexivity|].
  split; [exact Hls|]. split; [exact Hti|]. split.
  - intros c Hc. rewrite Htr, Htr1, !sendLookups_app. unfold sendLookups at 2 3. cbn.
    rewrite !decide_False by (intros Heq; apply Hc; symmetry; exact Heq).
    cbn. rewrite !app_nil_r. reflexivity.
  - rewrite tryInjectWithRetry_cases, Hdom, getNode_updateNode, Hnode1 by reflexivity.
    cbn [fmap option_fmap option_map]. rewrite hasAttribute_withAttribute. reflexivity.
Qed.

Lemma svg_send_button_aborts_scan_witness :
  let w' := scanAll (Scene.calm SvgPopup.doc true) in
  insertions (trace w') = []
  /\ sendLookups 21 (trace w') = []
  /\ map nodeId (filter (fun x => hasAttribute x PROCESSED_ATTR = true) (subtree (dom w')))
     = [11]%nat.
Proof.
  destruct (svg_send_button_aborts_scan (Scene.calm SvgPopup.doc true)
              (mkElement 2 "div" "dw" ∅ [mkElement 11 "div" "nH" ∅ [SvgPopup.sendIcon]])
              [mkElement 5 "div" "dw" ∅ [Sample.nativeCompose]]
              (mkLocated
                 (mkElement 2 "div" "dw" ∅ [mkElement 11 "div" "nH" ∅ [SvgPopup.sendIcon]])
                 [SvgPopup.doc])
              (mkElement 11 "div" "nH" ∅ [SvgPopup.sendIcon]) []
              (mkElement 11 "div" "nH" ∅ [SvgPopup.sendIcon]) SvgPopup.sendIcon)
    as (Hdom & Hins & _ & _ & Hlook & _);
    [vm_compute; reflexivity ..|].
  cbv zeta. rewrite Hins, (Hlook 21%nat ltac:(discriminate)), Hdom.
  vm_compute. repeat split; reflexivity.
Defined.

(** ** The model at work *)

Example acceptsSendText_samples :
  map acceptsSendText
      (map Str.toLowerCase
           ["Send"; "Send ‪(Ctrl-Enter)‬"; "Send & Archive"; "Send and archive";
            "Sender"; "Archive"; ""])
  = [true; true; false; true; false; false; false].
Proof. vm_compute. reflexivity. Qed.

Example buildButton_className_sample :
  className (buildButton 0 (Sample.control 12 "T-I J-J5-Ji aoO T-I-atl L3" "Send"))
  = "T-I J-J5-Ji  T-I-atl L3 aoO sab-btn".
Proof. vm_compute. reflexivity. Qed.

Example findComposeWindows_sample :
  map nodeId
      (findComposeWindows
         (mkLocated (mkElement 2 "div" "dw" ∅ [Sample.plainCompose; Sample.injectedCompose])
                    [Sample.page [Sample.plainCompose; Sample.injectedCompose]]))
  = [11; 41]%nat.
Proof. vm_compute. reflexivity. Qed.

(** The page loads with an open popup; the script starts, scans and
    injects; the user clicks the synthetic control; the host sends and
    closes the popup; two seconds after the removal is noticed the archive
    control, present at once, is activated.  No notification is shown. *)
Example send_then_archive_scenario :
  let open := mkElement 50 "html" "" ∅
                [mkElement 51 "div" "dw" ∅ [Sample.plainCompose]] in
  let closed := mkElement 50 "html" "" ∅ [mkElement 51 "div" "dw" ∅ []; Sample.toolbar] in
  let w1 := run [IdlePeriod; IdlePeriod; TimerFires] (boot open true) in
  let w2 := run [UserEvent 1 clickEvent; TimerFires; HostMutation closed;
                 RemovalRecords 2; TimerFires] w1 in
  insertions (trace w1) = [(12, 1)]%nat
  /\ map nodeId (subtree (dom w1)) = [50; 51; 11; 12; 1]%nat
  /\ clickCalls 12 (trace w2) = 1%nat
  /\ archiveAttempts (trace w2) = [(2000, 1)]%Z
  /\ dispatched (trace w2) = [(31, "mousedown"); (31, "mouseup"); (31, "click")]%nat
  /\ toastsShown (trace w2) = []
  /\ timers w2 = [] /\ observers w2 = [].
Proof. vm_compute. repeat split; reflexivity. Qed.
